(** * mixgme: the crash-game simulation core

    A shallow embedding of the round simulation and candle aggregation code of
    the repository, and the properties its specification states about it.

    Sources embedded (each definition keeps the name of the function it
    translates):
    - [src/components/Chart/CandlestickChart.tsx]: [generateVolume],
      [aggregateCandles], [performCandleAggregation], [generateCrashPoint],
      [generatePriceMovement], [updateGameState], [startNewGame] and the candle
      interval callback registered by it;
    - the [CrashChart] component (phase machine, game tick, render
      interpolation, countdown);
    - [src/components/Chart/CrashChart.constants.ts]: the timing constants
      and the interpolation speed;
    - the implementation guide's copy of [generateCrashPoint];
    - of the rest of [CandlestickChart.tsx]: the effect that syncs the
      multiplier with the latest candle, the conditions of the crash overlay
      and of the status messages, the [setCurrentPrice] updater of the smooth
      interpolation, and from the drawing effect the candle layout, the price
      scale with [normalizeY] and the search for the candle of a trade arrow;
    - [src/lib/easing.ts]: the polynomial curves, [interpolate] and
      [subpixelInterpolate];
    - [src/lib/performance.ts]: [FPSMonitor], [PerformanceProfiler],
      [AdaptiveQualityManager] and [AnimationFrameManager];
    - the canvas utilities: [DirtyRectManager].

    Numbers.  A JavaScript [number] is modelled by an exact rational ([Q]); the
    comparisons [<], [<=], [>=], [Math.max] and [Math.min] are then the exact
    ones, and rounding, NaN and the infinities are out of the model.  Timestamps
    ([Date.now()]) and volumes ([Math.floor] results) are integers ([Z]).

    Randomness.  [Math.random()] is a global stream of draws read through a
    cursor; every function that calls it is written in the state monad [Rand]
    and consumes the draws in the order of the calls in the source.

    Timers and React.  Each component is a state machine whose events are
    the firings of its live timers; one transition is a callback run to
    completion together with the render that follows it.  What a callback does
    itself (timers, refs, [Math.random()], [Date.now()]) happens in the order
    of its statements.  The state updates it queues are applied in that
    render, state variable by state variable in the order of the [useState]
    calls ([gameState] before [chartData]), the updates of one variable in the
    order queued; an update issued by an updater function while the render
    runs it is applied after the updates that were queued.  Timer ids are
    handed out consecutively; a cleared timer never fires. *)

From Stdlib Require Import QArith Qminmax Qround Qabs Lqa ZArith Lia List String.
From stdpp Require Import base option strings gmap.
Import ListNotations.
Local Open Scope Q_scope.

(** ** JavaScript comparisons on numbers *)

(** [x < y], [x <= y], [x > y], [x >= y] as the booleans JavaScript computes. *)
Definition Qltb (x y : Q) : bool := negb (Qle_bool y x).
Definition Qleb (x y : Q) : bool := Qle_bool x y.
Definition Qgtb (x y : Q) : bool := Qltb y x.
Definition Qgeb (x y : Q) : bool := Qle_bool y x.

(** [Math.max(...l)] and [Math.min(...l)] on a non-empty array; [d] stands for
    the infinity JavaScript returns on the empty one. *)
Definition Math_max_list (d : Q) (l : list Q) : Q :=
  match l with
  | [] => d
  | x :: xs => fold_left Qmax xs x
  end.

Definition Math_min_list (d : Q) (l : list Q) : Q :=
  match l with
  | [] => d
  | x :: xs => fold_left Qmin xs x
  end.

(** ** Exceptions *)

Inductive result (A : Type) : Type :=
| Ok (a : A)
| Throw (message : string).
Arguments Ok {A} a.
Arguments Throw {A} message.

Definition result_bind {A B} (r : result A) (k : A -> result B) : result B :=
  match r with
  | Ok a => k a
  | Throw m => Throw m
  end.

(** ** The random source *)

Record RandomSource : Type := mkRandomSource {
  draws : nat -> Q;
  cursor : nat
}.

Definition Rand (A : Type) : Type := RandomSource -> A * RandomSource.

#[export] Instance Rand_ret : MRet Rand := fun A a g => (a, g).
#[export] Instance Rand_bind : MBind Rand :=
  fun A B k m g => let '(a, g') := m g in k a g'.

(** One call of [Math.random()]. *)
Definition Math_random : Rand Q :=
  fun g => (draws g (cursor g), mkRandomSource (draws g) (S (cursor g))).

(** The [n]-th draw still to come. *)
Definition upcoming (g : RandomSource) (n : nat) : Q := draws g (cursor g + n).

(** [Math.random()] returns values of the half-open unit interval. *)
Definition uniform_source (g : RandomSource) : Prop :=
  forall i, 0 <= draws g i /\ draws g i < 1.

(** A source that replays a finite script of draws (and 0 afterwards). *)
Definition scripted (l : list Q) : RandomSource :=
  mkRandomSource (fun i => nth i l 0) 0.

(** ** The betting context

    [setGameState] of the betting context receives these snapshots. *)

Record SyncState : Type := mkSyncState {
  isGameActive : bool;
  currentMultiplier : Q;
  sync_crashPoint : Q
}.

(** * CandlestickChart.tsx *)

Module CandlestickChart.

Record CandleData : Type := mkCandleData {
  open : Q;
  high : Q;
  low : Q;
  close : Q;
  time : Z;
  volume : option Z
}.

(** [candle.volume || 0] *)
Definition volume_or_0 (c : CandleData) : Z :=
  match volume c with
  | Some v => v
  | None => 0%Z
  end.

Definition generateVolume (baseVolume volatility : Q) : Rand Z :=
  r1 ← Math_random;
  let randomFactor := 0.5 + r1 in
  r2 ← Math_random;
  let volatilityFactor := 1 + (r2 - 0.5) * volatility in
  mret (Qfloor (baseVolume * randomFactor * volatilityFactor)).

(** [generateVolume()] with its default arguments. *)
Definition generateVolume_default : Rand Z := generateVolume 1000000 0.3.

(** [[...candles].sort((a, b) => a.time - b.time)]: the stable ascending sort
    on [time]. *)
Fixpoint insertByTime (c : CandleData) (l : list CandleData) : list CandleData :=
  match l with
  | [] => [c]
  | d :: l' =>
      if (time c <=? time d)%Z then c :: d :: l' else d :: insertByTime c l'
  end.

Fixpoint sortByTime (l : list CandleData) : list CandleData :=
  match l with
  | [] => []
  | c :: l' => insertByTime c (sortByTime l')
  end.

(** The wick limit of [aggregateCandles]. *)
Definition maxWickExtension (bodyRange priceLevel : Q) : Q :=
  if Qgtb bodyRange 0
  then Qmin (bodyRange * 0.20) (priceLevel * 0.005)
  else priceLevel * 0.001.

Definition aggregateCandles (candles : list CandleData) : result CandleData :=
  match candles with
  | [] => Throw "Cannot aggregate empty candle array"
  | [c] => Ok c
  | c :: _ :: _ =>
      let sortedByTime := sortByTime candles in
      let first := List.hd c sortedByTime in
      let final := List.last sortedByTime c in
      let open_ := open first in
      let close_ := close final in
      let bodyHigh := Qmax open_ close_ in
      let bodyLow := Qmin open_ close_ in
      let bodyRange := bodyHigh - bodyLow in
      let allHighs := map high sortedByTime in
      let allLows := map low sortedByTime in
      let maxHigh := Math_max_list (high first) allHighs in
      let minLow := Math_min_list (low first) allLows in
      let priceLevel := (open_ + close_) / 2 in
      let limitedHigh := Qmin maxHigh (bodyHigh + maxWickExtension bodyRange priceLevel) in
      let limitedLow := Qmax minLow (bodyLow - maxWickExtension bodyRange priceLevel) in
      Ok {| open := open_;
            close := close_;
            high := limitedHigh;
            low := limitedLow;
            time := time first;
            volume := Some (fold_left (fun sum candle => (sum + volume_or_0 candle)%Z)
                                      sortedByTime 0%Z) |}
  end.

Definition performCandleAggregation (chartData : list CandleData)
  : result (list CandleData) :=
  if (length chartData <? 30)%nat then Ok chartData
  else
    let candlesToAggregate := firstn 3 chartData in
    let remainingCandles := skipn 3 chartData in
    result_bind (aggregateCandles candlesToAggregate)
      (fun aggregatedCandle => Ok (aggregatedCandle :: remainingCandles)).

(** [generateCrashPoint] as the component has it. *)
Definition generateCrashPoint : Rand Q :=
  random ← Math_random;
  if Qltb random 0.8 then
    subOneRandom ← Math_random;
    if Qltb subOneRandom 0.1 then r ← Math_random; mret (0.01 + r * 0.19)
    else if Qltb subOneRandom 0.3 then r ← Math_random; mret (0.20 + r * 0.30)
    else r ← Math_random; mret (0.50 + r * 0.49)
  else
    aboveOneRandom ← Math_random;
    if Qltb aboveOneRandom 0.4 then r ← Math_random; mret (1.01 + r * 0.99)
    else if Qltb aboveOneRandom 0.7 then r ← Math_random; mret (2.00 + r * 3.00)
    else if Qltb aboveOneRandom 0.9 then r ← Math_random; mret (5.00 + r * 5.00)
    else r ← Math_random; mret (10.00 + r * 15.00).

Definition generatePriceMovement (currentPrice volatility : Q) : Rand Q :=
  r1 ← Math_random;
  let trend := (r1 - 0.5) * 3 in
  r2 ← Math_random;
  spike ← (if Qltb r2 0.15
           then r3 ← Math_random; mret ((r3 - 0.5) * 0.2)
           else mret 0);
  r4 ← Math_random;
  let noise := (r4 - 0.5) * volatility * 1.5 in
  let momentum := trend * volatility * 0.8 + noise + spike in
  let newPrice := currentPrice + momentum in
  mret (Qmax 0.01 newPrice).

(** [generatePriceMovement(p)] with the default [volatility = 0.08]. *)
Definition generatePriceMovement_default (currentPrice : Q) : Rand Q :=
  generatePriceMovement currentPrice 0.08.


(** *** Component state *)

Record CrashGameState : Type := mkCrashGameState {
  isActive : bool;
  isPreparing : bool;
  multiplier : Q;
  hasCrashed : bool;
  crashPoint : Q;
  timeElapsed : Q;
  countdown : Z
}.

(** The timers of the window, by the callback each one runs:
    - [StartTimeout]: a timeout that calls [startNewGame] (the one of the
      mount effect, and the one set when the countdown ends);
    - [NoopInterval]: the interval [startNewGame] creates to learn the latest
      timer id;
    - [FirstCandleTimeout]: the timeout that installs the first candle;
    - [CandleInterval]: the candle interval of a round, with the variables
      its closure captures, the round's [newCrashPoint] and the mutable
      [targetPriceValue];
    - [CrashDelayTimeout]: the timeout set by the crash branch;
    - [FadeOutEffect] and [CountdownInterval]: the two intervals that timeout
      starts, the second knowing the id of the first. *)
Inductive Timer : Type :=
| StartTimeout
| NoopInterval
| FirstCandleTimeout
| CandleInterval (newCrashPoint targetPriceValue : Q)
| CrashDelayTimeout
| FadeOutEffect
| CountdownInterval (fadeOutEffect : nat).

(** The state the simulation reads and writes: the React state variables
    [gameState], [chartData] and [targetPrice], the snapshots received by the
    betting context (latest first), [candleIntervalRef], the window's timer
    table with the next timer id it hands out, and the state of
    [Math.random].  [gameIntervalRef] is never assigned, and the smooth
    interpolation and the drawing code, which only read this state, are left
    out. *)
Record Component : Type := mkComponent {
  gameState : CrashGameState;
  chartData : list CandleData;
  targetPrice : Q;
  bettingSync : list SyncState;
  candleIntervalRef : option nat;
  timers : gmap nat Timer;
  nextTimerId : nat;
  random : RandomSource
}.

Definition with_gameState (x : CrashGameState) (c : Component) : Component :=
  mkComponent x (chartData c) (targetPrice c) (bettingSync c)
    (candleIntervalRef c) (timers c) (nextTimerId c) (random c).
Definition with_chartData (x : list CandleData) (c : Component) : Component :=
  mkComponent (gameState c) x (targetPrice c) (bettingSync c)
    (candleIntervalRef c) (timers c) (nextTimerId c) (random c).
Definition with_targetPrice (x : Q) (c : Component) : Component :=
  mkComponent (gameState c) (chartData c) x (bettingSync c)
    (candleIntervalRef c) (timers c) (nextTimerId c) (random c).
Definition with_bettingSync (x : list SyncState) (c : Component) : Component :=
  mkComponent (gameState c) (chartData c) (targetPrice c) x
    (candleIntervalRef c) (timers c) (nextTimerId c) (random c).
Definition with_candleIntervalRef (x : option nat) (c : Component) : Component :=
  mkComponent (gameState c) (chartData c) (targetPrice c) (bettingSync c)
    x (timers c) (nextTimerId c) (random c).
Definition with_timers (x : gmap nat Timer) (c : Component) : Component :=
  mkComponent (gameState c) (chartData c) (targetPrice c) (bettingSync c)
    (candleIntervalRef c) x (nextTimerId c) (random c).
Definition with_nextTimerId (x : nat) (c : Component) : Component :=
  mkComponent (gameState c) (chartData c) (targetPrice c) (bettingSync c)
    (candleIntervalRef c) (timers c) x (random c).
Definition with_random (x : RandomSource) (c : Component) : Component :=
  mkComponent (gameState c) (chartData c) (targetPrice c) (bettingSync c)
    (candleIntervalRef c) (timers c) (nextTimerId c) x.

(** Running a computation that calls [Math.random()]. *)
Definition draw {A : Type} (m : Rand A) (c : Component) : A * Component :=
  let '(a, g) := m (random c) in (a, with_random g c).

(** [setInterval] and [setTimeout] hand out consecutive ids from one counter;
    [clearInterval] removes the timer with the given id, if any. *)
Definition setTimer (t : Timer) (c : Component) : nat * Component :=
  let id := nextTimerId c in
  (id, with_nextTimerId (S id) (with_timers (<[id := t]> (timers c)) c)).

Definition clearInterval (id : nat) (c : Component) : Component :=
  with_timers (delete id (timers c)) c.

(** [updateGameState]: the new game state is stored and sent to the betting
    context. *)
Definition updateGameState (newState : CrashGameState -> CrashGameState)
    (c : Component) : Component :=
  let updatedState := newState (gameState c) in
  let syncState := {| isGameActive := isActive updatedState;
                      currentMultiplier := multiplier updatedState;
                      sync_crashPoint := crashPoint updatedState |} in
  with_gameState updatedState (with_bettingSync (syncState :: bettingSync c) c).

(** [startNewGame] is only ever called through the closure of the first
    render (by the mount effect and by its own restart timeout), where the
    state variables it reads still have their initial values. *)
Definition closure_testMode : bool := false.
Definition closure_chartData : list CandleData := [].

Definition initialPrice : Q := 1.0.

Definition startNewGame (c : Component) : Component :=
  let c := updateGameState (fun prev =>
             mkCrashGameState true false 1.00 false 0 0 0%Z) c in
  (* clear the existing candle interval *)
  let c := match candleIntervalRef c with
           | Some id => with_candleIntervalRef None (clearInterval id c)
           | None => c
           end in
  (* clear every timer id from 1000 up to a freshly created one *)
  let '(allIntervals, c) := setTimer NoopInterval c in
  let c := fold_left (fun c i => clearInterval i c)
             (seq 1000 (S allIntervals - 1000)) c in
  let '(newCrashPoint, c) := draw generateCrashPoint c in
  let c := with_targetPrice initialPrice c in
  let c := updateGameState (fun prev =>
             mkCrashGameState (isActive prev) (isPreparing prev) initialPrice
               (hasCrashed prev) (crashPoint prev) (timeElapsed prev)
               (countdown prev)) c in
  let c := with_chartData [] c in
  let c := updateGameState (fun prev =>
             mkCrashGameState true false initialPrice false newCrashPoint 0 0%Z) c in
  let '(_, c) := setTimer FirstCandleTimeout c in
  let '(id, c) := setTimer (CandleInterval newCrashPoint initialPrice) c in
  with_candleIntervalRef (Some id) c.

(** The timeout that installs the first candle of a round. *)
Definition firstCandleTimeout (now : Z) (c : Component) : Component :=
  let '(v, c) := draw generateVolume_default c in
  let firstCandle := {| open := initialPrice; high := initialPrice;
                        low := initialPrice; close := initialPrice;
                        time := now; volume := Some v |} in
  with_chartData [firstCandle] c.

(** [lastCandle] with the new value folded in. *)
Definition foldCandle (lastCandle : CandleData) (targetPriceValue : Q) : CandleData :=
  {| open := open lastCandle;
     close := targetPriceValue;
     high := Qmax (high lastCandle) targetPriceValue;
     low := Qmin (low lastCandle) targetPriceValue;
     time := time lastCandle;
     volume := volume lastCandle |}.

(** [l.slice(-n)] *)
Definition slice_last {A : Type} (n : nat) (l : list A) : list A :=
  skipn (length l - n) l.

Definition setMultiplier (targetPriceValue : Q) (currentState : CrashGameState)
  : CrashGameState :=
  mkCrashGameState (isActive currentState) (isPreparing currentState)
    targetPriceValue (hasCrashed currentState) (crashPoint currentState)
    (timeElapsed currentState) (countdown currentState).

(** The [setChartData] updater of the candle interval, with the update of
    the multiplier it issues while it runs.  Reading [time] of the last candle
    of an empty chart throws. *)
Definition updateChart (targetPriceValue : Q) (now : Z) (c : Component)
  : result Component :=
  let prev := chartData c in
  match last prev with
  | None => Throw "TypeError: cannot read properties of undefined"
  | Some lastCandle =>
      let candleInterval := if closure_testMode then 500%Z else 3000%Z in
      if (now - time lastCandle >=? candleInterval)%Z then
        let updatedLastCandle := foldCandle lastCandle targetPriceValue in
        let '(v, c) := draw generateVolume_default c in
        let newCandle := {| open := targetPriceValue; high := targetPriceValue;
                            low := targetPriceValue; close := targetPriceValue;
                            time := now; volume := Some v |} in
        let updated := removelast prev ++ [updatedLastCandle; newCandle] in
        result_bind (performCandleAggregation updated) (fun updated =>
          let c := updateGameState (setMultiplier targetPriceValue) c in
          Ok (with_chartData (slice_last 100 updated) c))
      else
        let updatedLastCandle := foldCandle lastCandle targetPriceValue in
        let c := updateGameState (setMultiplier targetPriceValue) c in
        Ok (with_chartData (removelast prev ++ [updatedLastCandle]) c)
  end.

(** The crash test of the candle interval. *)
Definition crashTriggered (newCrashPoint targetPriceValue : Q) : bool :=
  (Qltb newCrashPoint 1.0 && Qleb targetPriceValue newCrashPoint)
  || (Qgeb newCrashPoint 1.0 && Qgeb targetPriceValue newCrashPoint).

(** The crash branch of the candle interval, with the render that follows it.
    [now] is the reading of [Date.now()] the tick made before the branch,
    [nowFinal] and [nowCrash] are the two readings of the branch itself.

    The branch runs inside the timer callback: it clears the interval, builds
    the two candles (drawing their volumes) and sets the crash delay timeout.  Its
    state updates, and the [setChartData] updater the tick queued before the
    crash test, are only queued there; React runs them in the render after
    the callback, one state variable after the other in the order of their
    [useState] calls.  [gameState] comes first: the crash update sets the
    multiplier to [newCrashPoint] and publishes that snapshot.  [chartData]
    comes second: the tick's updater runs (drawing the volume of a new candle
    if it opens one), then the updater of the crash branch.  The update of the
    multiplier that the tick's updater issues is issued during this render,
    hence applied after the crash update: it stores [targetPriceValue] as the
    multiplier again and publishes a second snapshot.  ([updateChart] applies
    this nested update on the spot; it touches [gameState] and the snapshots
    only, which the updater of the crash branch neither reads nor writes.) *)
Definition crashRound (newCrashPoint targetPriceValue : Q) (now nowFinal nowCrash : Z)
    (c : Component) : result Component :=
  (* in the callback *)
  let c := match candleIntervalRef c with
           | Some id => with_candleIntervalRef None (clearInterval id c)
           | None => c
           end in
  let lastPrice := match last closure_chartData with
                   | Some l => close l
                   | None => targetPriceValue
                   end in
  let '(finalizedCurrentCandle, c) :=
    match last closure_chartData with
    | Some l => ({| open := open l; high := high l; low := low l;
                    close := lastPrice; time := time l; volume := volume l |}, c)
    | None =>
        let '(v, c) := draw generateVolume_default c in
        ({| open := targetPriceValue; high := targetPriceValue;
            low := targetPriceValue; close := targetPriceValue;
            time := nowFinal; volume := Some v |}, c)
    end in
  let '(v, c) := draw (generateVolume 2000000 0.5) c in
  let crashCandle := {| open := lastPrice; high := lastPrice; low := 0; close := 0;
                        time := (nowCrash + 100)%Z; volume := Some v |} in
  let '(_, c) := setTimer CrashDelayTimeout c in
  (* in the render: [gameState] *)
  let c := updateGameState (fun prev =>
             mkCrashGameState false false newCrashPoint true newCrashPoint
               (timeElapsed prev) (countdown prev)) c in
  (* in the render: [chartData], the tick's updater and then the crash one *)
  result_bind (updateChart targetPriceValue now c) (fun c =>
    result_bind
      (performCandleAggregation
         (removelast (chartData c) ++ [finalizedCurrentCandle; crashCandle]))
      (fun updated => Ok (with_chartData updated c))).

(** The callback of the candle interval with id [id], whose closure holds
    [newCrashPoint] and [targetPriceValue], with the render that follows it.
    On a tick that does not crash the only updates are the new target price
    and the tick's [setChartData] updater with the multiplier update it
    issues. *)
Definition candleTick (id : nat) (newCrashPoint targetPriceValue : Q)
    (now nowFinal nowCrash : Z) (c : Component) : result Component :=
  let '(targetPriceValue, c) :=
    draw (generatePriceMovement_default targetPriceValue) c in
  let c := with_timers
             (<[id := CandleInterval newCrashPoint targetPriceValue]> (timers c)) c in
  let c := with_targetPrice targetPriceValue c in
  if crashTriggered newCrashPoint targetPriceValue
  then crashRound newCrashPoint targetPriceValue now nowFinal nowCrash c
  else updateChart targetPriceValue now c.

(** Two seconds after the crash: the countdown and the fade-out start. *)
Definition crashDelayTimeout (c : Component) : Component :=
  let c := updateGameState (fun prev =>
             mkCrashGameState (isActive prev) true (multiplier prev)
               (hasCrashed prev) (crashPoint prev) (timeElapsed prev) 5%Z) c in
  let '(fadeOutEffect, c) := setTimer FadeOutEffect c in
  let '(_, c) := setTimer (CountdownInterval fadeOutEffect) c in
  c.

Definition fadeOut (id : nat) (c : Component) : Component :=
  match chartData c with
  | [] => with_chartData [] (clearInterval id c)
  | prev => with_chartData (removelast prev) c
  end.

Definition countdownTick (id fadeOutEffect : nat) (c : Component) : Component :=
  if (countdown (gameState c) <=? 1)%Z then
    let c := clearInterval id c in
    let c := clearInterval fadeOutEffect c in
    let '(_, c) := setTimer StartTimeout c in
    updateGameState (fun prev =>
      mkCrashGameState (isActive prev) (isPreparing prev) (multiplier prev)
        false (crashPoint prev) (timeElapsed prev) 0%Z) c
  else
    updateGameState (fun prev =>
      mkCrashGameState (isActive prev) (isPreparing prev) (multiplier prev)
        (hasCrashed prev) (crashPoint prev) (timeElapsed prev)
        (countdown prev - 1)%Z) c.

(** The readings of [Date.now()] a callback makes. *)
Record Clock : Type := mkClock { now : Z; nowFinal : Z; nowCrash : Z }.

(** The callback of timer [id]; a timeout leaves the table when it fires. *)
Definition callback (id : nat) (t : Timer) (k : Clock) (c : Component)
  : result Component :=
  match t with
  | StartTimeout => Ok (startNewGame (clearInterval id c))
  | NoopInterval => Ok c
  | FirstCandleTimeout => Ok (firstCandleTimeout (now k) (clearInterval id c))
  | CandleInterval newCrashPoint targetPriceValue =>
      candleTick id newCrashPoint targetPriceValue (now k) (nowFinal k) (nowCrash k) c
  | CrashDelayTimeout => Ok (crashDelayTimeout (clearInterval id c))
  | FadeOutEffect => Ok (fadeOut id c)
  | CountdownInterval fadeOutEffect => Ok (countdownTick id fadeOutEffect c)
  end.

(** The component after its mount effect has run: the mount timeout is the
    only timer. *)
Definition mounted (firstId : nat) (g : RandomSource) : Component :=
  {| gameState := mkCrashGameState false false 1.00 false 0 0 0%Z;
     chartData := [];
     targetPrice := 1.0;
     bettingSync := [];
     candleIntervalRef := None;
     timers := {[ firstId := StartTimeout ]};
     nextTimerId := S firstId;
     random := g |}.

(** One turn of the event loop: a live timer fires and its callback returns. *)
Inductive step : Component -> Component -> Prop :=
| step_fire (id : nat) (t : Timer) (k : Clock) (c c' : Component) :
    timers c !! id = Some t ->
    callback id t k c = Ok c' ->
    step c c'.

Inductive reachable : Component -> Prop :=
| reachable_mounted (firstId : nat) (g : RandomSource) :
    reachable (mounted firstId g)
| reachable_step (c c' : Component) :
    reachable c -> step c c' -> reachable c'.

(** Firing the timers of a script in turn; [None] when the script names a
    timer that is not alive or a callback throws. *)
Fixpoint run (script : list (nat * Clock)) (c : Component) : option Component :=
  match script with
  | [] => Some c
  | (id, k) :: rest =>
      match timers c !! id with
      | Some t =>
          match callback id t k c with
          | Ok c' => run rest c'
          | Throw _ => None
          end
      | None => None
      end
  end.

End CandlestickChart.

(** * The CrashChart component *)

Module CrashChart.

Definition TICK_MS : Z := 80.
Definition TICKS_PER_CANDLE : Z := 65.
Definition INTERPOLATION_SPEED : Q := 0.15.
Definition INITIAL_PRICE : Q := 1.0.
Definition COUNTDOWN_SECONDS : Z := 5.

Record Candle : Type := mkCandle {
  open : Q;
  high : Q;
  low : Q;
  close : Q;
  ticks : Z;
  animatedHigh : Q;
  animatedLow : Q;
  animatedClose : Q
}.

Inductive Phase : Type := waiting | running | crashed.

(** The React state of the component, the calls received by the betting
    context (latest first), the timeouts still pending (the mount effect's
    [setTimeout(startGame, 1000)] and the [setTimeout] calls of the crash
    branch), and the state of [Math.random].  The game tick interval lives
    exactly while [phase] is [running] and the countdown interval exactly
    while [countdown] is positive: their effects create and clear them.
    Every callback runs to completion, and its state updates are in place
    before the next one runs. *)
Record State : Type := mkState {
  phase : Phase;
  targetPrice : Q;
  displayPrice : Q;
  crashPoint : Q;
  countdown : Z;
  candles : list Candle;
  synced : list SyncState;
  startTimeout : bool;
  countdownTimeouts : nat;
  random : RandomSource
}.

Definition initial (g : RandomSource) : State :=
  mkState waiting INITIAL_PRICE INITIAL_PRICE 0 0%Z [] [] true 0 g.

Definition generateCrashPoint : Rand Q :=
  r ← Math_random;
  if Qltb r 0.3 then x ← Math_random; mret (0.5 + x * 0.49)
  else if Qltb r 0.7 then x ← Math_random; mret (1.01 + x * 1.5)
  else if Qltb r 0.9 then x ← Math_random; mret (2.5 + x * 5)
  else x ← Math_random; mret (7.5 + x * 15).

Definition flatCandle (price : Q) (ticks : Z) : Candle :=
  mkCandle price price price price ticks price price price.

Definition startGame (st : State) : State :=
  let '(newCrashPoint, g) := generateCrashPoint (random st) in
  mkState running INITIAL_PRICE INITIAL_PRICE newCrashPoint 0%Z
    [flatCandle INITIAL_PRICE 0%Z]
    (mkSyncState true INITIAL_PRICE newCrashPoint :: synced st)
    (startTimeout st) (countdownTimeouts st) g.

(** The [setDisplayPrice] updater of the render loop. *)
Definition interpolateDisplayPrice (target prev : Q) : Q :=
  let diff := target - prev in
  if Qltb (Qabs diff) 0.0001 then target
  else prev + diff * INTERPOLATION_SPEED.

Definition renderFrame (st : State) : State :=
  mkState (phase st) (targetPrice st)
    (interpolateDisplayPrice (targetPrice st) (displayPrice st))
    (crashPoint st) (countdown st) (candles st) (synced st)
    (startTimeout st) (countdownTimeouts st) (random st).

(** The price of the next tick. *)
Definition nextPrice (prev : Q) : Rand Q :=
  let volatility := 0.016 in
  r1 ← Math_random;
  let trend := (r1 - 0.5) * 0.3 in
  r2 ← Math_random;
  spike ← (if Qltb r2 0.02
           then r3 ← Math_random; mret ((r3 - 0.5) * 0.22)
           else mret 0);
  r4 ← Math_random;
  let noise := (r4 - 0.5) * volatility in
  let momentum := trend * volatility + noise + spike in
  mret (Qmax 0.01 (prev + momentum)).

Definition crashTriggered (crashPoint newPrice : Q) : bool :=
  (Qltb crashPoint 1 && Qleb newPrice crashPoint)
  || (Qgeb crashPoint 1 && Qgeb newPrice crashPoint).

Definition slice_last {A : Type} (n : nat) (l : list A) : list A :=
  skipn (length l - n) l.

(** The [setCandles] updater of a tick that does not crash. *)
Definition updateCandles (newPrice : Q) (prev : list Candle) : list Candle :=
  match last prev with
  | None => [flatCandle newPrice 1%Z]
  | Some last =>
      let newTicks := (ticks last + 1)%Z in
      let wickLimit := 0.015 in
      let bodyHigh := Qmax (open last) newPrice in
      let bodyLow := Qmin (open last) newPrice in
      let maxHigh := bodyHigh + wickLimit in
      let maxLow := bodyLow - wickLimit in
      let actualHigh := Qmin (Qmax (high last) newPrice) maxHigh in
      let actualLow := Qmax (Qmin (low last) newPrice) maxLow in
      let animSpeed := 0.4 in
      if (newTicks >=? TICKS_PER_CANDLE)%Z then
        let finalized := mkCandle (open last) actualHigh actualLow newPrice newTicks
                           actualHigh actualLow newPrice in
        let newCandle := flatCandle newPrice 0%Z in
        slice_last 50 (removelast prev ++ [finalized; newCandle])
      else
        removelast prev ++
          [mkCandle (open last) actualHigh actualLow newPrice newTicks
             (animatedHigh last + (actualHigh - animatedHigh last) * animSpeed)
             (animatedLow last + (actualLow - animatedLow last) * animSpeed)
             (animatedClose last + (newPrice - animatedClose last) * animSpeed)]
  end.

(** The callback of the game tick interval. *)
Definition gameTick (st : State) : State :=
  let prev := targetPrice st in
  let '(newPrice, g) := nextPrice prev (random st) in
  if crashTriggered (crashPoint st) newPrice then
    mkState crashed (crashPoint st) (displayPrice st) (crashPoint st) (countdown st)
      (candles st ++ [mkCandle newPrice newPrice 0 0 0%Z newPrice 0 0])
      (mkSyncState false (crashPoint st) (crashPoint st) :: synced st)
      (startTimeout st) (S (countdownTimeouts st)) g
  else
    mkState (phase st) newPrice (displayPrice st) (crashPoint st) (countdown st)
      (updateCandles newPrice (candles st))
      (mkSyncState true newPrice (crashPoint st) :: synced st)
      (startTimeout st) (countdownTimeouts st) g.

(** [setTimeout(() => setCountdown(COUNTDOWN_SECONDS), 2000)] fires. *)
Definition crashDelayTimeout (st : State) : State :=
  mkState (phase st) (targetPrice st) (displayPrice st) (crashPoint st)
    COUNTDOWN_SECONDS (candles st) (synced st) (startTimeout st)
    (pred (countdownTimeouts st)) (random st).

(** The callback of the countdown interval. *)
Definition countdownTick (st : State) : State :=
  if (countdown st <=? 1)%Z then
    let st := startGame st in
    mkState (phase st) (targetPrice st) (displayPrice st) (crashPoint st)
      0%Z (candles st) (synced st) (startTimeout st) (countdownTimeouts st)
      (random st)
  else
    mkState (phase st) (targetPrice st) (displayPrice st) (crashPoint st)
      (countdown st - 1)%Z (candles st) (synced st) (startTimeout st)
      (countdownTimeouts st) (random st).

(** The mount effect's timeout fires. *)
Definition startTimeoutFires (st : State) : State :=
  startGame
    (mkState (phase st) (targetPrice st) (displayPrice st) (crashPoint st)
       (countdown st) (candles st) (synced st) false (countdownTimeouts st)
       (random st)).

Inductive Event : Type :=
| StartTimeoutFires
| GameTick
| CrashDelayTimeoutFires
| CountdownTick
| RenderFrame.

(** An event can happen when its timer is alive. *)
Definition enabled (e : Event) (st : State) : bool :=
  match e with
  | StartTimeoutFires => startTimeout st
  | GameTick => match phase st with running => true | _ => false end
  | CrashDelayTimeoutFires => negb (Nat.eqb (countdownTimeouts st) 0)
  | CountdownTick => (0 <? countdown st)%Z
  | RenderFrame => true
  end.

Definition handle (e : Event) (st : State) : State :=
  match e with
  | StartTimeoutFires => startTimeoutFires st
  | GameTick => gameTick st
  | CrashDelayTimeoutFires => crashDelayTimeout st
  | CountdownTick => countdownTick st
  | RenderFrame => renderFrame st
  end.

Inductive step : State -> State -> Prop :=
| step_event (e : Event) (st : State) :
    enabled e st = true -> step st (handle e st).

Inductive reachable : State -> Prop :=
| reachable_initial (g : RandomSource) : reachable (initial g)
| reachable_step (st st' : State) : reachable st -> step st st' -> reachable st'.

(** Running a script of events from a state; [None] when one of them is not
    enabled. *)
Fixpoint run (es : list Event) (st : State) : option State :=
  match es with
  | [] => Some st
  | e :: es' => if enabled e st then run es' (handle e st) else None
  end.

End CrashChart.

(** * CrashChart.constants.ts *)

Module CrashChartConstants.

Definition TICK_MS : Z := 250.
Definition TICKS_PER_CANDLE : Z := 5.
Definition MIN_MULTIPLIER : Q := 0.01.
Definition COUNTDOWN_SECONDS : Z := 5.
Definition CRASH_DISPLAY_DURATION_MS : Z := 2000.

(** [ANIMATION.INTERPOLATION_SPEED] *)
Definition INTERPOLATION_SPEED : Q := 0.15.

End CrashChartConstants.

(** * The implementation guide's crash point generator *)

Module ImplementationGuide.

(** [generateCrashPoint] as the guide documents it (sub-1x bucket at 30%). *)
Definition generateCrashPoint : Rand Q :=
  random ← Math_random;
  if Qltb random 0.3 then
    subOneRandom ← Math_random;
    if Qltb subOneRandom 0.1 then r ← Math_random; mret (0.01 + r * 0.19)
    else if Qltb subOneRandom 0.3 then r ← Math_random; mret (0.20 + r * 0.30)
    else r ← Math_random; mret (0.50 + r * 0.49)
  else
    aboveOneRandom ← Math_random;
    if Qltb aboveOneRandom 0.4 then r ← Math_random; mret (1.01 + r * 0.99)
    else if Qltb aboveOneRandom 0.7 then r ← Math_random; mret (2.00 + r * 3.00)
    else if Qltb aboveOneRandom 0.9 then r ← Math_random; mret (5.00 + r * 5.00)
    else r ← Math_random; mret (10.00 + r * 15.00).

End ImplementationGuide.

(** * The specification's formulas

    Definitions written from the words of the specification, to compare the
    code with. *)

Module Spec.

(** §4.1: the crash point from the three draws [u], [v] (bucket) and [t]
    (position inside the bucket's range). *)
Definition crashPoint (u v t : Q) : Q :=
  if Qltb u 0.30 then
    if Qltb v 0.10 then 0.01 + t * (0.20 - 0.01)
    else if Qltb v 0.30 then 0.20 + t * (0.50 - 0.20)
    else 0.50 + t * (0.99 - 0.50)
  else
    if Qltb v 0.40 then 1.01 + t * (2.00 - 1.01)
    else if Qltb v 0.70 then 2.00 + t * (5.00 - 2.00)
    else if Qltb v 0.90 then 5.00 + t * (10.00 - 5.00)
    else 10.00 + t * (25.00 - 10.00).

(** §4.2: [PriceStepper.step], with the draws named after their use. *)
Definition step (previous rTrend rGate rSpike rNoise : Q) : Q :=
  let volatility := 0.08 in
  let trend := (rTrend - 0.5) * 3 in
  let spike := if Qltb rGate 0.15 then (rSpike - 0.5) * 0.2 else 0 in
  let noise := (rNoise - 0.5) * volatility * 1.5 in
  let momentum := trend * volatility * 0.8 + noise + spike in
  Qmax 0.01 (previous + momentum).

(** §4.3: the wick bound of a merged candle with the given [open] and [close]. *)
Definition maxExt (open close : Q) : Q :=
  let bodyHigh := Qmax open close in
  let bodyLow := Qmin open close in
  let bodyRange := bodyHigh - bodyLow in
  let priceLevel := (open + close) / 2 in
  if Qltb 0 bodyRange then Qmin (bodyRange * 0.20) (priceLevel * 0.005)
  else priceLevel * 0.001.

(** §4.4: the crash condition. *)
Definition crashed (crashPoint next : Q) : Prop :=
  (crashPoint < 1.0 /\ next <= crashPoint) \/ (1.0 <= crashPoint /\ crashPoint <= next).

(** §4.5: one call of the render interpolator with factor [k]. *)
Definition interpolate (k target displayed : Q) : Q :=
  if Qltb (Qabs (target - displayed)) 0.0001 then target
  else displayed + (target - displayed) * k.

End Spec.

(** * Example runs

    Concrete inputs the properties below are instantiated at. *)

Module Examples.

Import CandlestickChart.

(** The three candles of the aggregation test script (one with extreme
    wicks), followed by 27 flat candles. *)
Definition extreme_candles : list CandleData :=
  [ mkCandleData 1.0 1.02 0.98 1.01 0 None;
    mkCandleData 1.01 2.5 0.1 1.02 3000 None;
    mkCandleData 1.02 1.04 1.0 1.03 6000 None ].

Definition full_buffer : list CandleData :=
  extreme_candles ++ repeat (mkCandleData 1.03 1.03 1.03 1.03 9000 None) 27.

(** Draws for a CandlestickChart round with crash point 1.01: a quiet tick,
    then a tick that jumps above the crash point. *)
Definition candlestick_draws : RandomSource :=
  scripted [ 0.9; 0.1; 0;              (* generateCrashPoint *)
             0.5; 0.5;                 (* volume of the first candle *)
             0.5; 0.5; 0.5;            (* first tick: no movement *)
             0.99; 0.1; 0.99; 0.99;    (* second tick: a spike upward *)
             0.5; 0.5; 0.5; 0.5; 0.5; 0.5 ].

Definition after (script : list (nat * Clock)) : Component :=
  match run script (mounted 1 candlestick_draws) with
  | Some c => c
  | None => mounted 1 candlestick_draws
  end.

(** The round is started, has its first candle and has made one tick. *)
Definition running_script : list (nat * Clock) :=
  [ (1%nat, mkClock 0 0 0); (3%nat, mkClock 100 100 100);
    (4%nat, mkClock 200 200 200) ].

Definition running_round : Component := after running_script.

(** The next tick closes the first candle and crashes the round. *)
Definition crashed_script : list (nat * Clock) :=
  running_script ++ [ (4%nat, mkClock 3100 3100 3100) ].

Definition crashed_round : Component := after crashed_script.

(** Draws for a CrashChart round with crash point 0.9851 whose first tick
    falls below it, and for the round started after the countdown. *)
Definition crashchart_draws : RandomSource :=
  scripted [ 0.1; 0.99;                (* generateCrashPoint *)
             0; 0.01; 0; 0;            (* first tick: a spike downward *)
             0.5; 0.5 ].

(** Start, crash on the first tick, wait for the countdown to start and let
    it run down to its last second. *)
Definition countdown_script : list CrashChart.Event :=
  [ CrashChart.StartTimeoutFires; CrashChart.GameTick;
    CrashChart.CrashDelayTimeoutFires;
    CrashChart.CountdownTick; CrashChart.CountdownTick;
    CrashChart.CountdownTick; CrashChart.CountdownTick ].

(** The round after its start, before the first tick. *)
Definition started_round : CrashChart.State :=
  CrashChart.handle CrashChart.StartTimeoutFires
    (CrashChart.initial crashchart_draws).

(** The state that script reaches, and a source of draws that are all 0.5. *)
Definition last_second : CrashChart.State :=
  match CrashChart.run countdown_script (CrashChart.initial crashchart_draws) with
  | Some st => st
  | None => CrashChart.initial crashchart_draws
  end.

Definition half_draws : RandomSource := scripted [0.5; 0.5; 0.5].

End Examples.

(** * lib/easing.ts

    The easing curves that are polynomials, and the two interpolation
    functions.  The exponential, circular and elastic curves need powers of 2
    with fractional exponents, square roots and sines, which rationals do not
    have; they only enter as arguments of the interpolation functions, which
    take any easing function. *)

Module Easing.

Definition EasingFunction : Type := Q -> Q.

(** [Math.pow(x, n)] for the integer exponents the curves use. *)
Definition Math_pow (x : Q) (n : Z) : Q := x ^ n.

Definition linear : EasingFunction := fun t => t.

Definition easeInCubic : EasingFunction := fun t => t * t * t.
Definition easeOutCubic : EasingFunction := fun t => 1 - Math_pow (1 - t) 3.
Definition easeInOutCubic : EasingFunction := fun t =>
  if Qltb t 0.5 then 4 * t * t * t else 1 - Math_pow (-2 * t + 2) 3 / 2.

Definition easeInQuart : EasingFunction := fun t => t * t * t * t.
Definition easeOutQuart : EasingFunction := fun t => 1 - Math_pow (1 - t) 4.
Definition easeInOutQuart : EasingFunction := fun t =>
  if Qltb t 0.5 then 8 * t * t * t * t else 1 - Math_pow (-2 * t + 2) 4 / 2.

Definition interpolate (from to progress : Q) (easingFn : EasingFunction) : Q :=
  let t := Qmax 0 (Qmin 1 progress) in
  let easedT := easingFn t in
  from + (to - from) * easedT.

Definition subpixelInterpolate (from to progress : Q) (easingFn : EasingFunction)
  : Q :=
  let t := Qmax 0 (Qmin 1 progress) in
  let easedT := easingFn t in
  let result := from + (to - from) * easedT in
  result.

End Easing.

(** * CandlestickChart.tsx: what the component shows of its state *)

Module CandlestickChartView.

Import CandlestickChart.

(** The effect that runs after every change of [chartData]: while the round
    is active it stores the close of the latest candle as the multiplier. *)
Definition syncMultiplier (c : Component) : Component :=
  match last (chartData c) with
  | Some latestCandle =>
      if isActive (gameState c)
      then updateGameState (setMultiplier (close latestCandle)) c
      else c
  | None => c
  end.

(** The condition under which the crash overlay is rendered. *)
Definition showingOverlay (g : CrashGameState) : bool :=
  hasCrashed g && (0 <? countdown g)%Z && negb (isActive g) && negb (isPreparing g).


(** The drawing effect reads the quality level of the quality manager, if
    there is one, and falls back to 1.0 ([getQualityLevel() || 1.0]); from it
    it chooses the image smoothing of the canvas. *)
Definition drawingQualityLevel (qualityLevel : option Q) : Q :=
  match qualityLevel with
  | Some q => if Qeq_bool q 0 then 1.0 else q
  | None => 1.0
  end.

Inductive ImageSmoothing : Type := SmoothingHigh | SmoothingMedium | SmoothingOff.

Definition imageSmoothing (qualityLevel : Q) : ImageSmoothing :=
  if Qgtb qualityLevel 0.7 then SmoothingHigh
  else if Qgtb qualityLevel 0.3 then SmoothingMedium
  else SmoothingOff.

(** The message [drawEmptyChartGrid] writes on the empty chart. *)
Definition emptyChartMessage (g : CrashGameState) : string :=
  if isPreparing g then "Preparing chart..."
  else if (0 <? countdown g)%Z then "Next round starting..."
  else "Initializing chart...".

(** *** The drawing effect: where the candles go *)

Definition padding : Q := 40.
Definition leftBoundary : Q := padding + 40.
Definition rightBoundary (width : Q) : Q := width - padding - 100.

(** [candleWidth] and [candleSpacing] for the candles of the chart. *)
Definition candleLayout (totalCandles : nat) (availableWidth : Q) : Q * Q :=
  match totalCandles with
  | O => (20, 4)
  | S _ =>
      let totalCandles := inject_Z (Z.of_nat totalCandles) in
      let preferredCandleWidth := 20 in
      let preferredSpacing := 4 in
      let preferredTotalWidth :=
        totalCandles * (preferredCandleWidth + preferredSpacing) - preferredSpacing in
      if Qleb preferredTotalWidth availableWidth then
        (preferredCandleWidth, preferredSpacing)
      else
        let totalUnits := totalCandles * 1.2 - 0.2 in
        let unitWidth := availableWidth / totalUnits in
        let candleWidth := Qmax 2 unitWidth in
        let candleSpacing := Qmax 1 (candleWidth * 0.2) in
        let actualTotalWidth :=
          totalCandles * (candleWidth + candleSpacing) - candleSpacing in
        if Qgtb actualTotalWidth availableWidth then
          let scaleFactor := availableWidth / actualTotalWidth in
          (candleWidth * scaleFactor, candleSpacing * scaleFactor)
        else (candleWidth, candleSpacing)
  end.

(** The x position of the candle at [index], and the test that skips a
    candle outside the boundaries.  The code makes the test on doubles; on
    rationals it has the same outcome wherever the two sides of a comparison
    differ by more than the rounding of the doubles, and may differ from the
    code where they are equal. *)
Definition candleX (candleWidth candleSpacing : Q) (index : nat) : Q :=
  leftBoundary + inject_Z (Z.of_nat index) * (candleWidth + candleSpacing).

Definition outsideBoundaries (width candleWidth x : Q) : bool :=
  Qltb x leftBoundary || Qgtb (x + candleWidth) (rightBoundary width).

(** *** The drawing effect: the price scale *)

(** The prices the scale has to show: the wicks of every candle, the current
    price unless it is 0, and the wicks of the first candle once more. *)
Definition allPrices (visibleCandles : list CandleData) (currentPrice : Q) : list Q :=
  flat_map (fun c => [high c; low c]) visibleCandles
  ++ (if Qeq_bool currentPrice 0 then [] else [currentPrice])
  ++ match visibleCandles with
     | [] => []
     | firstCandle :: _ => [high firstCandle; low firstCandle]
     end.

(** [Math.max(0.05, Math.min(0.15, 0.5 / rawRange))]; for a range of 0 the
    quotient is [Infinity]. *)
Definition paddingPercent (rawRange : Q) : Q :=
  if Qeq_bool rawRange 0 then Qmax 0.05 0.15
  else Qmax 0.05 (Qmin 0.15 (0.5 / rawRange)).

(** [minPrice] and [maxPrice]; on an empty chart the effect returns before
    it computes them. *)
Definition priceScale (visibleCandles : list CandleData) (currentPrice : Q)
  : option (Q * Q) :=
  match visibleCandles with
  | [] => None
  | _ =>
      let prices := allPrices visibleCandles currentPrice in
      let rawMinPrice := Math_min_list 0 prices in
      let rawMaxPrice := Math_max_list 0 prices in
      let rawRange := rawMaxPrice - rawMinPrice in
      let paddingPercent := paddingPercent rawRange in
      Some (rawMinPrice * (1 - paddingPercent), rawMaxPrice * (1 + paddingPercent))
  end.

Definition normalizeY (height minPrice maxPrice price : Q) : Q :=
  let priceRange := maxPrice - minPrice in
  height - padding - ((price - minPrice) / priceRange) * (height - 2 * padding).

(** *** The drawing effect: trade arrows *)

(** The search for the candle closest in time to a trade made at
    [timestamp]: the index found so far and its time difference, [None]
    while [closestCandleIndex] is -1. *)
Fixpoint closestFrom (index : nat) (candles : list CandleData) (timestamp : Z)
    (closest : option (nat * Z)) : option (nat * Z) :=
  match candles with
  | [] => closest
  | candle :: rest =>
      let timeDiff := Z.abs (time candle - timestamp) in
      let closest :=
        match closest with
        | Some (_, closestTimeDiff) =>
            if (timeDiff <? closestTimeDiff)%Z then Some (index, timeDiff)
            else closest
        | None => Some (index, timeDiff)
        end in
      closestFrom (S index) rest timestamp closest
  end.

(** The index of the candle a trade arrow is drawn at, if it is drawn. *)
Definition arrowCandle (visibleCandles : list CandleData) (timestamp : Z)
  : option nat :=
  match closestFrom 0 visibleCandles timestamp None with
  | Some (closestCandleIndex, closestTimeDiff) =>
      if (closestTimeDiff <? 10000)%Z then Some closestCandleIndex else None
  | None => None
  end.

(** *** Smooth interpolation *)

Record SmoothState : Type := mkSmoothState {
  isAnimating : bool;
  easingFunction : Easing.EasingFunction;
  animationStartTime : Q;
  animationDuration : Q;
  lastFrameTime : Q;
  frameCount : Z
}.

Definition initialSmoothState : SmoothState :=
  mkSmoothState false Easing.easeOutCubic 0 150 0 0.

(** The [setCurrentPrice] updater of [animatePrice].  The variables its
    closure reads are arguments: the state variables [targetPrice],
    [smoothState] and [performanceState.currentFPS], and the quality level of
    the quality manager, if there is one.  [animationDuration] is never 0. *)
Definition animatePrice (targetPrice : Q) (smoothState : SmoothState)
    (currentFPS : Q) (qualityLevel : option Q) (now prev : Q) : Q :=
  let difference := targetPrice - prev in
  let elapsed :=
    now - (if Qeq_bool (animationStartTime smoothState) 0 then now
           else animationStartTime smoothState) in
  let normalizedProgress := Qmin (elapsed / animationDuration smoothState) 1 in
  let easedValue :=
    Easing.subpixelInterpolate prev targetPrice normalizedProgress
      (easingFunction smoothState) in
  let precise :=
    match qualityLevel with
    | Some quality => Qltb (Qabs difference) (quality * 0.0001)
    | None => false
    end in
  if precise then targetPrice
  else
    let threshold := if Qgtb currentFPS 30 then 0.0001 else 0.001 in
    if Qltb (Qabs difference) threshold then targetPrice else easedValue.

(** [animatePrice] is created by [startSmoothInterpolation], which only
    [startNewGame] calls: like it, it reads the state variables of the first
    render. *)
Definition closure_animatePrice : option Q -> Q -> Q -> Q :=
  animatePrice 1.0 initialSmoothState 60.

(** The price shown after the frames [frames] (the quality level and the
    clock of each) of a round, which starts from [initialPrice]. *)
Definition currentPrice_after (frames : list (option Q * Q)) : Q :=
  fold_left (fun prev frame => closure_animatePrice (fst frame) (snd frame) prev)
            frames initialPrice.

End CandlestickChartView.

(** * Canvas utilities: the dirty rectangle manager *)

Module CanvasUtils.

Record Rectangle : Type := mkRectangle {
  x : Q;
  y : Q;
  width : Q;
  height : Q
}.

(** The manager holds the list of dirty rectangles and its canvas, of which
    only the size is read. *)
Record DirtyRectManager : Type := mkDirtyRectManager {
  dirtyRects : list Rectangle;
  canvas_width : Q;
  canvas_height : Q
}.

Definition rectsOverlap (a b : Rectangle) : bool :=
  negb (Qltb (x a + width a) (x b) || Qltb (x b + width b) (x a)
        || Qltb (y a + height a) (y b) || Qltb (y b + height b) (y a)).

Definition mergeRects (a b : Rectangle) : Rectangle :=
  let x_ := Qmin (x a) (x b) in
  let y_ := Qmin (y a) (y b) in
  let right := Qmax (x a + width a) (x b + width b) in
  let bottom := Qmax (y a + height a) (y b + height b) in
  {| x := x_; y := y_; width := right - x_; height := bottom - y_ |}.

Definition markDirty (rect : Rectangle) (m : DirtyRectManager) : DirtyRectManager :=
  let expandedRect :=
    {| x := Qmax 0 (x rect - 2);
       y := Qmax 0 (y rect - 2);
       width := Qmin (canvas_width m - x rect + 2) (width rect + 4);
       height := Qmin (canvas_height m - y rect + 2) (height rect + 4) |} in
  mkDirtyRectManager (dirtyRects m ++ [expandedRect]) (canvas_width m) (canvas_height m).

(** The inner loop of [getDirtyRects]: [rect] is merged into the first
    rectangle of [merged] it overlaps; [None] when it overlaps none. *)
Fixpoint mergeIntoFirst (rect : Rectangle) (merged : list Rectangle)
  : option (list Rectangle) :=
  match merged with
  | [] => None
  | m :: rest =>
      if rectsOverlap rect m then Some (mergeRects rect m :: rest)
      else match mergeIntoFirst rect rest with
           | Some rest' => Some (m :: rest')
           | None => None
           end
  end.

Definition getDirtyRects (m : DirtyRectManager) : list Rectangle :=
  match dirtyRects m with
  | [] => []
  | _ =>
      fold_left (fun merged rect =>
                   match mergeIntoFirst rect merged with
                   | Some merged' => merged'
                   | None => merged ++ [rect]
                   end)
                (dirtyRects m) []
  end.

(** [clearDirtyRects] returns the rectangles it clears on the context, and
    the manager with no dirty rectangle left. *)
Definition clearDirtyRects (m : DirtyRectManager)
  : list Rectangle * DirtyRectManager :=
  (getDirtyRects m, mkDirtyRectManager [] (canvas_width m) (canvas_height m)).

End CanvasUtils.

(** * lib/performance.ts

    One module per class; every method that reads [performance.now()] takes
    the reading as an argument. *)

Module Performance.

(** A number that can be [Infinity], as the quotient [1000 / 0] is. *)
Inductive Number : Type :=
| Finite (q : Q)
| Infinity.

(** [a < b] and [a > b] for a finite [b]. *)
Definition Number_lt (a : Number) (b : Q) : bool :=
  match a with
  | Finite q => Qltb q b
  | Infinity => false
  end.

Definition Number_gt (a : Number) (b : Q) : bool :=
  match a with
  | Finite q => Qgtb q b
  | Infinity => true
  end.

(** [Math.round]: the nearest integer, halves going up. *)
Definition Math_round (x : Q) : Z := Qfloor (x + 0.5).

(** [l.reduce((a, b) => a + b, 0)] and [l.length] *)
Definition sum (l : list Q) : Q := fold_left Qplus l 0.

Definition size (l : list Q) : Q := inject_Z (Z.of_nat (length l)).

Module FPSMonitor.

Record t : Type := mk {
  frames : list Q;
  lastTime : Q;
  frameCount : Z;
  currentFPS : Number
}.

Definition new (now : Q) : t := mk [] now 0 (Finite 60).

Definition update (now : Q) (m : t) : Number * t :=
  let deltaTime := now - lastTime m in
  let frames := frames m ++ [deltaTime] in
  let frameCount := (frameCount m + 1)%Z in
  let frames := if (60 <? length frames)%nat then tl frames else frames in
  let currentFPS :=
    if (frameCount mod 10 =? 0)%Z then
      let averageFrameTime := sum frames / size frames in
      if Qeq_bool averageFrameTime 0 then Infinity
      else Finite (inject_Z (Math_round (1000 / averageFrameTime)))
    else currentFPS m in
  (currentFPS, mk frames now frameCount currentFPS).

Definition getFPS (m : t) : Number := currentFPS m.

Definition getAverageFrameTime (m : t) : Q :=
  match frames m with
  | [] => 16.67
  | _ => sum (frames m) / size (frames m)
  end.

Definition isPerformanceLow (threshold : Q) (m : t) : bool :=
  Number_lt (currentFPS m) threshold.

End FPSMonitor.

Module PerformanceProfiler.

Record t : Type := mk {
  marks : gmap string Q;
  measurements : gmap string (list Q)
}.

Definition new : t := mk ∅ ∅.

Definition start (name : string) (now : Q) (p : t) : t :=
  mk (<[name := now]> (marks p)) (measurements p).

(** [end(name)]: the duration it returns and the profiler it leaves.  The
    test [!startTime] holds for a missing mark and for a mark of 0. *)
Definition end_ (name : string) (now : Q) (p : t) : Q * t :=
  match marks p !! name with
  | None => (0, p)
  | Some startTime =>
      if Qeq_bool startTime 0 then (0, p)
      else
        let duration := now - startTime in
        let recorded := default [] (measurements p !! name) ++ [duration] in
        let recorded := if (100 <? length recorded)%nat then tl recorded
                        else recorded in
        (duration, mk (delete name (marks p)) (<[name := recorded]> (measurements p)))
  end.

Definition getAverageDuration (name : string) (p : t) : Q :=
  match measurements p !! name with
  | None | Some [] => 0
  | Some recorded => sum recorded / size recorded
  end.

(** The calls a client makes, to state what holds after any sequence of
    them. *)
Inductive Call : Type :=
| Start (name : string) (now : Q)
| End (name : string) (now : Q).

Definition call (p : t) (c : Call) : t :=
  match c with
  | Start name now => start name now p
  | End name now => snd (end_ name now p)
  end.

End PerformanceProfiler.

Module AdaptiveQualityManager.

Record t : Type := mk {
  fpsMonitor : FPSMonitor.t;
  qualityLevel : Q;
  minFPS : Q;
  targetFPS : Q
}.

Definition new (minFPS targetFPS now : Q) : t :=
  mk (FPSMonitor.new now) 1.0 minFPS targetFPS.

(** [new AdaptiveQualityManager()] *)
Definition new_default (now : Q) : t := new 30 60 now.

Definition update (now : Q) (m : t) : Q * t :=
  let '(currentFPS, monitor) := FPSMonitor.update now (fpsMonitor m) in
  let qualityLevel :=
    if Number_lt currentFPS (minFPS m) then Qmax 0.5 (qualityLevel m - 0.1)
    else if Number_gt currentFPS (targetFPS m) && Qltb (qualityLevel m) 1.0
         then Qmin 1.0 (qualityLevel m + 0.05)
         else qualityLevel m in
  (qualityLevel, mk monitor qualityLevel (minFPS m) (targetFPS m)).

Definition getQualityLevel (m : t) : Q := qualityLevel m.

Definition getCurrentFPS (m : t) : Number := FPSMonitor.getFPS (fpsMonitor m).

Record RenderingConfig : Type := mkRenderingConfig {
  enableSubpixelRendering : bool;
  enableLayerSeparation : bool;
  enableDirtyRects : bool;
  candleDetailLevel : Q;
  animationQuality : Q
}.

Definition getRenderingConfig (m : t) : RenderingConfig :=
  {| enableSubpixelRendering := Qgtb (qualityLevel m) 0.8;
     enableLayerSeparation := Qgtb (qualityLevel m) 0.6;
     enableDirtyRects := Qgtb (qualityLevel m) 0.7;
     candleDetailLevel := qualityLevel m;
     animationQuality := qualityLevel m |}.

End AdaptiveQualityManager.

(** The callbacks are named by numbers and kept in insertion order, as the
    [Set] keeps them.  The window's part is explicit: the frame requests
    still pending, the id [requestAnimationFrame] hands out next (ids are
    positive) and, to observe the calls, the log of the callbacks invoked with
    their [deltaTime]. *)
Module AnimationFrameManager.

Record t : Type := mk {
  callbacks : list nat;
  isRunning : bool;
  lastTime : Q;
  rafId : nat;
  pendingFrames : list nat;
  nextFrameId : nat;
  invoked : list (nat * Q)
}.

Definition new (lastFrameId : nat) : t := mk [] false 0 0 [] (S lastFrameId) [].

Definition tick (now : Q) (m : t) : t :=
  if negb (isRunning m) then m
  else
    let deltaTime := now - lastTime m in
    mk (callbacks m) (isRunning m) now (nextFrameId m)
      (pendingFrames m ++ [nextFrameId m]) (S (nextFrameId m))
      (invoked m ++ map (fun callback => (callback, deltaTime)) (callbacks m)).

(** [start()], with the reading of the clock it makes and the one [tick]
    makes. *)
Definition start (now nowTick : Q) (m : t) : t :=
  tick nowTick
    (mk (callbacks m) true now (rafId m) (pendingFrames m) (nextFrameId m)
       (invoked m)).

Definition stop (m : t) : t :=
  if Nat.eqb (rafId m) 0
  then mk (callbacks m) false (lastTime m) (rafId m) (pendingFrames m)
         (nextFrameId m) (invoked m)
  else mk (callbacks m) false (lastTime m) 0
         (List.filter (fun id => negb (Nat.eqb id (rafId m))) (pendingFrames m))
         (nextFrameId m) (invoked m).

Definition addCallback (callback : nat) (now nowTick : Q) (m : t) : t :=
  let m := mk (if existsb (Nat.eqb callback) (callbacks m) then callbacks m
               else callbacks m ++ [callback])
              (isRunning m) (lastTime m) (rafId m) (pendingFrames m)
              (nextFrameId m) (invoked m) in
  if negb (isRunning m) then start now nowTick m else m.

Definition removeCallback (callback : nat) (m : t) : t :=
  let m := mk (List.filter (fun c => negb (Nat.eqb c callback)) (callbacks m))
              (isRunning m) (lastTime m) (rafId m) (pendingFrames m)
              (nextFrameId m) (invoked m) in
  match callbacks m with
  | [] => stop m
  | _ => m
  end.

Definition destroy (m : t) : t :=
  stop (mk [] (isRunning m) (lastTime m) (rafId m) (pendingFrames m)
          (nextFrameId m) (invoked m)).

(** What can happen to a manager: the calls of its clients, and the window
    running a pending frame request. *)
Inductive Event : Type :=
| AddCallback (callback : nat) (now nowTick : Q)
| RemoveCallback (callback : nat)
| Destroy
| Frame (id : nat) (now : Q).

Definition handle (e : Event) (m : t) : option t :=
  match e with
  | AddCallback callback now nowTick => Some (addCallback callback now nowTick m)
  | RemoveCallback callback => Some (removeCallback callback m)
  | Destroy => Some (destroy m)
  | Frame id now =>
      if existsb (Nat.eqb id) (pendingFrames m)
      then Some (tick now
                   (mk (callbacks m) (isRunning m) (lastTime m) (rafId m)
                      (List.filter (fun i => negb (Nat.eqb i id)) (pendingFrames m))
                      (nextFrameId m) (invoked m)))
      else None
  end.

Fixpoint run (es : list Event) (m : t) : option t :=
  match es with
  | [] => Some m
  | e :: es' =>
      match handle e m with
      | Some m' => run es' m'
      | None => None
      end
  end.

End AnimationFrameManager.

End Performance.

(** * Predicates of the statements *)

Import CandlestickChart.
Import Examples.

(** [m] is the largest (smallest) element of [l]. *)
Definition is_max (m : Q) (l : list Q) : Prop :=
  (forall x, In x l -> x <= m) /\ (exists x, In x l /\ x == m).

Definition is_min (m : Q) (l : list Q) : Prop :=
  (forall x, In x l -> m <= x) /\ (exists x, In x l /\ x == m).

(** The candles of [l] are in chronological order. *)
Fixpoint chronological (l : list CandleData) : bool :=
  match l with
  | a :: (b :: _) as l' => (time a <=? time b)%Z && chronological l'
  | _ => true
  end.

(** The invariant of §3: the wicks enclose the body. *)
Definition valid (c : CandleData) : Prop :=
  low c <= Qmin (open c) (close c) /\ Qmax (open c) (close c) <= high c.

(** A valid candle of non-negative prices, as the simulation produces them. *)
Definition sound (c : CandleData) : Prop := valid c /\ 0 <= low c.

(** Every buffer of the simulation holds sound candles and fewer than 30 of
    them. *)
Definition chart_ok (l : list CandleData) : Prop :=
  Forall sound l /\ (length l <= 29)%nat.


(** The same invariant on the candles of the CrashChart component. *)
Definition valid_candle (c : CrashChart.Candle) : Prop :=
  CrashChart.low c <= Qmin (CrashChart.open c) (CrashChart.close c)
  /\ Qmax (CrashChart.open c) (CrashChart.close c) <= CrashChart.high c.

(** The cycle of §4.4: waiting, running, crashed, and waiting again. *)
Inductive cycle_edge : CrashChart.Phase -> CrashChart.Phase -> Prop :=
| cycle_start : cycle_edge CrashChart.waiting CrashChart.running
| cycle_crash : cycle_edge CrashChart.running CrashChart.crashed
| cycle_wait : cycle_edge CrashChart.crashed CrashChart.waiting.

(** The phase changes the code makes: from waiting to running (the first
    start), from running to crashed (a tick), and from crashed to running (the
    restart at the end of the countdown). *)
Inductive phase_edge : CrashChart.Phase -> CrashChart.Phase -> Prop :=
| edge_start : phase_edge CrashChart.waiting CrashChart.running
| edge_crash : phase_edge CrashChart.running CrashChart.crashed
| edge_restart : phase_edge CrashChart.crashed CrashChart.running.

(** Outside the crashed phase no countdown runs and none is scheduled, and
    the mount timeout is pending exactly in the waiting phase. *)
Definition phase_inv (st : CrashChart.State) : Prop :=
  (CrashChart.phase st <> CrashChart.crashed ->
   CrashChart.countdown st = 0%Z /\ CrashChart.countdownTimeouts st = 0%nat)
  /\ (CrashChart.startTimeout st = true <->
      CrashChart.phase st = CrashChart.waiting)
  /\ (CrashChart.countdownTimeouts st <= 1)%nat
  /\ (CrashChart.countdownTimeouts st = 1%nat -> CrashChart.countdown st = 0%Z)
  /\ (0 <= CrashChart.countdown st)%Z.

(** The timers whose callbacks move the game on: the start timeout, the
    candle interval, the crash delay and the countdown interval. *)
Definition driving (t : Timer) : bool :=
  match t with
  | StartTimeout | CandleInterval _ _ | CrashDelayTimeout | CountdownInterval _ => true
  | NoopInterval | FirstCandleTimeout | FadeOutEffect => false
  end.

(** Apart from the no-op intervals of [startNewGame], every live timer of
    [c] is one that [P] admits. *)
Definition only (c : Component) (P : nat -> Timer -> Prop) : Prop :=
  forall i t, timers c !! i = Some t -> t = NoopInterval \/ P i t.

(** The stages of the CandlestickChart component, by its live timers and
    the game state that goes with them: waiting for the start timeout, a
    round before its first candle, a round in progress, the two seconds
    after a crash, and the countdown.  From the crash on the multiplier [m]
    is the price that crossed the crash point [cp]. *)
Inductive stage (c : Component) : Prop :=
| stage_starting (s : nat) :
    timers c !! s = Some StartTimeout ->
    only c (fun i t => i = s /\ t = StartTimeout) ->
    isActive (gameState c) = false ->
    hasCrashed (gameState c) = false ->
    countdown (gameState c) = 0%Z ->
    stage c
| stage_opening (f k : nat) (cp : Q) :
    timers c !! f = Some FirstCandleTimeout ->
    timers c !! k = Some (CandleInterval cp initialPrice) ->
    only c (fun i t => (i = f /\ t = FirstCandleTimeout)
                       \/ (i = k /\ t = CandleInterval cp initialPrice)) ->
    candleIntervalRef c = Some k ->
    chartData c = [] ->
    gameState c = mkCrashGameState true false initialPrice false cp 0 0%Z ->
    stage c
| stage_round (k : nat) (cp v : Q) (latest : CandleData) :
    timers c !! k = Some (CandleInterval cp v) ->
    only c (fun i t => i = k /\ t = CandleInterval cp v) ->
    candleIntervalRef c = Some k ->
    last (chartData c) = Some latest ->
    close latest = v ->
    gameState c = mkCrashGameState true false v false cp 0 0%Z ->
    stage c
| stage_crashed (d : nat) (cp m : Q) :
    timers c !! d = Some CrashDelayTimeout ->
    only c (fun i t => i = d /\ t = CrashDelayTimeout) ->
    crashTriggered cp m = true ->
    gameState c = mkCrashGameState false false m true cp 0 0%Z ->
    stage c
| stage_countdown (j f : nat) (cp m : Q) (n : Z) :
    timers c !! j = Some (CountdownInterval f) ->
    only c (fun i t => (i = j /\ t = CountdownInterval f)
                       \/ (i = f /\ t = FadeOutEffect)) ->
    crashTriggered cp m = true ->
    gameState c = mkCrashGameState false true m true cp 0 n ->
    (1 <= n <= 5)%Z ->
    stage c.

(** The snapshot [updateGameState] sends for a game state. *)
Definition snapshot (g : CrashGameState) : SyncState :=
  {| isGameActive := isActive g;
     currentMultiplier := multiplier g;
     sync_crashPoint := crashPoint g |}.

(** The betting context has received the current game state: its latest
    snapshot is the one of [gameState], and before the first snapshot the
    game state is still the initial one. *)
Definition mirrors (c : Component) : Prop :=
  match bettingSync c with
  | [] => gameState c = mkCrashGameState false false 1.00 false 0 0 0%Z
  | latest :: _ => latest = snapshot (gameState c)
  end.

(** Rectangle [outer] covers rectangle [inner]. *)
Definition covers (outer inner : CanvasUtils.Rectangle) : Prop :=
  CanvasUtils.x outer <= CanvasUtils.x inner
  /\ CanvasUtils.y outer <= CanvasUtils.y inner
  /\ CanvasUtils.x inner + CanvasUtils.width inner
     <= CanvasUtils.x outer + CanvasUtils.width outer
  /\ CanvasUtils.y inner + CanvasUtils.height inner
     <= CanvasUtils.y outer + CanvasUtils.height outer.

(** Every rectangle of [inner] is covered by one of [outer]. *)
Definition all_covered (outer inner : list CanvasUtils.Rectangle) : Prop :=
  forall r, In r inner -> exists m, In m outer /\ covers m r.

(** The quality manager and the frame monitor after the updates made at the
    clock readings [nows]. *)
Definition quality_after (nows : list Q) (m : Performance.AdaptiveQualityManager.t)
  : Performance.AdaptiveQualityManager.t :=
  fold_left (fun m now => snd (Performance.AdaptiveQualityManager.update now m))
            nows m.

Definition monitor_after (nows : list Q) (m : Performance.FPSMonitor.t)
  : Performance.FPSMonitor.t :=
  fold_left (fun m now => snd (Performance.FPSMonitor.update now m)) nows m.

(** [n] readings of a clock that ticks every [d] milliseconds after [now0]. *)
Definition steady_clock (now0 d : Q) (n : nat) : list Q :=
  map (fun i => now0 + inject_Z (Z.of_nat (S i)) * d) (seq 0 n).

(** The profiler after a sequence of calls on a new one. *)
Definition profiler_after (calls : list Performance.PerformanceProfiler.Call)
  : Performance.PerformanceProfiler.t :=
  fold_left Performance.PerformanceProfiler.call calls
            Performance.PerformanceProfiler.new.

(** The animation loop is consistent: it runs exactly while there are
    callbacks, and the window holds exactly one pending frame request, the one
    in [rafId], while it runs and none otherwise. *)
Definition frame_loop_ok (m : Performance.AnimationFrameManager.t) : Prop :=
  (Performance.AnimationFrameManager.isRunning m = true
   <-> Performance.AnimationFrameManager.callbacks m <> [])
  /\ Performance.AnimationFrameManager.pendingFrames m
     = (if Performance.AnimationFrameManager.isRunning m
        then [Performance.AnimationFrameManager.rafId m] else [])
  /\ (Performance.AnimationFrameManager.isRunning m = true ->
      Performance.AnimationFrameManager.rafId m <> 0%nat)
  /\ (0 < Performance.AnimationFrameManager.nextFrameId m)%nat
  /\ List.NoDup (Performance.AnimationFrameManager.callbacks m).

(** An easing curve: it starts at 0, ends at 1 and does not decrease in
    between, so on the unit interval its values lie in the unit interval. *)
Definition easing_curve (f : Easing.EasingFunction) : Prop :=
  f 0 == 0 /\ f 1 == 1
  /\ forall s t, 0 <= s -> s <= t -> t <= 1 -> f s <= f t.

(** The volume traded over the candles of a chart. *)
Definition totalVolume (l : list CandleData) : Z :=
  fold_left (fun sum candle => (sum + volume_or_0 candle)%Z) l 0%Z.

(** The CrashChart component keeps at most 50 candles while a round runs,
    and one more, the crash candle, after the crash; the betting context holds
    the snapshot of the current state. *)
Definition crashchart_ok (st : CrashChart.State) : Prop :=
  (CrashChart.phase st = CrashChart.running ->
   (1 <= length (CrashChart.candles st) <= 50)%nat)
  /\ (length (CrashChart.candles st) <= 51)%nat
  /\ match CrashChart.synced st with
     | [] => CrashChart.phase st = CrashChart.waiting
     | latest :: _ =>
         latest = mkSyncState
                    (match CrashChart.phase st with
                     | CrashChart.running => true
                     | _ => false
                     end)
                    (CrashChart.targetPrice st) (CrashChart.crashPoint st)
     end.

(** [closest] is the result of the search on the candles [seen]: the first
    candle among those nearest to [timestamp], with its time difference. *)
Definition nearest (seen : list CandleData) (timestamp : Z)
    (closest : option (nat * Z)) : Prop :=
  match closest with
  | None => seen = []
  | Some (index, timeDiff) =>
      exists candle,
        nth_error seen index = Some candle
        /\ timeDiff = Z.abs (time candle - timestamp)
        /\ (forall j other, nth_error seen j = Some other ->
                            (timeDiff <= Z.abs (time other - timestamp))%Z)
        /\ (forall j other, (j < index)%nat -> nth_error seen j = Some other ->
                            (timeDiff < Z.abs (time other - timestamp))%Z)
  end.

(** * Properties *)

(** ** Arithmetic helpers *)

Lemma Qltb_lt (x y : Q) : Qltb x y = true <-> x < y.
Proof.
  unfold Qltb. rewrite negb_true_iff.
  destruct (Qle_bool y x) eqn:E.
  - apply Qle_bool_iff in E. split; [discriminate | intros H; lra].
  - split; [intros _ | reflexivity].
    destruct (Qlt_le_dec x y) as [H | H]; [exact H |].
    apply Qle_bool_iff in H. congruence.
Qed.

Lemma Qltb_ge (x y : Q) : Qltb x y = false <-> y <= x.
Proof.
  unfold Qltb. rewrite negb_false_iff. apply Qle_bool_iff.
Qed.

(** Case analysis on the JavaScript comparisons of a goal and its
    hypotheses. *)
Ltac q_compare :=
  repeat match goal with
  | |- context [Qltb ?a ?b] =>
      let E := fresh "E" in
      destruct (Qltb a b) eqn:E;
      [apply Qltb_lt in E | apply Qltb_ge in E]
  | H : context [Qltb ?a ?b] |- _ =>
      let E := fresh "E" in
      destruct (Qltb a b) eqn:E;
      [apply Qltb_lt in E | apply Qltb_ge in E]
  end.

(** Every [Qmax] and [Qmin] becomes a variable characterised by its
    specification, which leaves linear arithmetic. *)
Ltac q_minmax :=
  repeat match goal with
  | |- context [Qmax ?a ?b] =>
      let m := fresh "m" in
      pose proof (Q.max_spec a b); set (m := Qmax a b) in *; clearbody m
  | |- context [Qmin ?a ?b] =>
      let m := fresh "m" in
      pose proof (Q.min_spec a b); set (m := Qmin a b) in *; clearbody m
  | H : context [Qmax ?a ?b] |- _ =>
      let m := fresh "m" in
      pose proof (Q.max_spec a b); set (m := Qmax a b) in *; clearbody m
  | H : context [Qmin ?a ?b] |- _ =>
      let m := fresh "m" in
      pose proof (Q.min_spec a b); set (m := Qmin a b) in *; clearbody m
  end.

(** Case analysis on the comparisons that a computation of the [Rand] monad
    branches on. *)
Ltac q_branches :=
  repeat (match goal with
          | |- context [Qltb ?a ?b] =>
              let E := fresh "E" in
              destruct (Qltb a b) eqn:E;
              [apply Qltb_lt in E | apply Qltb_ge in E]
          end; cbn [fst snd draws cursor] in *).

Import CandlestickChart.

(** ** PriceStepper *)

Lemma generatePriceMovement_floor (p v : Q) (g : RandomSource) :
  0.01 <= fst (generatePriceMovement p v g).
Proof.
  unfold generatePriceMovement, mbind, Rand_bind, mret, Rand_ret, Math_random.
  cbn. destruct (Qltb _ _); cbn; apply Q.le_max_l.
Qed.

(** C4.  [generatePriceMovement] with its default volatility is the stepper of
    §4.2 applied to the draws in the order the source makes them (trend, spike
    gate, spike size only when the gate opens, noise); its result is at least
    0.01, hence neither zero nor negative. *)
Theorem generatePriceMovement_step (previous : Q) (g : RandomSource) :
  let next := fst (generatePriceMovement_default previous g) in
  let gate := Qltb (upcoming g 1) 0.15 in
  next == Spec.step previous (upcoming g 0) (upcoming g 1) (upcoming g 2)
            (upcoming g (if gate then 3 else 2))
  /\ cursor (snd (generatePriceMovement_default previous g))
     = (cursor g + (if gate then 4 else 3))%nat
  /\ 0.01 <= next /\ ~ next == 0 /\ ~ next < 0.
Proof.
  cbv zeta.
  assert (F := generatePriceMovement_floor previous 0.08 g).
  repeat split; try (unfold generatePriceMovement_default; lra).
  - unfold generatePriceMovement_default, generatePriceMovement, Spec.step, upcoming.
    unfold mbind, Rand_bind, mret, Rand_ret, Math_random. cbn.
    replace (cursor g + 1)%nat with (S (cursor g)) by lia.
    replace (cursor g + 0)%nat with (cursor g) by lia.
    destruct (Qltb (draws g (S (cursor g))) 0.15); cbn;
      [replace (cursor g + 3)%nat with (S (S (S (cursor g)))) by lia
      |]; replace (cursor g + 2)%nat with (S (S (cursor g))) by lia; reflexivity.
  - unfold generatePriceMovement_default, generatePriceMovement, upcoming.
    unfold mbind, Rand_bind, mret, Rand_ret, Math_random. cbn.
    replace (cursor g + 1)%nat with (S (cursor g)) by lia.
    destruct (Qltb _ _); cbn; lia.
Qed.

(** ** CrashPointGenerator *)

Ltac rand_unfold :=
  unfold mbind, Rand_bind, mret, Rand_ret, Math_random; cbn [fst snd draws cursor].

(** The guide's generator is the bucket algorithm of §4.1 on the next three
    draws. *)
Lemma guide_generateCrashPoint_spec (g : RandomSource) :
  fst (ImplementationGuide.generateCrashPoint g)
  == Spec.crashPoint (upcoming g 0) (upcoming g 1) (upcoming g 2).
Proof.
  unfold ImplementationGuide.generateCrashPoint, Spec.crashPoint, upcoming.
  rand_unfold.
  replace (cursor g + 0)%nat with (cursor g) by lia.
  replace (cursor g + 1)%nat with (S (cursor g)) by lia.
  replace (cursor g + 2)%nat with (S (S (cursor g))) by lia.
  q_branches; lra.
Qed.

(** Every value of the bucket algorithm lies in [0.01, 25]. *)
Lemma spec_crashPoint_range (u v t : Q) :
  0 <= t < 1 -> 0.01 <= Spec.crashPoint u v t <= 25.
Proof.
  intros Ht. unfold Spec.crashPoint.
  repeat (destruct (Qltb _ _)); lra.
Qed.

(** The component's generator has the same ranges: only the threshold of the
    first draw differs. *)
Lemma generateCrashPoint_range (g : RandomSource) :
  uniform_source g -> 0.01 <= fst (generateCrashPoint g) <= 25.
Proof.
  intros U. unfold generateCrashPoint. rand_unfold.
  pose proof (U (S (S (cursor g)))) as H2.
  repeat (destruct (Qltb _ _); cbn [fst snd draws cursor]); lra.
Qed.

(** The component sends every first draw in [0.30, 0.80) to the sub-1x
    bucket, which the bucket algorithm sends above 1x. *)
Lemma generateCrashPoint_threshold (g : RandomSource) :
  uniform_source g ->
  0.30 <= upcoming g 0 < 0.8 ->
  fst (generateCrashPoint g) < 1
  /\ 1 < Spec.crashPoint (upcoming g 0) (upcoming g 1) (upcoming g 2).
Proof.
  intros U [Hlo Hhi]. unfold upcoming in *.
  replace (cursor g + 0)%nat with (cursor g) in * by lia.
  pose proof (U (S (S (cursor g)))) as H2.
  pose proof (U (cursor g + 2)%nat) as H2'.
  split.
  - unfold generateCrashPoint. rand_unfold.
    apply Qltb_lt in Hhi. rewrite Hhi.
    repeat (destruct (Qltb _ _); cbn [fst snd draws cursor]); lra.
  - unfold Spec.crashPoint.
    apply Qltb_ge in Hlo. rewrite Hlo.
    repeat (destruct (Qltb _ _)); lra.
Qed.

(** C2.  At the draws 0.5, 0.5, 0.5 the component's [generateCrashPoint]
    returns the sub-1x value 0.745, where the two-level bucket algorithm with
    its 0.30 threshold (the guide's copy of the function, and §4.1) returns the
    above-1x value 3.5. *)
Theorem generateCrashPoint_at_half :
  fst (generateCrashPoint (scripted [0.5; 0.5; 0.5])) == 0.745
  /\ fst (ImplementationGuide.generateCrashPoint (scripted [0.5; 0.5; 0.5])) == 3.5
  /\ Spec.crashPoint 0.5 0.5 0.5 == 3.5.
Proof. repeat split; vm_compute; reflexivity. Qed.

(** ** aggregateCandles *)

Lemma insertByTime_perm (c : CandleData) (l : list CandleData) :
  Permutation (insertByTime c l) (c :: l).
Proof.
  induction l as [| d l IH]; cbn.
  - reflexivity.
  - destruct (time c <=? time d)%Z.
    + reflexivity.
    + rewrite IH. apply perm_swap.
Qed.

Lemma sortByTime_perm (l : list CandleData) : Permutation (sortByTime l) l.
Proof.
  induction l as [| c l IH]; cbn.
  - reflexivity.
  - rewrite insertByTime_perm. now apply perm_skip.
Qed.

Lemma sortByTime_chronological (l : list CandleData) :
  chronological l = true -> sortByTime l = l.
Proof.
  induction l as [| a l IH]; [reflexivity |].
  destruct l as [| b l']; [reflexivity |].
  intros H. change (chronological (a :: b :: l'))
    with ((time a <=? time b)%Z && chronological (b :: l')) in H.
  apply andb_true_iff in H as [Hab Hl].
  change (sortByTime (a :: b :: l')) with (insertByTime a (sortByTime (b :: l'))).
  rewrite (IH Hl). cbn. now rewrite Hab.
Qed.

Lemma sortByTime_three (c1 c2 c3 : CandleData) :
  exists first mid final,
    sortByTime [c1; c2; c3] = [first; mid; final]
    /\ Permutation [first; mid; final] [c1; c2; c3].
Proof.
  pose proof (sortByTime_perm [c1; c2; c3]) as P.
  pose proof (Permutation_length P) as L.
  destruct (sortByTime [c1; c2; c3]) as [| a [| b [| c [| ? ?]]]]; try discriminate.
  now exists a, b, c.
Qed.

(** C10.  [aggregateCandles] throws on the empty list, returns the only candle
    of a one-element list as it is, and returns normally on every longer
    list. *)
Theorem aggregateCandles_cases :
  aggregateCandles [] = Throw "Cannot aggregate empty candle array"
  /\ (forall c, aggregateCandles [c] = Ok c)
  /\ (forall candles, (2 <= length candles)%nat ->
        exists merged, aggregateCandles candles = Ok merged).
Proof.
  split; [reflexivity |]. split; [reflexivity |].
  intros [| c [| d l]] H; cbn [length] in H; try lia.
  eexists. unfold aggregateCandles. reflexivity.
Qed.

(** ** Compaction *)

Lemma fold_left_Qmax_spec (xs : list Q) (x : Q) :
  is_max (fold_left Qmax xs x) (x :: xs).
Proof.
  revert x. induction xs as [| y xs IH]; intros x; cbn [fold_left].
  - split.
    + intros z [<- | []]. lra.
    + exists x. split; [now left | reflexivity].
  - destruct (IH (Qmax x y)) as [Hub [z [Hz Ez]]]. split.
    + intros w [<- | [<- | Hw]].
      * apply Qle_trans with (Qmax x y); [apply Q.le_max_l | apply Hub; now left].
      * apply Qle_trans with (Qmax x y); [apply Q.le_max_r | apply Hub; now left].
      * apply Hub. now right.
    + destruct Hz as [<- | Hz].
      * destruct (Q.max_spec x y) as [[_ E] | [_ E]].
        -- exists y. split; [right; now left | lra].
        -- exists x. split; [now left | lra].
      * exists z. split; [right; now right | exact Ez].
Qed.

Lemma fold_left_Qmin_spec (xs : list Q) (x : Q) :
  is_min (fold_left Qmin xs x) (x :: xs).
Proof.
  revert x. induction xs as [| y xs IH]; intros x; cbn [fold_left].
  - split.
    + intros z [<- | []]. lra.
    + exists x. split; [now left | reflexivity].
  - destruct (IH (Qmin x y)) as [Hlb [z [Hz Ez]]]. split.
    + intros w [<- | [<- | Hw]].
      * apply Qle_trans with (Qmin x y); [apply Hlb; now left | apply Q.le_min_l].
      * apply Qle_trans with (Qmin x y); [apply Hlb; now left | apply Q.le_min_r].
      * apply Hlb. now right.
    + destruct Hz as [<- | Hz].
      * destruct (Q.min_spec x y) as [[_ E] | [_ E]].
        -- exists x. split; [now left | lra].
        -- exists y. split; [right; now left | lra].
      * exists z. split; [right; now right | exact Ez].
Qed.

Lemma is_max_perm (m : Q) (l l' : list Q) :
  Permutation l l' -> is_max m l -> is_max m l'.
Proof.
  intros P [Hub [x [Hx Ex]]]. split.
  - intros y Hy. apply Hub. eapply Permutation_in; [symmetry; exact P | exact Hy].
  - exists x. split; [eapply Permutation_in; eauto | exact Ex].
Qed.

Lemma is_min_perm (m : Q) (l l' : list Q) :
  Permutation l l' -> is_min m l -> is_min m l'.
Proof.
  intros P [Hlb [x [Hx Ex]]]. split.
  - intros y Hy. apply Hlb. eapply Permutation_in; [symmetry; exact P | exact Hy].
  - exists x. split; [eapply Permutation_in; eauto | exact Ex].
Qed.

(** What [aggregateCandles] returns on three candles, in terms of their
    chronological order [first], [mid], [final]. *)
Lemma aggregateCandles_three (c1 c2 c3 : CandleData) :
  exists merged first mid final,
    aggregateCandles [c1; c2; c3] = Ok merged
    /\ sortByTime [c1; c2; c3] = [first; mid; final]
    /\ Permutation [first; mid; final] [c1; c2; c3]
    /\ open merged = open first
    /\ close merged = close final
    /\ time merged = time first
    /\ high merged
       = Qmin (Qmax (Qmax (high first) (high mid)) (high final))
              (Qmax (open first) (close final)
               + maxWickExtension (Qmax (open first) (close final)
                                   - Qmin (open first) (close final))
                                  ((open first + close final) / 2))
    /\ low merged
       = Qmax (Qmin (Qmin (low first) (low mid)) (low final))
              (Qmin (open first) (close final)
               - maxWickExtension (Qmax (open first) (close final)
                                   - Qmin (open first) (close final))
                                  ((open first + close final) / 2)).
Proof.
  destruct (sortByTime_three c1 c2 c3) as (first & mid & final & S3 & P).
  unfold aggregateCandles. rewrite S3.
  eexists _, first, mid, final.
  split; [reflexivity |]. repeat split; assumption || reflexivity.
Qed.

(** C3.  On a buffer of at least 30 candles, compaction replaces the three
    oldest candles by one merged candle and keeps the rest, so the length
    drops by exactly 2.  With [first] and [final] the chronologically first
    and last of the three sources (the first and third of the buffer when the
    three are in chronological order), the merged candle has the open and
    start time of [first], the close of [final], and its high and low are the
    largest source high and the smallest source low cut back to the body
    extended by the wick bound of §4.3; in particular whenever the largest
    source high exceeds that bound the merged high is strictly below it (and
    symmetrically for the low): the plain max/min merge is not what is
    computed. *)
Theorem performCandleAggregation_merge (chartData : list CandleData) :
  (30 <= length chartData)%nat ->
  exists merged first mid final rawHigh rawLow,
    performCandleAggregation chartData = Ok (merged :: skipn 3 chartData)
    /\ (length (merged :: skipn 3 chartData) + 2 = length chartData)%nat
    /\ sortByTime (firstn 3 chartData) = [first; mid; final]
    /\ (chronological (firstn 3 chartData) = true ->
        firstn 3 chartData = [first; mid; final])
    /\ open merged = open first
    /\ close merged = close final
    /\ time merged = time first
    /\ is_max rawHigh (map high (firstn 3 chartData))
    /\ is_min rawLow (map low (firstn 3 chartData))
    /\ high merged
       == Qmin rawHigh (Qmax (open merged) (close merged)
                        + Spec.maxExt (open merged) (close merged))
    /\ low merged
       == Qmax rawLow (Qmin (open merged) (close merged)
                       - Spec.maxExt (open merged) (close merged))
    /\ (Qmax (open merged) (close merged) + Spec.maxExt (open merged) (close merged)
        < rawHigh -> high merged < rawHigh)
    /\ (rawLow < Qmin (open merged) (close merged)
                 - Spec.maxExt (open merged) (close merged) ->
        rawLow < low merged).
Proof.
  intros Hlen.
  destruct chartData as [| c1 [| c2 [| c3 rest]]]; cbn [length] in Hlen; try lia.
  destruct (aggregateCandles_three c1 c2 c3)
    as (merged & first & mid & final & Hagg & S3 & P & Ho & Hc & Ht & Hh & Hl).
  exists merged, first, mid, final,
    (Qmax (Qmax (high first) (high mid)) (high final)),
    (Qmin (Qmin (low first) (low mid)) (low final)).
  assert (Hperf : performCandleAggregation (c1 :: c2 :: c3 :: rest)
                  = Ok (merged :: skipn 3 (c1 :: c2 :: c3 :: rest))).
  { unfold performCandleAggregation.
    destruct (Nat.ltb_spec (length (c1 :: c2 :: c3 :: rest)) 30) as [H | _];
      [cbn [length] in H; lia |].
    change (firstn 3 (c1 :: c2 :: c3 :: rest)) with [c1; c2; c3].
    rewrite Hagg. reflexivity. }
  assert (Hmax : is_max (Qmax (Qmax (high first) (high mid)) (high final))
                   (map high [c1; c2; c3])).
  { apply is_max_perm with (l := map high [first; mid; final]).
    - now apply Permutation_map.
    - exact (fold_left_Qmax_spec [high mid; high final] (high first)). }
  assert (Hmin : is_min (Qmin (Qmin (low first) (low mid)) (low final))
                   (map low [c1; c2; c3])).
  { apply is_min_perm with (l := map low [first; mid; final]).
    - now apply Permutation_map.
    - exact (fold_left_Qmin_spec [low mid; low final] (low first)). }
  assert (Hext : Spec.maxExt (open merged) (close merged)
                 = maxWickExtension
                     (Qmax (open first) (close final) - Qmin (open first) (close final))
                     ((open first + close final) / 2)).
  { rewrite Ho, Hc. reflexivity. }
  change (firstn 3 (c1 :: c2 :: c3 :: rest)) with [c1; c2; c3].
  split; [exact Hperf |].
  split; [change (skipn 3 (c1 :: c2 :: c3 :: rest)) with rest; cbn [length]; lia |].
  split; [exact S3 |].
  split; [intros Hchr; rewrite <- S3; symmetry; now apply sortByTime_chronological |].
  split; [exact Ho |]. split; [exact Hc |]. split; [exact Ht |].
  split; [exact Hmax |]. split; [exact Hmin |].
  rewrite Hext, Hh, Hl, Ho, Hc.
  repeat split; try reflexivity; intros; q_minmax; lra.
Qed.

(** ** The candle invariant *)

Lemma sound_valid (c : CandleData) : sound c -> valid c.
Proof. now intros [H _]. Qed.

(** Opening: a candle whose four prices are equal. *)
Lemma flat_valid (v : Q) (t : Z) (vol : option Z) :
  valid (mkCandleData v v v v t vol).
Proof. unfold valid; cbn. q_minmax; lra. Qed.

Lemma flat_sound (v : Q) (t : Z) (vol : option Z) :
  0 <= v -> sound (mkCandleData v v v v t vol).
Proof. intros H. split; [apply flat_valid | exact H]. Qed.

(** Folding a new value into a candle (also its finalization). *)
Lemma foldCandle_valid (c : CandleData) (v : Q) :
  valid c -> valid (foldCandle c v).
Proof. unfold valid, foldCandle; cbn. intros [Hl Hh]. q_minmax; lra. Qed.

Lemma foldCandle_sound (c : CandleData) (v : Q) :
  0 <= v -> sound c -> sound (foldCandle c v).
Proof.
  intros Hv [Hc Hl]. split; [now apply foldCandle_valid |].
  unfold foldCandle; cbn. q_minmax; lra.
Qed.

(** The crash candle drops from the last price to zero. *)
Lemma crashCandle_sound (lastPrice : Q) (t : Z) (vol : option Z) :
  0 <= lastPrice -> sound (mkCandleData lastPrice lastPrice 0 0 t vol).
Proof. intros H. unfold sound, valid; cbn. q_minmax; lra. Qed.

Lemma Qhalf_nonneg (a b : Q) : 0 <= a + b -> 0 <= (a + b) / 2.
Proof. intros H. apply Qmult_le_0_compat; [exact H | discriminate]. Qed.

Lemma maxWickExtension_nonneg (bodyRange priceLevel : Q) :
  0 <= priceLevel -> 0 <= maxWickExtension bodyRange priceLevel.
Proof.
  intros H. unfold maxWickExtension, Qgtb. q_compare; q_minmax; lra.
Qed.

Lemma hd_In_nonempty {A : Type} (d : A) (l : list A) :
  l <> [] -> In (List.hd d l) l.
Proof. destruct l; [congruence | now left]. Qed.

Lemma last_In_nonempty {A : Type} (d : A) (l : list A) :
  l <> [] -> In (List.last l d) l.
Proof.
  induction l as [| a l IH]; [congruence |]. intros _.
  destruct l as [| b l']; [now left |].
  right. apply IH. discriminate.
Qed.

Lemma Math_max_list_spec (d : Q) (l : list Q) :
  l <> [] -> is_max (Math_max_list d l) l.
Proof. destruct l; [congruence |]. intros _. apply fold_left_Qmax_spec. Qed.

Lemma Math_min_list_spec (d : Q) (l : list Q) :
  l <> [] -> is_min (Math_min_list d l) l.
Proof. destruct l; [congruence |]. intros _. apply fold_left_Qmin_spec. Qed.

(** Compaction of sound candles gives a sound candle, whatever their number
    and order. *)
Lemma aggregateCandles_sound (candles : list CandleData) (merged : CandleData) :
  Forall sound candles -> aggregateCandles candles = Ok merged -> sound merged.
Proof.
  intros Hall Hagg.
  destruct candles as [| c [| c' rest]]; [discriminate | |].
  - injection Hagg as <-. now inversion Hall.
  - unfold aggregateCandles in Hagg.
    set (l := c :: c' :: rest) in *.
    assert (Hne : sortByTime l <> []).
    { intros E. pose proof (Permutation_length (sortByTime_perm l)) as L.
      rewrite E in L. discriminate. }
    assert (Hs : forall x, In x (sortByTime l) -> sound x).
    { intros x Hx. apply (proj1 (List.Forall_forall sound l) Hall).
      eapply Permutation_in; [apply sortByTime_perm | exact Hx]. }
    pose proof (Hs _ (hd_In_nonempty c _ Hne)) as [[Hfl Hfh] Hf0].
    pose proof (Hs _ (last_In_nonempty c _ Hne)) as [[Hll Hlh] Hl0].
    assert (Hneh : map high (sortByTime l) <> [])
      by (destruct (sortByTime l); [congruence | discriminate]).
    assert (Hnel : map low (sortByTime l) <> [])
      by (destruct (sortByTime l); [congruence | discriminate]).
    destruct (Math_max_list_spec (high (List.hd c (sortByTime l))) _ Hneh)
      as [Hub _].
    destruct (Math_min_list_spec (low (List.hd c (sortByTime l))) _ Hnel)
      as [Hlb [m [Hm Em]]].
    pose proof (Hub _ (in_map high _ _ (hd_In_nonempty c _ Hne))) as Hub1.
    pose proof (Hub _ (in_map high _ _ (last_In_nonempty c _ Hne))) as Hub2.
    pose proof (Hlb _ (in_map low _ _ (hd_In_nonempty c _ Hne))) as Hlb1.
    pose proof (Hlb _ (in_map low _ _ (last_In_nonempty c _ Hne))) as Hlb2.
    assert (Hm0 : 0 <= m).
    { apply in_map_iff in Hm as [x [<- Hx]]. apply (Hs x Hx). }
    set (first := List.hd c (sortByTime l)) in *.
    set (final := List.last (sortByTime l) c) in *.
    set (maxHigh := Math_max_list (high first) (map high (sortByTime l))) in *.
    set (minLow := Math_min_list (low first) (map low (sortByTime l))) in *.
    assert (Hext : 0 <= maxWickExtension
                          (Qmax (open first) (close final)
                           - Qmin (open first) (close final))
                          ((open first + close final) / 2)).
    { apply maxWickExtension_nonneg. apply Qhalf_nonneg.
      clear - Hfl Hf0 Hll Hl0. q_minmax. lra. }
    injection Hagg as <-.
    unfold sound, valid; cbn [open close high low].
    set (ext := maxWickExtension _ _) in *. clearbody ext maxHigh minLow.
    q_minmax. lra.
Qed.

(** Non-negative prices are what makes the wick bound non-negative: three
    flat candles at -1 are valid, and their merged candle, with high -1.001,
    is not.  No chart of a round holds such candles. *)
Remark aggregateCandles_negative_prices :
  let c := mkCandleData (-1) (-1) (-1) (-1) 0 None in
  valid c
  /\ exists merged,
       aggregateCandles [c; c; c] = Ok merged /\ high merged < open merged.
Proof.
  cbv zeta. split.
  - apply flat_valid.
  - eexists. split; [reflexivity |]. vm_compute. reflexivity.
Qed.

Lemma performCandleAggregation_sound (chartData updated : list CandleData) :
  Forall sound chartData ->
  performCandleAggregation chartData = Ok updated ->
  Forall sound updated.
Proof.
  unfold performCandleAggregation. intros Hall.
  destruct (length chartData <? 30)%nat.
  - now intros [= <-].
  - destruct (aggregateCandles (firstn 3 chartData)) as [m |] eqn:E;
      cbn [result_bind]; [| discriminate].
    intros [= <-]. constructor.
    + eapply aggregateCandles_sound; [| exact E]. now apply Forall_take.
    + now apply Forall_drop.
Qed.

Lemma performCandleAggregation_length (chartData updated : list CandleData) :
  performCandleAggregation chartData = Ok updated ->
  (length chartData < 30 /\ updated = chartData
   \/ 30 <= length chartData /\ length updated + 2 = length chartData)%nat.
Proof.
  unfold performCandleAggregation.
  destruct (Nat.ltb_spec (length chartData) 30) as [H | H].
  - intros [= <-]. now left.
  - destruct (aggregateCandles (firstn 3 chartData)) as [m |];
      cbn [result_bind]; [| discriminate].
    intros [= <-]. right. split; [exact H |].
    cbn [length]. rewrite length_skipn. lia.
Qed.

(** ** The candle buffer of a round *)

(** Case analysis on the results of the random computations of a goal. *)
Ltac destruct_draws :=
  repeat (cbv beta iota zeta in *;
          match goal with
          | |- context [match ?x with (_, _) => _ end] =>
              lazymatch x with
              | (_, _) => fail
              | context [match _ with (_, _) => _ end] => fail
              | _ => let E := fresh "Edraw" in destruct x eqn:E
              end
          | H : context [match ?x with (_, _) => _ end] |- _ =>
              lazymatch x with
              | (_, _) => fail
              | context [match _ with (_, _) => _ end] => fail
              | _ => let E := fresh "Edraw" in destruct x eqn:E
              end
          end);
  cbv beta iota zeta in *.

Ltac component_simpl :=
  cbn [gameState chartData targetPrice bettingSync candleIntervalRef timers
       nextTimerId random with_gameState with_chartData with_targetPrice
       with_bettingSync with_candleIntervalRef with_timers with_nextTimerId
       with_random updateGameState setTimer clearInterval fst snd] in *.

Lemma startNewGame_chartData (c : Component) : chartData (startNewGame c) = [].
Proof.
  unfold startNewGame, draw. component_simpl. destruct_draws. reflexivity.
Qed.

Lemma chart_ok_snoc (l : list CandleData) (x y : CandleData) :
  l <> [] -> chart_ok l -> sound y -> chart_ok (removelast l ++ [y]).
Proof.
  intros Hne [Hall Hlen] Hy.
  destruct (exists_last Hne) as (l' & z & ->).
  rewrite removelast_last. split.
  - apply Forall_app. split; [| now constructor].
    apply Forall_app in Hall. tauto.
  - rewrite length_app in *. cbn [length] in *. lia.
Qed.

Lemma slice_last_sound (n : nat) (l : list CandleData) :
  Forall sound l -> Forall sound (slice_last n l).
Proof. intros H. unfold slice_last. now apply Forall_drop. Qed.

Lemma slice_last_length {A : Type} (n : nat) (l : list A) :
  (length (slice_last n l) <= length l)%nat.
Proof. unfold slice_last. rewrite length_skipn. lia. Qed.

(** Appending two sound candles to all but the last of a buffer and then
    compacting keeps the buffer in bounds. *)
Lemma append_compact_ok (l updated : list CandleData) (x y : CandleData) :
  chart_ok l -> sound x -> sound y ->
  performCandleAggregation (removelast l ++ [x; y]) = Ok updated ->
  chart_ok updated.
Proof.
  intros [Hall Hlen] Hx Hy Hagg.
  assert (Hall' : Forall sound (removelast l ++ [x; y])).
  { apply Forall_app. split;
      [| apply List.Forall_cons; [exact Hx |];
         apply List.Forall_cons; [exact Hy | apply List.Forall_nil]].
    destruct l as [| a l] using rev_ind; [apply List.Forall_nil |].
    rewrite removelast_last. apply Forall_app in Hall. tauto. }
  assert (Hlen' : (length (removelast l ++ [x; y]) <= 30)%nat).
  { destruct l as [| a l] using rev_ind; [cbn; lia |].
    rewrite removelast_last. rewrite !length_app in *. cbn [length] in *. lia. }
  split.
  - eapply performCandleAggregation_sound; eassumption.
  - destruct (performCandleAggregation_length _ _ Hagg) as [[H ->] | [H1 H2]]; lia.
Qed.

Lemma updateChart_ok (v : Q) (t : Z) (c c' : Component) :
  0 <= v -> chart_ok (chartData c) ->
  updateChart v t c = Ok c' -> chart_ok (chartData c').
Proof.
  intros Hv Hok. unfold updateChart.
  destruct (last (chartData c)) as [lastCandle |] eqn:EL; [| discriminate].
  assert (Hne : chartData c <> []) by (intros E; rewrite E in EL; discriminate).
  assert (Hlast : sound lastCandle).
  { destruct Hok as [Hall _]. apply last_Some in EL as [l' E]. rewrite E in Hall.
    apply Forall_app in Hall as [_ Hall]. now inversion Hall. }
  destruct (_ >=? _)%Z.
  - unfold draw. destruct_draws.
    destruct (performCandleAggregation _) as [updated |] eqn:Eagg;
      cbn [result_bind]; [| discriminate].
    intros [= <-]. component_simpl.
    apply append_compact_ok in Eagg;
      [| exact Hok | now apply foldCandle_sound | now apply flat_sound].
    destruct Eagg as [Hall Hlen]. split.
    + now apply slice_last_sound.
    + pose proof (slice_last_length 100 updated). lia.
  - intros [= <-]. component_simpl.
    apply chart_ok_snoc; [exact lastCandle | exact Hne | exact Hok |].
    now apply foldCandle_sound.
Qed.

(** The crash branch taken apart: the state [c0] that the callback leaves,
    with the crash update applied; the tick's chart updater run on it; the
    crash updater run on the chart that results. *)
Lemma crashRound_inv (cp v : Q) (t t1 t2 : Z) (c c' : Component) :
  crashRound cp v t t1 t2 c = Ok c' ->
  exists (c0 c1 : Component) (vol1 vol2 : Z),
    (chartData c0 = chartData c
     /\ targetPrice c0 = targetPrice c
     /\ candleIntervalRef c0 = None
     /\ nextTimerId c0 = S (nextTimerId c))
    /\ gameState c0
       = mkCrashGameState false false cp true cp
           (timeElapsed (gameState c)) (countdown (gameState c))
    /\ bettingSync c0 = mkSyncState false cp cp :: bettingSync c
    /\ timers c0
       = <[nextTimerId c := CrashDelayTimeout]>
           (match candleIntervalRef c with
            | Some id => delete id (timers c)
            | None => timers c
            end)
    /\ updateChart v t c0 = Ok c1
    /\ performCandleAggregation
         (removelast (chartData c1)
          ++ [mkCandleData v v v v t1 (Some vol1);
              mkCandleData v v 0 0 (t2 + 100)%Z (Some vol2)])
       = Ok (chartData c')
    /\ c' = with_chartData (chartData c') c1.
Proof.
  unfold crashRound, closure_chartData, draw. cbn [last].
  destruct (candleIntervalRef c) eqn:Er; component_simpl; destruct_draws;
    component_simpl.
  all: match goal with
       | |- result_bind (updateChart ?a ?b ?s) _ = _ -> _ =>
           destruct (updateChart a b s) as [c1 |] eqn:E1;
           cbn [result_bind]; [| discriminate];
           destruct (performCandleAggregation _) as [updated |] eqn:Eagg;
           cbn [result_bind]; [| discriminate];
           intros [= <-]; exists s, c1
       end.
  all: do 2 eexists; component_simpl; rewrite ?Er.
  all: split; [repeat split |].
  all: split; [reflexivity |].
  all: split; [reflexivity |].
  all: split; [reflexivity |].
  all: split; [exact E1 |].
  all: split; [exact Eagg | reflexivity].
Qed.

Lemma crashRound_ok (cp v : Q) (t t1 t2 : Z) (c c' : Component) :
  0 <= v -> chart_ok (chartData c) ->
  crashRound cp v t t1 t2 c = Ok c' -> chart_ok (chartData c').
Proof.
  intros Hv Hok H.
  apply crashRound_inv in H
    as (c0 & c1 & vol1 & vol2 & (Ec & _) & _ & _ & _ & E1 & Eagg & _).
  apply updateChart_ok in E1; [| exact Hv | now rewrite Ec].
  eapply append_compact_ok; [exact E1 | | | exact Eagg];
    [now apply flat_sound | now apply crashCandle_sound].
Qed.

Lemma candleTick_ok (id : nat) (cp v : Q) (t t1 t2 : Z) (c c' : Component) :
  chart_ok (chartData c) ->
  candleTick id cp v t t1 t2 c = Ok c' -> chart_ok (chartData c').
Proof.
  intros Hok. unfold candleTick, draw.
  pose proof (generatePriceMovement_floor v 0.08 (random c)) as Hfloor.
  unfold generatePriceMovement_default.
  destruct (generatePriceMovement v 0.08 (random c)) as [v' g'].
  cbn [fst] in Hfloor.
  destruct (crashTriggered cp v').
  - intros E2. apply crashRound_ok in E2; [exact E2 | lra | exact Hok].
  - intros E1. apply updateChart_ok in E1; [exact E1 | lra | exact Hok].
Qed.

Lemma fadeOut_ok (id : nat) (c : Component) :
  chart_ok (chartData c) -> chart_ok (chartData (fadeOut id c)).
Proof.
  intros [Hall Hlen]. unfold fadeOut.
  destruct (chartData c) as [| a l] eqn:E; component_simpl.
  - split; [constructor | cbn; lia].
  - destruct (exists_last (l := a :: l)) as (l' & z & E'); [discriminate |].
    rewrite E' in *. rewrite removelast_last. split.
    + apply Forall_app in Hall. tauto.
    + rewrite length_app in Hlen. cbn [length] in Hlen. lia.
Qed.

Lemma callback_ok (id : nat) (t : Timer) (k : Clock) (c c' : Component) :
  chart_ok (chartData c) ->
  callback id t k c = Ok c' -> chart_ok (chartData c').
Proof.
  intros Hok. destruct t; cbn [callback].
  - intros [= <-]. rewrite startNewGame_chartData. split; [constructor | cbn; lia].
  - now intros [= <-].
  - intros [= <-]. unfold firstCandleTimeout, draw. destruct_draws. component_simpl.
    split; [| cbn; lia]. constructor; [| constructor].
    apply flat_sound. unfold initialPrice. lra.
  - apply candleTick_ok. exact Hok.
  - intros [= <-]. unfold crashDelayTimeout. component_simpl. exact Hok.
  - intros [= <-]. now apply fadeOut_ok.
  - intros [= <-]. unfold countdownTick.
    destruct (_ <=? _)%Z; component_simpl; exact Hok.
Qed.

Lemma reachable_chart_ok (c : Component) :
  reachable c -> chart_ok (chartData c).
Proof.
  induction 1 as [firstId g | c c' _ IH Hstep].
  - split; [constructor | cbn; lia].
  - destruct Hstep as [id t k c c' _ Hcb]. eapply callback_ok; eassumption.
Qed.

Lemma run_reachable (script : list (nat * Clock)) (c c' : Component) :
  reachable c -> run script c = Some c' -> reachable c'.
Proof.
  revert c. induction script as [| [id k] rest IH]; intros c Hc; cbn [run].
  - now intros [= <-].
  - destruct (timers c !! id) as [t |] eqn:Et; [| discriminate].
    destruct (callback id t k c) as [c1 |] eqn:Ecb; [| discriminate].
    apply IH. eapply reachable_step; [exact Hc |].
    eapply step_fire; eassumption.
Qed.

(** ** The timers of a round *)

Lemma clear_all_timers (ids : list nat) (c : Component) :
  fold_left (fun c i => clearInterval i c) ids c
  = with_timers (fold_left (fun m i => delete i m) ids (timers c)) c.
Proof.
  revert c. induction ids as [| i ids IH]; intros c; cbn [fold_left].
  - now destruct c.
  - rewrite IH. reflexivity.
Qed.

Lemma lookup_delete_all (ids : list nat) (m : gmap nat Timer) (id : nat) (t : Timer) :
  fold_left (fun m i => delete i m) ids m !! id = Some t -> m !! id = Some t.
Proof.
  revert m. induction ids as [| i ids IH]; intros m; cbn [fold_left].
  - trivial.
  - intros H. apply IH in H. apply lookup_delete_Some in H. tauto.
Qed.


Lemma updateChart_frame (v : Q) (t : Z) (c c' : Component) :
  updateChart v t c = Ok c' ->
  timers c' = timers c
  /\ candleIntervalRef c' = candleIntervalRef c
  /\ nextTimerId c' = nextTimerId c
  /\ gameState c' = setMultiplier v (gameState c)
  /\ bettingSync c'
     = mkSyncState (isActive (gameState c)) v (crashPoint (gameState c))
       :: bettingSync c.
Proof.
  unfold updateChart, draw.
  destruct (last (chartData c)); [| discriminate].
  destruct (_ >=? _)%Z.
  - destruct_draws.
    destruct (performCandleAggregation _); cbn [result_bind]; [| discriminate].
    intros [= <-]. component_simpl. repeat split; reflexivity.
  - intros [= <-]. component_simpl. repeat split; reflexivity.
Qed.

(** After a crash tick the multiplier is the price that crossed the crash
    point, and two snapshots have gone out: first the crash point, then that
    price. *)
Lemma crashRound_frame (cp v : Q) (t t1 t2 : Z) (c c' : Component) :
  crashRound cp v t t1 t2 c = Ok c' ->
  candleIntervalRef c' = None
  /\ gameState c'
     = mkCrashGameState false false v true cp
         (timeElapsed (gameState c)) (countdown (gameState c))
  /\ bettingSync c'
     = mkSyncState false v cp :: mkSyncState false cp cp :: bettingSync c
  /\ timers c'
     = <[nextTimerId c := CrashDelayTimeout]>
         (match candleIntervalRef c with
          | Some id => delete id (timers c)
          | None => timers c
          end)
  /\ nextTimerId c' = S (nextTimerId c).
Proof.
  intros H.
  apply crashRound_inv in H
    as (c0 & c1 & vol1 & vol2 & (_ & _ & Er0 & En0) & Eg0 & Eb0 & Et0 & E1 & _ & ->).
  apply updateChart_frame in E1 as (Et & Er & En & Eg & Eb).
  component_simpl. rewrite Er, Eg, Eb, Et, En, Er0, Eg0, Eb0, Et0, En0.
  repeat split.
Qed.




(** ** RenderInterpolator *)

(** Case analysis on the absolute values of a goal and its hypotheses. *)
Ltac q_abs :=
  repeat match goal with
  | H : context [Qabs ?x] |- _ => revert H
  end;
  repeat match goal with
  | |- context [Qabs ?x] => pattern (Qabs x); apply Qabs_case; intros
  end.

Lemma interpolateDisplayPrice_snap (target prev : Q) :
  Qabs (target - prev) < 0.0001 ->
  CrashChart.interpolateDisplayPrice target prev = target.
Proof.
  intros H. unfold CrashChart.interpolateDisplayPrice. cbv zeta.
  apply Qltb_lt in H. now rewrite H.
Qed.

Lemma interpolateDisplayPrice_move (target prev : Q) :
  0.0001 <= Qabs (target - prev) ->
  CrashChart.interpolateDisplayPrice target prev = prev + (target - prev) * 0.15.
Proof.
  intros H. unfold CrashChart.interpolateDisplayPrice. cbv zeta.
  apply Qltb_ge in H. now rewrite H.
Qed.

Lemma interpolateDisplayPrice_cases (target prev : Q) :
  (Qabs (target - prev) < 0.0001
   /\ CrashChart.interpolateDisplayPrice target prev = target)
  \/ (0.0001 <= Qabs (target - prev)
      /\ CrashChart.interpolateDisplayPrice target prev
         = prev + (target - prev) * 0.15).
Proof.
  destruct (Qlt_le_dec (Qabs (target - prev)) 0.0001) as [H | H].
  - left. split; [exact H | now apply interpolateDisplayPrice_snap].
  - right. split; [exact H | now apply interpolateDisplayPrice_move].
Qed.

Lemma interpolateDisplayPrice_between (target prev : Q) :
  (prev <= target ->
   prev <= CrashChart.interpolateDisplayPrice target prev <= target)
  /\ (target <= prev ->
      target <= CrashChart.interpolateDisplayPrice target prev <= prev).
Proof.
  destruct (interpolateDisplayPrice_cases target prev) as [[_ ->] | [_ ->]];
    split; intros; lra.
Qed.

Lemma interpolateDisplayPrice_fixed (target : Q) :
  CrashChart.interpolateDisplayPrice target target = target.
Proof.
  apply interpolateDisplayPrice_snap. q_abs; lra.
Qed.

Lemma iter_interpolate_fixed (target : Q) (n : nat) :
  Nat.iter n (CrashChart.interpolateDisplayPrice target) target = target.
Proof.
  induction n as [| n IH]; [reflexivity |].
  rewrite Nat.iter_succ, IH. apply interpolateDisplayPrice_fixed.
Qed.

Lemma iter_interpolate_nonneg (target prev : Q) (n : nat) :
  0 <= prev -> 0 <= target ->
  0 <= Nat.iter n (CrashChart.interpolateDisplayPrice target) prev.
Proof.
  intros Hp Ht. induction n as [| n IH]; [exact Hp |].
  rewrite Nat.iter_succ.
  destruct (interpolateDisplayPrice_between target
              (Nat.iter n (CrashChart.interpolateDisplayPrice target) prev))
    as [Hup Hdown].
  destruct (Qlt_le_dec target
              (Nat.iter n (CrashChart.interpolateDisplayPrice target) prev)).
  - specialize (Hdown ltac:(lra)). lra.
  - specialize (Hup ltac:(lra)). lra.
Qed.

(** Every call that does not snap removes at least 0.000015 from the
    residual, so the display reaches the target after finitely many calls. *)
Lemma iter_interpolate_reaches (target : Q) (k : nat) (prev : Q) :
  Qabs (target - prev) < 0.0001 + inject_Z (Z.of_nat k) * 0.000015 ->
  Nat.iter (S k) (CrashChart.interpolateDisplayPrice target) prev = target.
Proof.
  revert prev. induction k as [| k IH]; intros prev H.
  - change (Nat.iter 1 (CrashChart.interpolateDisplayPrice target) prev)
      with (CrashChart.interpolateDisplayPrice target prev).
    apply interpolateDisplayPrice_snap.
    change (inject_Z (Z.of_nat 0)) with 0 in H. lra.
  - rewrite Nat.iter_succ_r.
    destruct (interpolateDisplayPrice_cases target prev) as [[_ ->] | [Hge ->]].
    + apply iter_interpolate_fixed.
    + apply IH.
      rewrite Nat2Z.inj_succ, <- Z.add_1_r, inject_Z_plus in H.
      change (inject_Z 1) with 1 in H.
      q_abs; lra.
Qed.

Lemma iter_interpolate_converges (target prev : Q) :
  exists n, Nat.iter n (CrashChart.interpolateDisplayPrice target) prev = target.
Proof.
  set (d := Qabs (target - prev)).
  set (z := (Qfloor (d / 0.000015) + 1)%Z).
  assert (Hd : 0 <= d) by apply Qabs_nonneg.
  assert (Hz : d / 0.000015 < inject_Z z).
  { unfold z. apply Qlt_floor. }
  assert (Hz0 : (0 <= z)%Z).
  { unfold z. assert (0 <= Qfloor (d / 0.000015))%Z; [| lia].
    change 0%Z with (Qfloor 0). apply Qfloor_resp_le.
    apply Qle_shift_div_l; [reflexivity | lra]. }
  exists (S (Z.to_nat z)). apply iter_interpolate_reaches.
  rewrite Z2Nat.id by exact Hz0.
  assert (Hd2 : d == d / 0.000015 * 0.000015) by (field; discriminate).
  assert (Hz2 := proj2 (Qmult_lt_r (d / 0.000015) (inject_Z z) 0.000015 eq_refl) Hz).
  fold d. lra.
Qed.

(** C7.  The render interpolator of the CrashChart component, with factor
    0.15 (in the component and in the constants file): one call from 1.0
    toward 2.0 gives 1.15; it is the interpolator of
    §4.5; every call leaves the displayed value between its old value and the
    target, and strictly closer to the target unless it was there already; a
    residual below 0.0001 makes the call return the target itself; from a
    non-negative start and target no call returns a negative value; and after
    finitely many calls the displayed value is the target and stays there. *)
Theorem interpolateDisplayPrice_contract :
  CrashChart.INTERPOLATION_SPEED == 0.15
  /\ CrashChartConstants.INTERPOLATION_SPEED == 0.15
  /\ CrashChart.interpolateDisplayPrice 2.0 1.0 == 1.15
  /\ (forall target prev,
        CrashChart.interpolateDisplayPrice target prev
        == Spec.interpolate 0.15 target prev)
  /\ (forall target prev,
        (prev <= target ->
         prev <= CrashChart.interpolateDisplayPrice target prev <= target)
        /\ (target <= prev ->
            target <= CrashChart.interpolateDisplayPrice target prev <= prev))
  /\ (forall target prev,
        ~ prev == target ->
        Qabs (target - CrashChart.interpolateDisplayPrice target prev)
        < Qabs (target - prev))
  /\ (forall target prev,
        Qabs (target - prev) < 0.0001 ->
        CrashChart.interpolateDisplayPrice target prev = target)
  /\ (forall target prev n,
        0 <= prev -> 0 <= target ->
        0 <= Nat.iter n (CrashChart.interpolateDisplayPrice target) prev)
  /\ (forall target prev,
        exists n, forall m, (n <= m)%nat ->
          Nat.iter m (CrashChart.interpolateDisplayPrice target) prev = target).
Proof.
  split; [reflexivity |].
  split; [reflexivity |].
  split; [vm_compute; reflexivity |].
  split; [intros; unfold CrashChart.interpolateDisplayPrice, Spec.interpolate;
          cbv zeta; destruct (Qltb _ _); reflexivity |].
  split; [apply interpolateDisplayPrice_between |].
  split.
  { intros target prev Hne.
    destruct (interpolateDisplayPrice_cases target prev) as [[_ ->] | [_ ->]];
      q_abs; lra. }
  split; [apply interpolateDisplayPrice_snap |].
  split; [intros; now apply iter_interpolate_nonneg |].
  intros target prev.
  destruct (iter_interpolate_converges target prev) as [n Hn].
  exists n. intros m Hm.
  replace m with ((m - n) + n)%nat by lia.
  rewrite Nat.iter_add, Hn. apply iter_interpolate_fixed.
Qed.

(** ** The crash test *)

Lemma CrashChart_crashTriggered_spec (cp next : Q) :
  CrashChart.crashTriggered cp next = true <-> Spec.crashed cp next.
Proof.
  unfold CrashChart.crashTriggered, Spec.crashed, Qgeb, Qleb.
  rewrite orb_true_iff, !andb_true_iff, !Qltb_lt, !Qle_bool_iff.
  split; intros [[H1 H2] | [H1 H2]]; (left; split; lra) || (right; split; lra).
Qed.

Lemma crashTriggered_spec (cp next : Q) :
  crashTriggered cp next = true <-> Spec.crashed cp next.
Proof.
  unfold crashTriggered, Spec.crashed, Qgeb, Qleb.
  rewrite orb_true_iff, !andb_true_iff, !Qltb_lt, !Qle_bool_iff.
  split; intros [[H1 H2] | [H1 H2]]; (left; split; lra) || (right; split; lra).
Qed.

(** The game tick of the CrashChart component. *)
Lemma gameTick_crash (st : CrashChart.State) :
  let next := fst (CrashChart.nextPrice (CrashChart.targetPrice st)
                     (CrashChart.random st)) in
  let st' := CrashChart.gameTick st in
  (Spec.crashed (CrashChart.crashPoint st) next ->
   CrashChart.phase st' = CrashChart.crashed
   /\ CrashChart.synced st'
      = mkSyncState false (CrashChart.crashPoint st) (CrashChart.crashPoint st)
        :: CrashChart.synced st
   /\ CrashChart.targetPrice st' = CrashChart.crashPoint st)
  /\ (~ Spec.crashed (CrashChart.crashPoint st) next ->
      CrashChart.phase st' = CrashChart.phase st
      /\ CrashChart.synced st'
         = mkSyncState true next (CrashChart.crashPoint st) :: CrashChart.synced st
      /\ CrashChart.targetPrice st' = next).
Proof.
  cbv zeta. unfold CrashChart.gameTick.
  destruct (CrashChart.nextPrice _ _) as [next g]. cbn [fst].
  destruct (CrashChart.crashTriggered _ _) eqn:E.
  - apply CrashChart_crashTriggered_spec in E.
    split; [intros _; repeat split | intros H; contradiction].
  - split; [intros H | intros _; repeat split].
    apply CrashChart_crashTriggered_spec in H. congruence.
Qed.

Lemma performCandleAggregation_total (chartData : list CandleData) :
  exists updated, performCandleAggregation chartData = Ok updated.
Proof.
  unfold performCandleAggregation.
  destruct (length chartData <? 30)%nat eqn:E; [eexists; reflexivity |].
  apply Nat.ltb_ge in E.
  destruct chartData as [| a [| b l]]; cbn [length] in E; try lia.
  cbn [firstn aggregateCandles result_bind]. eexists; reflexivity.
Qed.

Lemma updateChart_total (v : Q) (t : Z) (c : Component) :
  chartData c <> [] -> exists c', updateChart v t c = Ok c'.
Proof.
  intros Hne. unfold updateChart, draw.
  destruct (last (chartData c)) as [lastCandle |] eqn:El.
  - destruct (_ >=? _)%Z; [| eexists; reflexivity].
    destruct_draws.
    match goal with
    | |- context [performCandleAggregation ?l] =>
        destruct (performCandleAggregation_total l) as [updated ->]
    end.
    cbn [result_bind]. eexists; reflexivity.
  - apply last_None in El. contradiction.
Qed.

Lemma crashRound_total (cp v : Q) (t t1 t2 : Z) (c : Component) :
  chartData c <> [] -> exists c', crashRound cp v t t1 t2 c = Ok c'.
Proof.
  intros Hne. unfold crashRound, closure_chartData, draw. cbn [last].
  destruct (candleIntervalRef c); component_simpl; destruct_draws; component_simpl.
  all: match goal with
       | |- context [updateChart ?a ?b ?s] =>
           destruct (updateChart_total a b s) as [c1 ->]; [exact Hne |]
       end.
  all: cbn [result_bind].
  all: match goal with
       | |- context [performCandleAggregation ?l] =>
           destruct (performCandleAggregation_total l) as [updated ->]
       end.
  all: cbn [result_bind]; eexists; reflexivity.
Qed.

(** On a chart that has a candle the tick returns. *)
Lemma candleTick_total (id : nat) (cp v : Q) (t t1 t2 : Z) (c : Component) :
  chartData c <> [] -> exists c', candleTick id cp v t t1 t2 c = Ok c'.
Proof.
  intros Hne. unfold candleTick, draw.
  destruct (generatePriceMovement_default v (random c)) as [v' g'].
  destruct (crashTriggered cp v').
  - now apply crashRound_total.
  - now apply updateChart_total.
Qed.

(** The candle interval callback of the CandlestickChart component. *)
Lemma candleTick_crash (id : nat) (cp v : Q) (t t1 t2 : Z) (c c' : Component) :
  candleTick id cp v t t1 t2 c = Ok c' ->
  let next := fst (generatePriceMovement_default v (random c)) in
  (Spec.crashed cp next ->
   gameState c'
   = mkCrashGameState false false next true cp
       (timeElapsed (gameState c)) (countdown (gameState c))
   /\ bettingSync c'
      = mkSyncState false next cp :: mkSyncState false cp cp :: bettingSync c
   /\ candleIntervalRef c' = None)
  /\ (~ Spec.crashed cp next ->
      gameState c' = setMultiplier next (gameState c)
      /\ bettingSync c'
         = mkSyncState (isActive (gameState c)) next (crashPoint (gameState c))
           :: bettingSync c
      /\ candleIntervalRef c' = candleIntervalRef c).
Proof.
  unfold candleTick, draw. cbv zeta.
  destruct (generatePriceMovement_default v (random c)) as [next g]. cbn [fst].
  destruct (crashTriggered cp next) eqn:E.
  - intros E2. apply crashRound_frame in E2 as (Er2 & Eg2 & Eb2 & _).
    component_simpl. apply crashTriggered_spec in E.
    split; [intros _ | intros H; contradiction].
    rewrite Eg2, Eb2. repeat split. exact Er2.
  - intros E1. apply updateChart_frame in E1 as (_ & Er & _ & Eg & Eb).
    component_simpl.
    split; [intros H | intros _; repeat split; assumption].
    apply crashTriggered_spec in H. congruence.
Qed.

(** The two forced sequences of §8: with crash point 0.75 the values 1.0,
    0.9 and 0.8 do not crash and 0.7 does; with crash point 2.0 the values
    1.0, 1.5 and 1.9 do not crash and 2.1 does. *)
Example crashTriggered_sequences :
  map (CrashChart.crashTriggered 0.75) [1.0; 0.9; 0.8; 0.7]
  = [false; false; false; true]
  /\ map (CrashChart.crashTriggered 2.0) [1.0; 1.5; 1.9; 2.1]
     = [false; false; false; true]
  /\ map (crashTriggered 0.75) [1.0; 0.9; 0.8; 0.7] = [false; false; false; true]
  /\ map (crashTriggered 2.0) [1.0; 1.5; 1.9; 2.1] = [false; false; false; true].
Proof. repeat split; vm_compute; reflexivity. Qed.

(** ** The phases of the CrashChart component *)

Lemma startGame_phase (st : CrashChart.State) :
  CrashChart.phase (CrashChart.startGame st) = CrashChart.running.
Proof.
  unfold CrashChart.startGame.
  now destruct (CrashChart.generateCrashPoint (CrashChart.random st)).
Qed.

Lemma gameTick_phase (st : CrashChart.State) :
  CrashChart.phase (CrashChart.gameTick st) = CrashChart.crashed
  \/ CrashChart.phase (CrashChart.gameTick st) = CrashChart.phase st.
Proof.
  unfold CrashChart.gameTick.
  destruct (CrashChart.nextPrice _ _) as [next g].
  destruct (CrashChart.crashTriggered _ _); [now left | now right].
Qed.

Lemma reachable_phase_inv (st : CrashChart.State) :
  CrashChart.reachable st -> phase_inv st.
Proof.
  induction 1 as [g | st st' _ IH Hstep].
  - unfold phase_inv; cbn. repeat split; intros; try discriminate; try lia.
  - destruct Hstep as [e st Hen].
    destruct IH as (Hnc & Hst & Hle & Hone & Hpos).
    destruct e; cbn [CrashChart.enabled CrashChart.handle] in *.
    + (* the mount timeout *)
      apply Hst in Hen as Hw.
      destruct Hnc as [Hc0 Ht0]; [rewrite Hw; discriminate |].
      unfold CrashChart.startTimeoutFires, CrashChart.startGame; cbn.
      destruct (CrashChart.generateCrashPoint _); cbn.
      unfold phase_inv; cbn. rewrite Ht0.
      repeat split; intros; try discriminate; try lia.
    + (* a game tick *)
      destruct (CrashChart.phase st) eqn:Ep; try discriminate.
      destruct Hnc as [Hc0 Ht0]; [discriminate |].
      unfold CrashChart.gameTick.
      destruct (CrashChart.nextPrice _ _) as [next g].
      destruct (CrashChart.crashTriggered _ _); unfold phase_inv; cbn;
        rewrite ?Ep, ?Ht0, ?Hc0.
      * repeat split; intros; try discriminate; try lia; try congruence.
        -- apply Hst in H. congruence.
      * repeat split; intros; try discriminate; try lia; try congruence.
        -- apply Hst in H. congruence.
    + (* the crash delay timeout *)
      apply negb_true_iff, Nat.eqb_neq in Hen.
      assert (Hc : CrashChart.phase st = CrashChart.crashed).
      { destruct (CrashChart.phase st) eqn:Ep; [| | reflexivity];
          destruct Hnc as [_ H0]; try discriminate; lia. }
      unfold phase_inv, CrashChart.crashDelayTimeout; cbn. rewrite Hc.
      unfold CrashChart.COUNTDOWN_SECONDS.
      repeat split; intros; try contradiction; try discriminate; try lia.
      * apply Hst in H. congruence.
    + (* a countdown tick *)
      apply Z.ltb_lt in Hen.
      assert (Hc : CrashChart.phase st = CrashChart.crashed).
      { destruct (CrashChart.phase st) eqn:Ep; [| | reflexivity];
          destruct Hnc as [H0 _]; try discriminate; lia. }
      assert (Ht0 : CrashChart.countdownTimeouts st = 0%nat).
      { destruct (CrashChart.countdownTimeouts st) as [| [| n]] eqn:En;
          [reflexivity | specialize (Hone eq_refl); lia | lia]. }
      assert (Hs : CrashChart.startTimeout st = false).
      { destruct (CrashChart.startTimeout st) eqn:Es; [| reflexivity].
        destruct Hst as [Hst _]. specialize (Hst eq_refl). congruence. }
      unfold CrashChart.countdownTick, CrashChart.startGame.
      destruct (_ <=? _)%Z.
      * destruct (CrashChart.generateCrashPoint _); unfold phase_inv; cbn.
        rewrite Ht0, Hs.
        repeat split; intros; try discriminate; try lia.
      * unfold phase_inv; cbn. rewrite Hc, Ht0, Hs.
        repeat split; intros; try contradiction; try discriminate; try lia.
    + (* a render frame *)
      unfold phase_inv, CrashChart.renderFrame; cbn.
      repeat split; try tauto; try apply Hnc; try apply Hst; assumption.
Qed.

(** Every step of the component keeps the phase or follows one of the three
    edges; the phase never becomes waiting again; the crashed phase is
    entered by a game tick of a running round only and left by the restart
    only. *)
Lemma step_phase (st st' : CrashChart.State) :
  CrashChart.reachable st -> CrashChart.step st st' ->
  CrashChart.phase st' = CrashChart.phase st
  \/ phase_edge (CrashChart.phase st) (CrashChart.phase st').
Proof.
  intros Hr Hstep. destruct (reachable_phase_inv st Hr) as (Hnc & Hst & _ & _ & _).
  destruct Hstep as [e st Hen].
  destruct e; cbn [CrashChart.enabled CrashChart.handle] in *.
  - apply Hst in Hen. right. unfold CrashChart.startTimeoutFires.
    rewrite startGame_phase, Hen. constructor.
  - destruct (CrashChart.phase st) eqn:Ep; try discriminate.
    destruct (gameTick_phase st) as [-> | ->]; rewrite ?Ep;
      [right; constructor | now left].
  - now left.
  - apply Z.ltb_lt in Hen.
    assert (Hc : CrashChart.phase st = CrashChart.crashed).
    { destruct (CrashChart.phase st) eqn:Ep; [| | reflexivity];
        destruct Hnc as [H0 _]; try discriminate; lia. }
    unfold CrashChart.countdownTick.
    destruct (_ <=? _)%Z; cbn [CrashChart.phase].
    + rewrite startGame_phase, Hc. right. constructor.
    + now left.
  - now left.
Qed.

(** ** The claims about the CandlestickChart round *)


Lemma after_reachable (script : list (nat * Clock)) (c : Component) :
  run script (mounted 1 candlestick_draws) = Some c -> reachable c.
Proof. apply run_reachable. constructor. Qed.

Lemma running_round_run :
  run running_script (mounted 1 candlestick_draws) = Some running_round.
Proof.
  unfold running_round, after.
  destruct (run running_script (mounted 1 candlestick_draws)) eqn:E;
    [reflexivity | vm_compute in E; discriminate].
Qed.

Lemma crashed_round_run :
  run crashed_script (mounted 1 candlestick_draws) = Some crashed_round.
Proof.
  unfold crashed_round, after.
  destruct (run crashed_script (mounted 1 candlestick_draws)) eqn:E;
    [reflexivity | vm_compute in E; discriminate].
Qed.

(** C1.  In both components the tick that computes the new multiplier [next]
    also decides the crash, by the condition of §4.4; nothing is left to a
    later tick.

    CrashChart does what the claim says: when the condition holds the tick
    sets the phase to crashed, publishes (inactive, crashPoint, crashPoint)
    and freezes the target price at crashPoint; otherwise the phase is kept
    and (active, next, crashPoint) is published.

    CandlestickChart: on a chart that has a candle the tick returns.  When the
    condition holds it leaves the game state crashed and inactive with the
    interval cleared, and publishes (inactive, crashPoint, crashPoint); but
    then the multiplier update of the tick's own chart updater is applied, so
    the multiplier it ends with and the last snapshot published are the
    overshoot [next].  When the condition does not hold only the multiplier
    changes.

    On the crash tick of [crashed_script] the crash point is 1.01 and the
    price steps to 1.25088: the component publishes 1.01, then 1.25088, and
    ends with the multiplier 1.25088. *)
Theorem crash_decided_within_tick :
  (forall st : CrashChart.State,
     CrashChart.phase st = CrashChart.running ->
     let next := fst (CrashChart.nextPrice (CrashChart.targetPrice st)
                        (CrashChart.random st)) in
     let st' := CrashChart.gameTick st in
     (CrashChart.phase st' = CrashChart.crashed
      <-> Spec.crashed (CrashChart.crashPoint st) next)
     /\ (Spec.crashed (CrashChart.crashPoint st) next ->
         List.hd_error (CrashChart.synced st')
         = Some (mkSyncState false (CrashChart.crashPoint st)
                   (CrashChart.crashPoint st))
         /\ CrashChart.targetPrice st' = CrashChart.crashPoint st)
     /\ (~ Spec.crashed (CrashChart.crashPoint st) next ->
         CrashChart.phase st' = CrashChart.running
         /\ List.hd_error (CrashChart.synced st')
            = Some (mkSyncState true next (CrashChart.crashPoint st))
         /\ CrashChart.targetPrice st' = next))
  /\ (forall (id : nat) (cp v : Q) (k : Clock) (c : Component),
        chartData c <> [] ->
        let next := fst (generatePriceMovement_default v (random c)) in
        exists c' : Component,
          callback id (CandleInterval cp v) k c = Ok c'
          /\ (Spec.crashed cp next ->
              hasCrashed (gameState c') = true
              /\ isActive (gameState c') = false
              /\ candleIntervalRef c' = None
              /\ crashPoint (gameState c') = cp
              /\ multiplier (gameState c') = next
              /\ bettingSync c'
                 = mkSyncState false next cp :: mkSyncState false cp cp
                   :: bettingSync c)
          /\ (~ Spec.crashed cp next ->
              hasCrashed (gameState c') = hasCrashed (gameState c)
              /\ isActive (gameState c') = isActive (gameState c)
              /\ multiplier (gameState c') = next
              /\ bettingSync c'
                 = mkSyncState (isActive (gameState c)) next
                     (crashPoint (gameState c))
                   :: bettingSync c))
  /\ (reachable running_round
      /\ timers running_round !! 4%nat
         = Some (CandleInterval (crashPoint (gameState running_round))
                   (targetPrice running_round))
      /\ callback 4%nat
           (CandleInterval (crashPoint (gameState running_round))
              (targetPrice running_round))
           (mkClock 3100 3100 3100) running_round
         = Ok crashed_round
      /\ hasCrashed (gameState crashed_round) = true
      /\ crashPoint (gameState crashed_round) == 1.01
      /\ multiplier (gameState crashed_round) == 1.25088
      /\ Forall2 Qeq
           (map currentMultiplier (firstn 2 (bettingSync crashed_round)))
           [1.25088; 1.01]
      /\ ~ multiplier (gameState crashed_round)
           == crashPoint (gameState crashed_round)).
Proof.
  split; [| split].
  - intros st Hrun. cbv zeta.
    destruct (gameTick_crash st) as [Hc Hn]. cbv zeta in Hc, Hn.
    split; [| split].
    + split.
      * intros Hp.
        destruct (CrashChart.crashTriggered (CrashChart.crashPoint st)
                    (fst (CrashChart.nextPrice (CrashChart.targetPrice st)
                            (CrashChart.random st)))) eqn:E.
        -- now apply CrashChart_crashTriggered_spec.
        -- assert (Hno : ~ Spec.crashed (CrashChart.crashPoint st)
                            (fst (CrashChart.nextPrice (CrashChart.targetPrice st)
                                    (CrashChart.random st)))).
           { intros H. apply CrashChart_crashTriggered_spec in H. congruence. }
           destruct (Hn Hno) as [Hp' _]. rewrite Hp', Hrun in Hp. discriminate.
      * intros H. now destruct (Hc H).
    + intros H. destruct (Hc H) as (_ & -> & ->). split; reflexivity.
    + intros H. destruct (Hn H) as (-> & -> & ->). repeat split. exact Hrun.
  - intros id cp v k c Hne. cbv zeta. cbn [callback].
    destruct (candleTick_total id cp v (now k) (nowFinal k) (nowCrash k) c Hne)
      as [c' Hcb].
    exists c'. split; [exact Hcb |].
    destruct (candleTick_crash _ _ _ _ _ _ _ _ Hcb) as [Hc Hn]. cbv zeta in Hc, Hn.
    split.
    + intros H. destruct (Hc H) as (-> & -> & ->). repeat split.
    + intros H. destruct (Hn H) as (-> & -> & _). repeat split.
  - split; [exact (after_reachable running_script running_round running_round_run) |].
    split; [vm_compute; reflexivity |].
    split; [vm_compute; reflexivity |].
    split; [vm_compute; reflexivity |].
    split; [vm_compute; reflexivity |].
    split; [vm_compute; reflexivity |].
    split.
    + remember (map currentMultiplier (firstn 2 (bettingSync crashed_round)))
        as published eqn:E.
      vm_compute in E. subst published.
      constructor; [vm_compute; reflexivity |].
      constructor; [vm_compute; reflexivity | constructor].
    + vm_compute. discriminate.
Qed.

(** CrashChart: on the first tick of [started_round] the price falls from 1.0
    to 0.8796, under the crash point 0.9851; the tick leaves the round crashed
    and publishes the crash point.  CandlestickChart: the tick of
    [running_round] at clock 3100 returns, leaves the round crashed, and the
    multiplier and the latest snapshot carry the price it stepped to. *)
Lemma crash_decided_within_tick_witness :
  (CrashChart.phase (CrashChart.gameTick started_round) = CrashChart.crashed
   /\ List.hd_error (CrashChart.synced (CrashChart.gameTick started_round))
      = Some (mkSyncState false (CrashChart.crashPoint started_round)
                (CrashChart.crashPoint started_round))
   /\ CrashChart.targetPrice (CrashChart.gameTick started_round)
      = CrashChart.crashPoint started_round)
  /\ exists c' : Component,
       callback 4%nat
         (CandleInterval (crashPoint (gameState running_round))
            (targetPrice running_round))
         (mkClock 3100 3100 3100) running_round
       = Ok c'
       /\ hasCrashed (gameState c') = true
       /\ multiplier (gameState c')
          = fst (generatePriceMovement_default (targetPrice running_round)
                   (random running_round))
       /\ List.hd_error (bettingSync c')
          = Some (mkSyncState false
                    (fst (generatePriceMovement_default
                            (targetPrice running_round) (random running_round)))
                    (crashPoint (gameState running_round))).
Proof.
  split.
  - destruct (proj1 crash_decided_within_tick started_round) as (Hiff & Hc & _).
    + vm_compute. reflexivity.
    + cbv zeta in Hiff, Hc.
      assert (H : Spec.crashed (CrashChart.crashPoint started_round)
                    (fst (CrashChart.nextPrice
                            (CrashChart.targetPrice started_round)
                            (CrashChart.random started_round)))).
      { left. split; vm_compute; [reflexivity | discriminate]. }
      split; [now apply Hiff | now apply Hc].
  - destruct (proj1 (proj2 crash_decided_within_tick) 4%nat
                (crashPoint (gameState running_round))
                (targetPrice running_round) (mkClock 3100 3100 3100)
                running_round)
      as (c' & Hcb & Hc & _).
    + vm_compute. discriminate.
    + exists c'. split; [exact Hcb |].
      destruct Hc as (H1 & _ & _ & _ & H2 & H3).
      * right. split; vm_compute; discriminate.
      * rewrite H3. repeat split; assumption.
Defined.

(** C3, on the buffer of the aggregation test: compaction returns a merged
    candle in front of the other 27, two candles fewer than before. *)
Lemma performCandleAggregation_merge_witness :
  exists merged,
    performCandleAggregation full_buffer = Ok (merged :: skipn 3 full_buffer)
    /\ (length (merged :: skipn 3 full_buffer) + 2 = length full_buffer)%nat.
Proof.
  destruct (performCandleAggregation_merge full_buffer)
    as (merged & _ & _ & _ & _ & _ & H1 & H2 & _).
  - vm_compute. lia.
  - exists merged. split; assumption.
Defined.

(** On the candles of the aggregation test the merged high is 1.035075, far
    below the largest source high 2.5, and the merged low 0.994925 is far
    above the smallest source low 0.1. *)
Lemma aggregateCandles_extreme_wicks :
  exists merged,
    aggregateCandles extreme_candles = Ok merged
    /\ high merged == 1.035075 /\ low merged == 0.994925
    /\ open merged == 1.0 /\ close merged == 1.03.
Proof. eexists. split; [reflexivity |]. repeat split; vm_compute; reflexivity. Qed.

(** C5.  In every state the CandlestickChart component reaches, every candle
    of the chart satisfies [low <= min(open, close)] and
    [high >= max(open, close)].  So does a candle at each point of its life: a
    candle opened with its four prices equal; a candle after a value is folded
    into it (which is also how it is finalized); the candle that compaction
    makes of candles of a reachable chart; and the crash candle, which falls
    from a price to zero. *)
Theorem candles_valid :
  (forall c : Component, reachable c -> Forall valid (chartData c))
  /\ (forall (v : Q) (t : Z) (vol : option Z), valid (mkCandleData v v v v t vol))
  /\ (forall (candle : CandleData) (v : Q),
        valid candle -> valid (foldCandle candle v))
  /\ (forall (c : Component) (candles : list CandleData) (merged : CandleData),
        reachable c ->
        (forall x, In x candles -> In x (chartData c)) ->
        aggregateCandles candles = Ok merged ->
        valid merged)
  /\ (forall (lastPrice : Q) (t : Z) (vol : option Z),
        0 <= lastPrice -> valid (mkCandleData lastPrice lastPrice 0 0 t vol)).
Proof.
  split; [| split; [| split; [| split]]].
  - intros c Hr. destruct (reachable_chart_ok c Hr) as [Hall _].
    eapply Forall_impl; [exact Hall |]. intros x. apply sound_valid.
  - apply flat_valid.
  - apply foldCandle_valid.
  - intros c candles merged Hr Hsub Hagg.
    destruct (reachable_chart_ok c Hr) as [Hall _].
    apply sound_valid. eapply aggregateCandles_sound; [| exact Hagg].
    apply List.Forall_forall. intros x Hx.
    apply (proj1 (List.Forall_forall sound (chartData c)) Hall). now apply Hsub.
  - intros lastPrice t vol H. now apply sound_valid, crashCandle_sound.
Qed.

Lemma candles_valid_witness :
  Forall valid (chartData crashed_round) /\ length (chartData crashed_round) = 3%nat.
Proof.
  split.
  - apply (proj1 candles_valid crashed_round).
    apply (after_reachable crashed_script). exact crashed_round_run.
  - vm_compute. reflexivity.
Defined.

Lemma performCandleAggregation_long (chartData : list CandleData) :
  (30 <= length chartData)%nat ->
  exists merged,
    aggregateCandles (firstn 3 chartData) = Ok merged
    /\ performCandleAggregation chartData = Ok (merged :: skipn 3 chartData).
Proof.
  intros H. unfold performCandleAggregation.
  apply Nat.ltb_ge in H as Hb. rewrite Hb.
  destruct chartData as [| c1 [| c2 [| c3 rest]]]; cbn [length] in H; try lia.
  change (firstn 3 (c1 :: c2 :: c3 :: rest)) with [c1; c2; c3].
  destruct (aggregateCandles_three c1 c2 c3) as (merged & _ & _ & _ & Hagg & _).
  exists merged. rewrite Hagg. split; reflexivity.
Qed.

(** C6.  [performCandleAggregation] returns a buffer of fewer than 30 candles
    as it is; on a longer one it merges the first three candles once and
    leaves the rest as they are and in order, whatever their number, so the
    length drops by exactly 2; and no chart the component reaches has more
    than 30 candles, nor has the array a callback builds from it (all but the
    last candle, and two new ones) before it is compacted. *)
Theorem performCandleAggregation_cap :
  (forall chartData : list CandleData,
     (length chartData < 30)%nat ->
     performCandleAggregation chartData = Ok chartData)
  /\ (forall chartData : list CandleData,
        (30 <= length chartData)%nat ->
        exists merged,
          aggregateCandles (firstn 3 chartData) = Ok merged
          /\ performCandleAggregation chartData = Ok (merged :: skipn 3 chartData)
          /\ length (merged :: skipn 3 chartData) = (length chartData - 2)%nat)
  /\ (forall c : Component, reachable c -> (length (chartData c) <= 30)%nat)
  /\ (forall (c : Component) (x y : CandleData),
        reachable c ->
        (length (removelast (chartData c) ++ [x; y]) <= 30)%nat).
Proof.
  split; [| split; [| split]].
  - intros chartData H. unfold performCandleAggregation.
    apply Nat.ltb_lt in H. now rewrite H.
  - intros chartData H.
    destruct (performCandleAggregation_long chartData H) as (merged & Hagg & Hperf).
    exists merged. split; [exact Hagg | split; [exact Hperf |]].
    cbn [length]. rewrite length_skipn. lia.
  - intros c Hr. destruct (reachable_chart_ok c Hr) as [_ H]. lia.
  - intros c x y Hr. destruct (reachable_chart_ok c Hr) as [_ H].
    destruct (chartData c) as [| a l] using rev_ind; [cbn; lia |].
    rewrite removelast_last. rewrite !length_app in *. cbn [length] in *. lia.
Qed.

(** With 32 candles the result has 30: compaction does not run again on its
    own result. *)
Lemma performCandleAggregation_once :
  exists updated,
    performCandleAggregation (full_buffer ++ firstn 2 full_buffer) = Ok updated
    /\ length updated = 30%nat.
Proof. eexists. split; [vm_compute; reflexivity | reflexivity]. Qed.

(** ** The claims about the CrashChart phases *)

Lemma CrashChart_run_reachable (es : list CrashChart.Event)
    (st st' : CrashChart.State) :
  CrashChart.reachable st -> CrashChart.run es st = Some st' ->
  CrashChart.reachable st'.
Proof.
  revert st. induction es as [| e es IH]; intros st Hr; cbn [CrashChart.run].
  - now intros [= <-].
  - destruct (CrashChart.enabled e st) eqn:En; [| discriminate].
    apply IH. eapply CrashChart.reachable_step; [exact Hr |].
    now constructor.
Qed.

Lemma last_second_reachable : CrashChart.reachable last_second.
Proof.
  apply (CrashChart_run_reachable countdown_script
           (CrashChart.initial crashchart_draws)); [constructor |].
  unfold last_second.
  destruct (CrashChart.run countdown_script (CrashChart.initial crashchart_draws))
    eqn:E; [reflexivity | vm_compute in E; discriminate].
Qed.

(** C8.  At the end of the countdown the CrashChart component goes from the
    crashed phase straight to running, which is no edge of the cycle waiting,
    running, crashed, waiting: [last_second] is the reachable state in which a
    crashed round has one second of countdown left, and the countdown tick it
    enables starts the next game. *)
Theorem restart_skips_waiting :
  CrashChart.reachable last_second
  /\ CrashChart.step last_second (CrashChart.handle CrashChart.CountdownTick last_second)
  /\ CrashChart.phase last_second = CrashChart.crashed
  /\ CrashChart.countdown last_second = 1%Z
  /\ CrashChart.phase (CrashChart.handle CrashChart.CountdownTick last_second)
     = CrashChart.running
  /\ ~ cycle_edge (CrashChart.phase last_second)
         (CrashChart.phase (CrashChart.handle CrashChart.CountdownTick last_second)).
Proof.
  assert (Hp : CrashChart.phase last_second = CrashChart.crashed)
    by (vm_compute; reflexivity).
  assert (Hp' : CrashChart.phase
                  (CrashChart.handle CrashChart.CountdownTick last_second)
                = CrashChart.running) by (vm_compute; reflexivity).
  split; [exact last_second_reachable |].
  split; [constructor; vm_compute; reflexivity |].
  split; [exact Hp |].
  split; [vm_compute; reflexivity |].
  split; [exact Hp' |].
  rewrite Hp, Hp'. intros H. inversion H.
Qed.

(** ** Further properties *)

(** The phases of the CrashChart component, as the code has them: every step
    keeps the phase or goes from waiting to running, from running to crashed
    or from crashed to running; in particular no step enters the waiting
    phase, and the crashed phase is entered from a running round only. *)
Theorem phase_steps (st st' : CrashChart.State) :
  CrashChart.reachable st -> CrashChart.step st st' ->
  (CrashChart.phase st' = CrashChart.phase st
   \/ phase_edge (CrashChart.phase st) (CrashChart.phase st'))
  /\ (CrashChart.phase st' = CrashChart.waiting ->
      CrashChart.phase st = CrashChart.waiting)
  /\ (CrashChart.phase st' = CrashChart.crashed ->
      CrashChart.phase st = CrashChart.crashed
      \/ CrashChart.phase st = CrashChart.running).
Proof.
  intros Hr Hs. destruct (step_phase st st' Hr Hs) as [E | E].
  - rewrite E. repeat split; auto.
  - repeat split; [now right | |]; intros H; rewrite H in E; inversion E; auto.
Qed.

Lemma phase_steps_witness :
  (CrashChart.phase (CrashChart.handle CrashChart.CountdownTick last_second)
   = CrashChart.phase last_second
   \/ phase_edge (CrashChart.phase last_second)
        (CrashChart.phase (CrashChart.handle CrashChart.CountdownTick last_second))).
Proof.
  apply (phase_steps last_second
           (CrashChart.handle CrashChart.CountdownTick last_second)).
  - exact last_second_reachable.
  - constructor. vm_compute. reflexivity.
Defined.

(** The crash points of the component's generator lie in [0.01, 25], as those
    of the bucket algorithm do. *)
Theorem generateCrashPoint_in_range (g : RandomSource) :
  uniform_source g -> 0.01 <= fst (generateCrashPoint g) <= 25.
Proof. apply generateCrashPoint_range. Qed.

Lemma half_draws_uniform : uniform_source half_draws.
Proof.
  intros i. unfold half_draws, scripted; cbn [draws].
  do 4 (destruct i as [| i]; [cbn; lra |]). cbn. lra.
Qed.

Lemma generateCrashPoint_in_range_witness :
  0.01 <= fst (generateCrashPoint half_draws) <= 25.
Proof. apply (generateCrashPoint_in_range half_draws). exact half_draws_uniform. Defined.

(** The guide's generator computes the crash point of §4.1 from the next
    three draws, within [0.01, 25] when the third lies in the unit interval. *)
Theorem guide_generateCrashPoint_buckets (g : RandomSource) :
  fst (ImplementationGuide.generateCrashPoint g)
  == Spec.crashPoint (upcoming g 0) (upcoming g 1) (upcoming g 2)
  /\ (0 <= upcoming g 2 < 1 ->
      0.01 <= fst (ImplementationGuide.generateCrashPoint g) <= 25).
Proof.
  split; [apply guide_generateCrashPoint_spec |].
  intros H. rewrite guide_generateCrashPoint_spec. now apply spec_crashPoint_range.
Qed.

(** After compaction the wicks extend the body by at most the bound of §4.3
    on each side. *)
Theorem aggregateCandles_wick_bound (candles : list CandleData) (merged : CandleData) :
  (2 <= length candles)%nat ->
  aggregateCandles candles = Ok merged ->
  high merged - Qmax (open merged) (close merged)
  <= Spec.maxExt (open merged) (close merged)
  /\ Qmin (open merged) (close merged) - low merged
     <= Spec.maxExt (open merged) (close merged).
Proof.
  intros Hlen Hagg.
  destruct candles as [| c [| c' rest]]; cbn [length] in Hlen; try lia.
  unfold aggregateCandles in Hagg. injection Hagg as <-.
  cbn [open close high low]. unfold Spec.maxExt, maxWickExtension, Qgtb.
  cbv zeta.
  set (ext := if Qltb 0 _ then _ else _).
  set (maxHigh := Math_max_list _ _). set (minLow := Math_min_list _ _).
  clearbody ext maxHigh minLow. q_minmax; lra.
Qed.

Lemma aggregateCandles_wick_bound_witness :
  exists merged,
    aggregateCandles extreme_candles = Ok merged
    /\ high merged - Qmax (open merged) (close merged)
       <= Spec.maxExt (open merged) (close merged).
Proof.
  destruct (aggregateCandles extreme_candles) as [merged |] eqn:E;
    [| vm_compute in E; discriminate].
  exists merged. split; [reflexivity |].
  apply (aggregateCandles_wick_bound extreme_candles merged); [vm_compute; lia | exact E].
Defined.

Lemma nextPrice_floor (prev : Q) (g : RandomSource) :
  0.01 <= fst (CrashChart.nextPrice prev g).
Proof.
  unfold CrashChart.nextPrice. rand_unfold. cbv zeta.
  destruct (Qltb _ _); cbn [fst snd]; apply Q.le_max_l.
Qed.

Lemma updateCandles_valid (newPrice : Q) (prev : list CrashChart.Candle) :
  Forall valid_candle prev ->
  Forall valid_candle (CrashChart.updateCandles newPrice prev).
Proof.
  intros Hall. unfold CrashChart.updateCandles.
  destruct (last prev) as [lastCandle |] eqn:EL.
  - apply last_Some in EL as [l' ->]. rewrite removelast_last.
    apply Forall_app in Hall as [Hl' Hlast].
    assert (Hv : valid_candle lastCandle) by now inversion Hlast.
    destruct Hv as [Hlo Hhi]. cbv zeta.
    assert (Hnew : forall t a b c,
               valid_candle
                 (CrashChart.mkCandle (CrashChart.open lastCandle)
                    (Qmin (Qmax (CrashChart.high lastCandle) newPrice)
                       (Qmax (CrashChart.open lastCandle) newPrice + 0.015))
                    (Qmax (Qmin (CrashChart.low lastCandle) newPrice)
                       (Qmin (CrashChart.open lastCandle) newPrice - 0.015))
                    newPrice t a b c)).
    { intros. unfold valid_candle; cbn. q_minmax; lra. }
    destruct (_ >=? _)%Z.
    + unfold CrashChart.slice_last. apply Forall_drop.
      apply Forall_app. split; [exact Hl' |].
      apply List.Forall_cons; [apply Hnew |].
      apply List.Forall_cons; [| apply List.Forall_nil].
      unfold valid_candle, CrashChart.flatCandle; cbn. q_minmax; lra.
    + apply Forall_app. split; [exact Hl' |].
      apply List.Forall_cons; [apply Hnew | apply List.Forall_nil].
  - apply List.Forall_cons; [| apply List.Forall_nil].
    unfold valid_candle, CrashChart.flatCandle; cbn. q_minmax; lra.
Qed.

(** Every candle of every chart the CrashChart component reaches satisfies
    the candle invariant, the crash candle included. *)
Theorem crashchart_candles_valid (st : CrashChart.State) :
  CrashChart.reachable st -> Forall valid_candle (CrashChart.candles st).
Proof.
  induction 1 as [g | st st' _ IH Hstep].
  - apply List.Forall_nil.
  - destruct Hstep as [e st _].
    assert (Hstart : forall s, Forall valid_candle
                                 (CrashChart.candles (CrashChart.startGame s))).
    { intros s. unfold CrashChart.startGame.
      destruct (CrashChart.generateCrashPoint _); cbn [CrashChart.candles].
      apply List.Forall_cons; [| apply List.Forall_nil].
      unfold valid_candle, CrashChart.flatCandle; cbn. q_minmax; lra. }
    destruct e; cbn [CrashChart.handle].
    + apply Hstart.
    + unfold CrashChart.gameTick.
      pose proof (nextPrice_floor (CrashChart.targetPrice st) (CrashChart.random st))
        as Hfloor.
      destruct (CrashChart.nextPrice _ _) as [next g]. cbn [fst] in Hfloor.
      destruct (CrashChart.crashTriggered _ _); cbn [CrashChart.candles].
      * apply Forall_app. split; [exact IH |].
        apply List.Forall_cons; [| apply List.Forall_nil].
        unfold valid_candle; cbn. q_minmax; lra.
      * now apply updateCandles_valid.
    + exact IH.
    + unfold CrashChart.countdownTick.
      destruct (_ <=? _)%Z; cbn [CrashChart.candles]; [apply Hstart | exact IH].
    + exact IH.
Qed.

Lemma crashchart_candles_valid_witness :
  Forall valid_candle (CrashChart.candles last_second)
  /\ length (CrashChart.candles last_second) = 2%nat.
Proof.
  split.
  - apply (crashchart_candles_valid last_second). exact last_second_reachable.
  - vm_compute. reflexivity.
Defined.

(** ** The stages of the CandlestickChart component *)

Lemma startNewGame_frame (c : Component) :
  exists cp m,
    timers (startNewGame c)
    = <[S (S (nextTimerId c)) := CandleInterval cp initialPrice]>
        (<[S (nextTimerId c) := FirstCandleTimeout]> m)
    /\ (forall i t, m !! i = Some t -> t = NoopInterval \/ timers c !! i = Some t)
    /\ candleIntervalRef (startNewGame c) = Some (S (S (nextTimerId c)))
    /\ chartData (startNewGame c) = []
    /\ gameState (startNewGame c)
       = mkCrashGameState true false initialPrice false cp 0 0%Z.
Proof.
  unfold startNewGame, draw. component_simpl.
  destruct (candleIntervalRef c) as [r |] eqn:Er; component_simpl;
    rewrite clear_all_timers; component_simpl; destruct_draws; component_simpl.
  all: eexists _, _; split; [reflexivity |]; split; [| repeat split; reflexivity].
  all: intros i t H; apply lookup_delete_all in H;
    apply lookup_insert_Some in H as [[_ <-] | [_ H]]; [now left | right].
  - apply lookup_delete_Some in H. tauto.
  - exact H.
Qed.

Lemma slice_last_last {A : Type} (n : nat) (l : list A) (x : A) :
  (0 < n)%nat -> last l = Some x -> last (slice_last n l) = Some x.
Proof.
  intros Hn Hl. apply last_Some in Hl as [l' ->].
  unfold slice_last. rewrite length_app. cbn [length].
  rewrite skipn_app.
  replace (length l' + 1 - n - length l')%nat with 0%nat by lia.
  cbn [skipn]. apply last_snoc.
Qed.

Lemma performCandleAggregation_last (l l' : list CandleData) (x : CandleData) :
  performCandleAggregation (l ++ [x]) = Ok l' -> last l' = Some x.
Proof.
  unfold performCandleAggregation.
  destruct (_ <? _)%nat eqn:E.
  - intros [= <-]. apply last_snoc.
  - apply Nat.ltb_ge in E. rewrite length_app in E. cbn [length] in E.
    destruct (aggregateCandles _) as [a |]; cbn [result_bind]; [| discriminate].
    intros [= <-]. rewrite skipn_app.
    replace (3 - length l)%nat with 0%nat by lia. cbn [skipn].
    change (a :: skipn 3 l ++ [x]) with ((a :: skipn 3 l) ++ [x]).
    apply last_snoc.
Qed.

(** After a tick the latest candle closes at the price of the tick. *)
Lemma updateChart_last (v : Q) (t : Z) (c c' : Component) :
  updateChart v t c = Ok c' ->
  exists latest, last (chartData c') = Some latest /\ close latest = v.
Proof.
  unfold updateChart, draw.
  destruct (last (chartData c)) as [lastCandle |]; [| discriminate].
  destruct (_ >=? _)%Z.
  - destruct_draws.
    destruct (performCandleAggregation _) as [updated |] eqn:Eagg;
      cbn [result_bind]; [| discriminate].
    intros [= <-]. component_simpl.
    match type of Eagg with
    | performCandleAggregation (?p ++ [?a; ?n]) = _ =>
        replace (p ++ [a; n]) with ((p ++ [a]) ++ [n]) in Eagg
          by (rewrite <- app_assoc; reflexivity);
        apply performCandleAggregation_last in Eagg;
        exists n; split; [apply slice_last_last; [lia | exact Eagg] | reflexivity]
    end.
  - intros [= <-]. component_simpl.
    eexists. split; [apply last_snoc | reflexivity].
Qed.

(** A tick on an empty chart throws. *)
Lemma updateChart_empty (v : Q) (t : Z) (c c' : Component) :
  chartData c = [] -> updateChart v t c <> Ok c'.
Proof. intros He. unfold updateChart. rewrite He. cbn [last]. discriminate. Qed.

Lemma candleTick_empty (id : nat) (cp v : Q) (t t1 t2 : Z) (c c' : Component) :
  chartData c = [] -> candleTick id cp v t t1 t2 c <> Ok c'.
Proof.
  intros He. unfold candleTick, draw.
  destruct (generatePriceMovement_default v (random c)) as [v' g'].
  destruct (crashTriggered cp v').
  - intros H.
    apply crashRound_inv in H
      as (c0 & c1 & vol1 & vol2 & (Ec & _) & _ & _ & _ & E1 & _).
    apply updateChart_empty in E1; [exact E1 |].
    rewrite Ec. exact He.
  - now apply updateChart_empty.
Qed.

(** Every callback takes a stage to a stage. *)
Lemma callback_stage (id : nat) (t : Timer) (k : Clock) (c c' : Component) :
  timers c !! id = Some t -> stage c -> callback id t k c = Ok c' -> stage c'.
Proof.
  intros Hid Hst Hcb.
  destruct Hst as [s Hs Honly Ha Hc Hn
                  | f ki cp Hf Hk Honly Href Hchart Hg
                  | ki cp v latest Hk Honly Href Hlast Hclose Hg
                  | d cp m Hd Honly Hm Hg
                  | j f cp m n Hj Honly Hm Hg Hn].
  - (* waiting for the start timeout *)
    destruct (Honly _ _ Hid) as [-> | [-> ->]]; cbn [callback] in Hcb;
      injection Hcb as <-.
    { eapply stage_starting; eassumption. }
    destruct (startNewGame_frame (clearInterval s c))
      as (cp & m & Et & Hm & Er & Ec & Eg).
    component_simpl.
    apply stage_opening
      with (f := S (nextTimerId c)) (k := S (S (nextTimerId c))) (cp := cp).
    + rewrite Et, lookup_insert_ne by lia. apply lookup_insert_eq.
    + rewrite Et. apply lookup_insert_eq.
    + intros i u. rewrite Et. intros H.
      apply lookup_insert_Some in H as [[<- <-] | [_ H]]; [tauto |].
      apply lookup_insert_Some in H as [[<- <-] | [_ H]]; [tauto |].
      apply Hm in H as [-> | H]; [tauto |].
      apply lookup_delete_Some in H as [Hne H].
      apply Honly in H as [-> | [-> _]]; [tauto | congruence].
    + exact Er.
    + exact Ec.
    + exact Eg.
  - (* a round before its first candle *)
    destruct (Honly _ _ Hid) as [-> | [[-> ->] | [-> ->]]]; cbn [callback] in Hcb.
    + injection Hcb as <-. eapply stage_opening; eassumption.
    + injection Hcb as <-. unfold firstCandleTimeout, draw.
      destruct_draws. component_simpl.
      eapply stage_round with (k := ki) (cp := cp) (v := initialPrice);
        component_simpl.
      * rewrite lookup_delete_ne by congruence. exact Hk.
      * intros i u H. component_simpl.
        apply lookup_delete_Some in H as [Hne H].
        apply Honly in H as [-> | [[-> _] | H]]; [tauto | congruence | tauto].
      * exact Href.
      * reflexivity.
      * reflexivity.
      * exact Hg.
    + exfalso. eapply candleTick_empty; eassumption.
  - (* a round in progress *)
    destruct (Honly _ _ Hid) as [-> | [-> ->]]; cbn [callback] in Hcb.
    { injection Hcb as <-. eapply stage_round; eassumption. }
    revert Hcb. unfold candleTick, draw, generatePriceMovement_default.
    destruct (generatePriceMovement v 0.08 (random c)) as [v' g'].
    destruct (crashTriggered cp v') eqn:Ecrash.
    + intros E2. apply crashRound_frame in E2 as (_ & Eg2 & _ & Et2 & _).
      component_simpl. rewrite Href in Et2. rewrite Hg in Eg2.
      cbn [timeElapsed countdown] in Eg2.
      apply stage_crashed with (d := nextTimerId c) (cp := cp) (m := v').
      * rewrite Et2. apply lookup_insert_eq.
      * intros i u. rewrite Et2. intros H.
        apply lookup_insert_Some in H as [[<- <-] | [_ H]]; [tauto |].
        apply lookup_delete_Some in H as [Hne H].
        apply lookup_insert_Some in H as [[? _] | [_ H]]; [congruence |].
        apply Honly in H as [-> | [-> _]]; [tauto | congruence].
      * exact Ecrash.
      * exact Eg2.
    + intros E1.
      pose proof (updateChart_last _ _ _ _ E1) as (latest' & Hlast' & Hclose').
      apply updateChart_frame in E1 as (Et & Er & En & Eg & _).
      component_simpl. rewrite Hg in Eg. cbn [setMultiplier isActive isPreparing
        hasCrashed crashPoint timeElapsed countdown] in Eg.
      apply stage_round with (k := ki) (cp := cp) (v := v') (latest := latest').
      * rewrite Et. apply lookup_insert_eq.
      * intros i u. rewrite Et. intros H.
        apply lookup_insert_Some in H as [[<- <-] | [Hne H]]; [tauto |].
        apply Honly in H as [-> | [-> _]]; [tauto | congruence].
      * now rewrite Er.
      * exact Hlast'.
      * exact Hclose'.
      * exact Eg.
  - (* the two seconds after the crash *)
    destruct (Honly _ _ Hid) as [-> | [-> ->]]; cbn [callback] in Hcb;
      injection Hcb as <-.
    { eapply stage_crashed; eassumption. }
    unfold crashDelayTimeout.
    apply stage_countdown
      with (j := S (nextTimerId c)) (f := nextTimerId c) (cp := cp) (m := m)
           (n := 5%Z);
      component_simpl.
    + apply lookup_insert_eq.
    + intros i u H. component_simpl.
      apply lookup_insert_Some in H as [[<- <-] | [_ H]]; [tauto |].
      apply lookup_insert_Some in H as [[<- <-] | [_ H]]; [tauto |].
      apply lookup_delete_Some in H as [Hne H].
      apply Honly in H as [-> | [-> _]]; [tauto | congruence].
    + exact Hm.
    + rewrite Hg. reflexivity.
    + lia.
  - (* the countdown *)
    destruct (Honly _ _ Hid) as [-> | [[-> ->] | [-> ->]]]; cbn [callback] in Hcb;
      injection Hcb as <-.
    + eapply stage_countdown; eassumption.
    + unfold countdownTick. rewrite Hg. cbn [countdown].
      destruct (n <=? 1)%Z eqn:En.
      * apply stage_starting with (s := nextTimerId c); component_simpl;
          rewrite ?Hg; try reflexivity.
        -- apply lookup_insert_eq.
        -- intros i u H. component_simpl.
           apply lookup_insert_Some in H as [[<- <-] | [_ H]]; [tauto |].
           apply lookup_delete_Some in H as [Hne1 H].
           apply lookup_delete_Some in H as [Hne2 H].
           apply Honly in H as [-> | [[-> _] | [-> _]]]; [tauto | congruence ..].
      * apply Z.leb_gt in En.
        apply stage_countdown
          with (j := j) (f := f) (cp := cp) (m := m) (n := (n - 1)%Z);
          component_simpl; [exact Hj | exact Honly | exact Hm | now rewrite Hg | lia].
    + unfold fadeOut.
      destruct (chartData c) as [| a l].
      * apply stage_countdown with (j := j) (f := f) (cp := cp) (m := m) (n := n);
          component_simpl; [| | exact Hm | exact Hg | exact Hn].
        -- rewrite lookup_delete_ne by congruence. exact Hj.
        -- intros i u H. component_simpl.
           apply lookup_delete_Some in H as [_ H]. now apply Honly in H.
      * apply stage_countdown with (j := j) (f := f) (cp := cp) (m := m) (n := n);
          component_simpl; assumption.
Qed.

Lemma reachable_stage (c : Component) : reachable c -> stage c.
Proof.
  induction 1 as [firstId g | c c' _ IH Hstep].
  - apply stage_starting with (s := firstId); cbn; try reflexivity.
    + apply lookup_singleton_eq.
    + intros i t H. cbn [mounted timers] in H.
      apply lookup_singleton_Some in H as [<- <-]. tauto.
  - destruct Hstep as [id t k c c' Hid Hcb]. eapply callback_stage; eassumption.
Qed.




(** In every state the CandlestickChart component reaches, exactly one
    of the timers that drive the game is live: the start timeout, the candle
    interval of the round, the crash delay or the countdown interval.  No two
    rounds or countdowns overlap, and the game never runs out of timers. *)
Theorem one_driving_timer (c : Component) :
  reachable c ->
  exists i t,
    timers c !! i = Some t /\ driving t = true
    /\ forall j u, timers c !! j = Some u -> driving u = true -> j = i.
Proof.
  intros Hr. apply reachable_stage in Hr.
  destruct Hr as [s Hs Honly _ _ _
                 | f k cp Hf Hk Honly _ _ _
                 | k cp v latest Hk Honly _ _ _ _
                 | d cp m Hd Honly _ _
                 | j f cp m n Hj Honly _ _ _].
  - exists s, StartTimeout. repeat split; [exact Hs |].
    intros j u Hj Hu. apply Honly in Hj as [-> | [-> _]]; [discriminate | reflexivity].
  - exists k, (CandleInterval cp initialPrice). repeat split; [exact Hk |].
    intros j u Hj Hu.
    apply Honly in Hj as [-> | [[_ ->] | [-> _]]]; [discriminate .. | reflexivity].
  - exists k, (CandleInterval cp v). repeat split; [exact Hk |].
    intros j u Hj Hu. apply Honly in Hj as [-> | [-> _]]; [discriminate | reflexivity].
  - exists d, CrashDelayTimeout. repeat split; [exact Hd |].
    intros j u Hj Hu. apply Honly in Hj as [-> | [-> _]]; [discriminate | reflexivity].
  - exists j, (CountdownInterval f). repeat split; [exact Hj |].
    intros i u Hi Hu.
    apply Honly in Hi as [-> | [[-> _] | [_ ->]]]; [discriminate | reflexivity | discriminate].
Qed.

Lemma one_driving_timer_witness :
  exists i t,
    timers crashed_round !! i = Some t /\ driving t = true
    /\ forall j u, timers crashed_round !! j = Some u -> driving u = true -> j = i.
Proof.
  apply (one_driving_timer crashed_round).
  apply (after_reachable crashed_script). exact crashed_round_run.
Defined.

(** The crash overlay is never rendered: the countdown is positive only
    while [isPreparing] is set (both are written by the same update, two
    seconds after the crash), which the overlay's condition excludes.  For
    the same reason the empty chart never shows its message for a running
    countdown.  The countdown stays within 0..5. *)
Theorem crash_overlay_never_shown (c : Component) :
  reachable c ->
  CandlestickChartView.showingOverlay (gameState c) = false
  /\ CandlestickChartView.emptyChartMessage (gameState c)
     <> "Next round starting..."
  /\ (0 <= countdown (gameState c) <= 5)%Z
  /\ ((0 < countdown (gameState c))%Z ->
      isPreparing (gameState c) = true /\ hasCrashed (gameState c) = true).
Proof.
  intros Hr. apply reachable_stage in Hr.
  unfold CandlestickChartView.showingOverlay, CandlestickChartView.emptyChartMessage.
  destruct Hr as [s _ _ Ha Hc Hn
                 | f k cp _ _ _ _ _ Hg
                 | k cp v latest _ _ _ _ _ Hg
                 | d cp m _ _ _ Hg
                 | j f cp m n _ _ _ Hg Hn].
  - rewrite Hc, Hn. cbn. repeat split; try lia.
    destruct (isPreparing _); discriminate.
  - rewrite Hg. cbn. repeat split; try lia; discriminate.
  - rewrite Hg. cbn. repeat split; try lia; discriminate.
  - rewrite Hg. cbn. repeat split; try lia; discriminate.
  - rewrite Hg. cbn [hasCrashed countdown isActive isPreparing negb andb].
    rewrite andb_false_r. repeat split; try lia; discriminate.
Qed.

Lemma crash_overlay_never_shown_witness :
  CandlestickChartView.showingOverlay (gameState crashed_round) = false
  /\ (0 <= countdown (gameState crashed_round) <= 5)%Z.
Proof.
  destruct (crash_overlay_never_shown crashed_round) as (H1 & _ & H2 & _).
  - apply (after_reachable crashed_script). exact crashed_round_run.
  - split; assumption.
Defined.

Lemma updateGameState_mirrors (f : CrashGameState -> CrashGameState) (c : Component) :
  mirrors (updateGameState f c).
Proof. reflexivity. Qed.

Lemma callback_mirrors (id : nat) (t : Timer) (k : Clock) (c c' : Component) :
  mirrors c -> callback id t k c = Ok c' -> mirrors c'.
Proof.
  intros Hm. destruct t; cbn [callback].
  - intros [= <-]. unfold mirrors, startNewGame, draw. component_simpl.
    destruct (candleIntervalRef c); component_simpl;
      rewrite clear_all_timers; component_simpl; destruct_draws; reflexivity.
  - now intros [= <-].
  - intros [= <-]. unfold mirrors, firstCandleTimeout, draw.
    destruct_draws. component_simpl. exact Hm.
  - unfold candleTick, draw, generatePriceMovement_default.
    destruct (generatePriceMovement _ _ _) as [v' g'].
    destruct (crashTriggered _ _).
    + intros E2. apply crashRound_frame in E2 as (_ & Eg2 & Es2 & _).
      unfold mirrors. rewrite Es2, Eg2. reflexivity.
    + intros E1. apply updateChart_frame in E1 as (_ & _ & _ & Eg & Es).
      unfold mirrors. rewrite Es, Eg. reflexivity.
  - intros [= <-]. reflexivity.
  - intros [= <-]. unfold mirrors, fadeOut.
    destruct (chartData c); component_simpl; exact Hm.
  - intros [= <-]. unfold countdownTick.
    destruct (_ <=? _)%Z; reflexivity.
Qed.

(** The betting context always holds the current game state: in every state
    the component reaches, the latest snapshot it has sent is the one of
    [gameState] (active flag, multiplier and crash point). *)
Theorem bettingSync_mirrors_gameState (c : Component) :
  reachable c -> mirrors c.
Proof.
  induction 1 as [firstId g | c c' _ IH Hstep].
  - reflexivity.
  - destruct Hstep as [id t k c c' _ Hcb]. eapply callback_mirrors; eassumption.
Qed.

Lemma bettingSync_mirrors_gameState_witness :
  mirrors crashed_round
  /\ isGameActive (List.hd (mkSyncState true 0 0) (bettingSync crashed_round))
     = false.
Proof.
  split.
  - apply (bettingSync_mirrors_gameState crashed_round).
    apply (after_reachable crashed_script). exact crashed_round_run.
  - vm_compute. reflexivity.
Defined.

(** While a round is active, the multiplier of the game state is the close
    of the latest candle.  The effect that copies that close into the
    multiplier after every change of the chart therefore never changes the
    game state: at most it sends the current snapshot once more. *)
Theorem syncMultiplier_redundant (c : Component) :
  reachable c ->
  (isActive (gameState c) = true ->
   forall latest, last (chartData c) = Some latest ->
                  multiplier (gameState c) = close latest)
  /\ (CandlestickChartView.syncMultiplier c = c
      \/ CandlestickChartView.syncMultiplier c
         = with_bettingSync (snapshot (gameState c) :: bettingSync c) c).
Proof.
  intros Hr. apply reachable_stage in Hr.
  unfold CandlestickChartView.syncMultiplier.
  destruct Hr as [s _ _ Ha _ _
                 | f k cp _ _ _ _ Hchart Hg
                 | k cp v latest _ _ _ Hlast Hclose Hg
                 | d cp m _ _ _ Hg
                 | j f cp m n _ _ _ Hg _].
  - rewrite Ha. split; [discriminate |]. left. now destruct (last (chartData c)).
  - rewrite Hchart. cbn [last]. split; [discriminate | now left].
  - rewrite Hlast, Hg. cbn [isActive multiplier]. split.
    + intros _ latest' [= <-]. now rewrite Hclose.
    + right. rewrite Hclose. destruct c as [gs cd tp bs cr tm ni rd].
      cbn in Hg. subst gs. reflexivity.
  - rewrite Hg. cbn [isActive]. split; [discriminate |].
    left. now destruct (last (chartData c)).
  - rewrite Hg. cbn [isActive]. split; [discriminate |].
    left. now destruct (last (chartData c)).
Qed.

Lemma syncMultiplier_redundant_witness :
  (isActive (gameState running_round) = true ->
   forall latest, last (chartData running_round) = Some latest ->
                  multiplier (gameState running_round) = close latest)
  /\ (CandlestickChartView.syncMultiplier running_round = running_round
      \/ CandlestickChartView.syncMultiplier running_round
         = with_bettingSync
             (snapshot (gameState running_round) :: bettingSync running_round)
             running_round).
Proof.
  apply (syncMultiplier_redundant running_round).
  exact (after_reachable running_script running_round running_round_run).
Defined.



(** ** The dirty rectangle manager *)

Lemma covers_refl (r : CanvasUtils.Rectangle) : covers r r.
Proof. unfold covers. repeat split; apply Qle_refl. Qed.

Lemma covers_trans (a b c : CanvasUtils.Rectangle) :
  covers a b -> covers b c -> covers a c.
Proof. unfold covers. intros (? & ? & ? & ?) (? & ? & ? & ?). repeat split; lra. Qed.

Lemma mergeRects_covers (a b : CanvasUtils.Rectangle) :
  covers (CanvasUtils.mergeRects a b) a /\ covers (CanvasUtils.mergeRects a b) b.
Proof.
  unfold covers, CanvasUtils.mergeRects. cbn.
  q_minmax. repeat split; lra.
Qed.

Lemma mergeIntoFirst_covers (rect : CanvasUtils.Rectangle)
    (merged merged' : list CanvasUtils.Rectangle) :
  CanvasUtils.mergeIntoFirst rect merged = Some merged' ->
  all_covered merged' (rect :: merged) /\ length merged' = length merged.
Proof.
  revert merged'. induction merged as [| m rest IH]; intros merged'; cbn; [discriminate |].
  destruct (CanvasUtils.rectsOverlap rect m).
  - intros [= <-]. split; [| reflexivity].
    destruct (mergeRects_covers rect m) as [H1 H2].
    intros r [<- | [<- | Hr]].
    + eexists. split; [left; reflexivity | exact H1].
    + eexists. split; [left; reflexivity | exact H2].
    + exists r. split; [now right | apply covers_refl].
  - destruct (CanvasUtils.mergeIntoFirst rect rest) as [rest' |]; [| discriminate].
    intros [= <-]. destruct (IH rest' eq_refl) as [Hc Hl].
    split; [| cbn; now rewrite Hl].
    intros r [<- | [<- | Hr]].
    + destruct (Hc rect (or_introl eq_refl)) as (m' & Hin & Hm').
      exists m'. split; [now right | exact Hm'].
    + exists m. split; [now left | apply covers_refl].
    + destruct (Hc r (or_intror Hr)) as (m' & Hin & Hm').
      exists m'. split; [now right | exact Hm'].
Qed.

Lemma all_covered_trans (a b c : list CanvasUtils.Rectangle) :
  all_covered a b -> all_covered b c -> all_covered a c.
Proof.
  intros Hab Hbc r Hr. destruct (Hbc r Hr) as (m & Hm & Hmr).
  destruct (Hab m Hm) as (m' & Hm' & Hmm). exists m'. split; [exact Hm' |].
  eapply covers_trans; eassumption.
Qed.

Lemma merge_loop_covers (rects merged : list CanvasUtils.Rectangle) :
  let result :=
    fold_left (fun merged rect =>
                 match CanvasUtils.mergeIntoFirst rect merged with
                 | Some merged' => merged'
                 | None => merged ++ [rect]
                 end) rects merged in
  all_covered result (merged ++ rects)
  /\ (length result <= length merged + length rects)%nat.
Proof.
  revert merged. induction rects as [| rect rects IH]; intros merged; cbn [fold_left].
  - rewrite app_nil_r. split; [| cbn; lia].
    intros r Hr. exists r. split; [exact Hr | apply covers_refl].
  - destruct (CanvasUtils.mergeIntoFirst rect merged) as [merged' |] eqn:E.
    + apply mergeIntoFirst_covers in E as [Hc Hl].
      destruct (IH merged') as [IHc IHl]. split; [| cbn [length]; lia].
      eapply all_covered_trans; [exact IHc |].
      intros r Hr. apply in_app_or in Hr as [Hr | [<- | Hr]].
      * destruct (Hc r (or_intror Hr)) as (m & Hm & Hmr).
        exists m. split; [apply in_or_app; now left | exact Hmr].
      * destruct (Hc rect (or_introl eq_refl)) as (m & Hm & Hmr).
        exists m. split; [apply in_or_app; now left | exact Hmr].
      * exists r. split; [apply in_or_app; now right | apply covers_refl].
    + destruct (IH (merged ++ [rect])) as [IHc IHl].
      rewrite <- app_assoc in IHc. rewrite length_app in IHl. cbn [length] in *.
      split; [exact IHc | lia].
Qed.

Lemma getDirtyRects_all_covered (m : CanvasUtils.DirtyRectManager) :
  all_covered (CanvasUtils.getDirtyRects m) (CanvasUtils.dirtyRects m).
Proof.
  unfold CanvasUtils.getDirtyRects.
  destruct (CanvasUtils.dirtyRects m) as [| r rects].
  - intros r [].
  - exact (proj1 (merge_loop_covers (r :: rects) [])).
Qed.

(** The consolidated rectangles lose no dirty region: every rectangle that
    was marked is covered by one of the rectangles [getDirtyRects] returns,
    which are no more than the marked ones (and none when none is marked). *)
Theorem getDirtyRects_covers (m : CanvasUtils.DirtyRectManager) :
  all_covered (CanvasUtils.getDirtyRects m) (CanvasUtils.dirtyRects m)
  /\ (length (CanvasUtils.getDirtyRects m) <= length (CanvasUtils.dirtyRects m))%nat
  /\ (CanvasUtils.getDirtyRects m = [] <-> CanvasUtils.dirtyRects m = []).
Proof.
  pose proof (getDirtyRects_all_covered m) as Hc.
  split; [exact Hc |]. revert Hc.
  unfold CanvasUtils.getDirtyRects.
  destruct (CanvasUtils.dirtyRects m) as [| r rects] eqn:E; intros Hc.
  - split; [cbn; lia | tauto].
  - destruct (merge_loop_covers (r :: rects) []) as [_ Hl].
    cbn [length Nat.add] in Hl. split; [exact Hl |].
    split; [| discriminate].
    intros Hnil. rewrite Hnil in Hc.
    destruct (Hc r (or_introl eq_refl)) as (? & [] & _).
Qed.

(** [markDirty] appends one rectangle.  For a rectangle inside the canvas it
    covers the rectangle, does not start before the canvas and reaches at most
    2 beyond its right and bottom edges (not beyond them when the rectangle
    starts at least 2 away from the left and top edges); the rectangle is
    then covered by the consolidated rectangles. *)
Theorem markDirty_covers (rect : CanvasUtils.Rectangle)
    (m : CanvasUtils.DirtyRectManager) :
  0 <= CanvasUtils.x rect -> 0 <= CanvasUtils.y rect ->
  CanvasUtils.x rect + CanvasUtils.width rect <= CanvasUtils.canvas_width m ->
  CanvasUtils.y rect + CanvasUtils.height rect <= CanvasUtils.canvas_height m ->
  exists expanded,
    CanvasUtils.dirtyRects (CanvasUtils.markDirty rect m)
    = CanvasUtils.dirtyRects m ++ [expanded]
    /\ covers expanded rect
    /\ 0 <= CanvasUtils.x expanded /\ 0 <= CanvasUtils.y expanded
    /\ CanvasUtils.x expanded + CanvasUtils.width expanded
       <= CanvasUtils.canvas_width m + 2
    /\ CanvasUtils.y expanded + CanvasUtils.height expanded
       <= CanvasUtils.canvas_height m + 2
    /\ (2 <= CanvasUtils.x rect ->
        CanvasUtils.x expanded + CanvasUtils.width expanded
        <= CanvasUtils.canvas_width m)
    /\ (2 <= CanvasUtils.y rect ->
        CanvasUtils.y expanded + CanvasUtils.height expanded
        <= CanvasUtils.canvas_height m)
    /\ exists merged,
         In merged (CanvasUtils.getDirtyRects (CanvasUtils.markDirty rect m))
         /\ covers merged rect.
Proof.
  intros Hx Hy Hw Hh. eexists. split; [reflexivity |].
  assert (Hc : covers
                 {| CanvasUtils.x := Qmax 0 (CanvasUtils.x rect - 2);
                    CanvasUtils.y := Qmax 0 (CanvasUtils.y rect - 2);
                    CanvasUtils.width :=
                      Qmin (CanvasUtils.canvas_width m - CanvasUtils.x rect + 2)
                           (CanvasUtils.width rect + 4);
                    CanvasUtils.height :=
                      Qmin (CanvasUtils.canvas_height m - CanvasUtils.y rect + 2)
                           (CanvasUtils.height rect + 4) |} rect).
  { unfold covers. cbn. q_minmax. repeat split; lra. }
  split; [exact Hc |]. cbn.
  repeat split; try (q_minmax; lra); try (intros ?; q_minmax; lra).
  pose proof (getDirtyRects_all_covered (CanvasUtils.markDirty rect m)) as Hall.
  edestruct Hall as (merged & Hin & Hm);
    [cbn [CanvasUtils.markDirty CanvasUtils.dirtyRects];
     apply in_or_app; right; left; reflexivity |].
  exists merged. split; [exact Hin |]. eapply covers_trans; eassumption.
Qed.

(** The drawing effect marks the whole canvas: on a canvas of 800 by 400 the
    appended rectangle reaches to 802 and 402. *)
Lemma markDirty_covers_witness :
  exists expanded,
    CanvasUtils.dirtyRects
      (CanvasUtils.markDirty (CanvasUtils.mkRectangle 0 0 800 400)
         (CanvasUtils.mkDirtyRectManager [] 800 400))
    = [] ++ [expanded]
    /\ covers expanded (CanvasUtils.mkRectangle 0 0 800 400)
    /\ CanvasUtils.x expanded + CanvasUtils.width expanded == 802.
Proof.
  destruct (markDirty_covers (CanvasUtils.mkRectangle 0 0 800 400)
              (CanvasUtils.mkDirtyRectManager [] 800 400))
    as (expanded & E & Hc & _); [cbn; lra .. |].
  exists expanded. split; [exact E |]. split; [exact Hc |].
  injection E as <-. vm_compute. reflexivity.
Defined.

(** ** The quality manager *)

Lemma update_quality_range (now : Q) (m : Performance.AdaptiveQualityManager.t) :
  0.5 <= Performance.AdaptiveQualityManager.qualityLevel m <= 1 ->
  0.5 <= Performance.AdaptiveQualityManager.qualityLevel
           (snd (Performance.AdaptiveQualityManager.update now m)) <= 1.
Proof.
  intros H. unfold Performance.AdaptiveQualityManager.update.
  destruct (Performance.FPSMonitor.update _ _) as [fps mon].
  cbn [snd Performance.AdaptiveQualityManager.qualityLevel].
  destruct (Performance.Number_lt _ _); [q_minmax; lra |].
  destruct (_ && _); [q_minmax; lra | exact H].
Qed.

Lemma quality_after_range (nows : list Q) (m : Performance.AdaptiveQualityManager.t) :
  0.5 <= Performance.AdaptiveQualityManager.qualityLevel m <= 1 ->
  0.5 <= Performance.AdaptiveQualityManager.qualityLevel (quality_after nows m) <= 1.
Proof.
  revert m. induction nows as [| now nows IH]; intros m H; cbn [quality_after fold_left].
  - exact H.
  - apply IH. now apply update_quality_range.
Qed.

(** Whatever the frame rate, the quality level of a quality manager stays
    within [0.5, 1].  Hence the drawing effect never takes its fallback for a
    zero level and never turns image smoothing off (that needs a level of at
    most 0.3), and the features of the rendering configuration are nested:
    subpixel rendering implies dirty rectangles, which imply layer separation. *)
Theorem quality_level_bounded (minFPS targetFPS now0 : Q) (nows : list Q) :
  let m := quality_after nows
             (Performance.AdaptiveQualityManager.new minFPS targetFPS now0) in
  let q := Performance.AdaptiveQualityManager.getQualityLevel m in
  let config := Performance.AdaptiveQualityManager.getRenderingConfig m in
  0.5 <= q <= 1
  /\ CandlestickChartView.drawingQualityLevel (Some q) = q
  /\ CandlestickChartView.imageSmoothing q <> CandlestickChartView.SmoothingOff
  /\ (Performance.AdaptiveQualityManager.enableSubpixelRendering config = true ->
      Performance.AdaptiveQualityManager.enableDirtyRects config = true)
  /\ (Performance.AdaptiveQualityManager.enableDirtyRects config = true ->
      Performance.AdaptiveQualityManager.enableLayerSeparation config = true).
Proof.
  intros m q config.
  assert (Hq : 0.5 <= q <= 1).
  { apply quality_after_range. cbn. lra. }
  split; [exact Hq |].
  unfold CandlestickChartView.drawingQualityLevel, CandlestickChartView.imageSmoothing,
    config, Performance.AdaptiveQualityManager.getRenderingConfig.
  cbn [Performance.AdaptiveQualityManager.enableSubpixelRendering
       Performance.AdaptiveQualityManager.enableDirtyRects
       Performance.AdaptiveQualityManager.enableLayerSeparation].
  fold q. unfold Qgtb.
  repeat split.
  - destruct (Qeq_bool q 0) eqn:E; [| reflexivity].
    apply Qeq_bool_iff in E. lra.
  - q_compare; try discriminate; lra.
  - intros H. apply Qltb_lt in H. apply Qltb_lt. lra.
  - intros H. apply Qltb_lt in H. apply Qltb_lt. lra.
Qed.

(** ** The frame monitor *)

Lemma monitor_after_snoc (nows : list Q) (now : Q) (m : Performance.FPSMonitor.t) :
  monitor_after (nows ++ [now]) m
  = snd (Performance.FPSMonitor.update now (monitor_after nows m)).
Proof. unfold monitor_after. now rewrite fold_left_app. Qed.

(** The monitor keeps the last 60 frame times and counts every update; during
    the first nine updates it reports its initial 60 frames per second,
    whatever the clock says. *)
Theorem fps_window (now0 : Q) (nows : list Q) :
  let m := monitor_after nows (Performance.FPSMonitor.new now0) in
  length (Performance.FPSMonitor.frames m) = Nat.min (length nows) 60
  /\ Performance.FPSMonitor.frameCount m = Z.of_nat (length nows)
  /\ ((length nows < 10)%nat ->
      Performance.FPSMonitor.getFPS m = Performance.Finite 60).
Proof.
  induction nows as [| now nows IH] using rev_ind.
  - cbn. repeat split.
  - rewrite monitor_after_snoc. cbv zeta in IH.
    destruct IH as (Hlen & Hcount & Hfps).
    set (m := monitor_after nows (Performance.FPSMonitor.new now0)) in *.
    rewrite length_app. cbn [length].
    unfold Performance.FPSMonitor.update, Performance.FPSMonitor.getFPS.
    cbn [snd Performance.FPSMonitor.frames Performance.FPSMonitor.frameCount
         Performance.FPSMonitor.currentFPS].
    rewrite length_app, Hlen, Hcount. cbn [length].
    repeat split.
    + destruct (60 <? _)%nat eqn:E.
      * apply Nat.ltb_lt in E.
        destruct (Performance.FPSMonitor.frames m) as [| f fs];
          simpl in *; rewrite ?length_app; simpl; lia.
      * apply Nat.ltb_ge in E. rewrite length_app, Hlen. cbn [length]. lia.
    + lia.
    + intros Hn.
      destruct (_ =? 0)%Z eqn:E.
      * apply Z.eqb_eq in E.
        assert (H : (0 < Z.of_nat (length nows) + 1 < 10)%Z) by lia.
        rewrite Z.mod_small in E by lia. lia.
      * apply Hfps. lia.
Qed.

Lemma sum_from (l : list Q) (a : Q) : fold_left Qplus l a == a + Performance.sum l.
Proof.
  unfold Performance.sum. revert a.
  induction l as [| x l IH]; intros a; cbn [fold_left].
  - lra.
  - rewrite (IH (a + x)), (IH (0 + x)). lra.
Qed.

Lemma sum_constant (d : Q) (l : list Q) :
  Forall (fun f => f == d) l -> Performance.sum l == Performance.size l * d.
Proof.
  unfold Performance.size.
  induction 1 as [| x l Hx _ IH].
  - unfold Performance.sum. cbn. ring.
  - unfold Performance.sum. cbn [fold_left length].
    rewrite sum_from, IH, Nat2Z.inj_succ, <- Z.add_1_l, inject_Z_plus.
    rewrite Hx. change (inject_Z 1) with 1. lra.
Qed.

Lemma size_pos (l : list Q) : l <> [] -> 0 < Performance.size l.
Proof.
  intros H. unfold Performance.size. destruct l as [| x l]; [congruence |].
  change 0 with (inject_Z 0). rewrite <- Zlt_Qlt. cbn [length]. lia.
Qed.

Lemma steady_clock_snoc (now0 d : Q) (n : nat) :
  steady_clock now0 d (S n)
  = steady_clock now0 d n ++ [now0 + inject_Z (Z.of_nat (S n)) * d].
Proof. unfold steady_clock. rewrite seq_S, map_app. reflexivity. Qed.

Lemma steady_monitor (now0 d : Q) (n : nat) :
  0 < d ->
  let m := monitor_after (steady_clock now0 d n) (Performance.FPSMonitor.new now0) in
  Forall (fun f => f == d) (Performance.FPSMonitor.frames m)
  /\ Performance.FPSMonitor.lastTime m == now0 + inject_Z (Z.of_nat n) * d
  /\ Performance.FPSMonitor.currentFPS m
     = if (n <? 10)%nat then Performance.Finite 60
       else Performance.Finite (inject_Z (Performance.Math_round (1000 / d))).
Proof.
  intros Hd. induction n as [| n IH].
  - split; [apply List.Forall_nil | split; [cbn; ring | reflexivity]].
  - cbv zeta in *. rewrite steady_clock_snoc, monitor_after_snoc.
    pose proof (fps_window now0 (steady_clock now0 d n)) as (Hlen & Hcount & _).
    unfold steady_clock in Hlen, Hcount. rewrite length_map, length_seq in Hlen, Hcount.
    fold (steady_clock now0 d n) in Hlen, Hcount.
    destruct IH as (Hall & Hlast & Hfps).
    set (m := monitor_after (steady_clock now0 d n) (Performance.FPSMonitor.new now0)) in *.
    unfold Performance.FPSMonitor.update.
    cbn [snd Performance.FPSMonitor.frames Performance.FPSMonitor.lastTime
         Performance.FPSMonitor.currentFPS].
    set (delta := now0 + inject_Z (Z.of_nat (S n)) * d - Performance.FPSMonitor.lastTime m).
    assert (Hdelta : delta == d).
    { unfold delta. rewrite Hlast, Nat2Z.inj_succ, <- Z.add_1_l, inject_Z_plus.
      change (inject_Z 1) with 1. lra. }
    set (window := if (60 <? _)%nat then _ else _).
    assert (Hwindow : Forall (fun f => f == d) window /\ window <> []).
    { assert (H : Forall (fun f => f == d) (Performance.FPSMonitor.frames m ++ [delta])).
      { apply Forall_app. split; [exact Hall |].
        apply List.Forall_cons; [exact Hdelta | apply List.Forall_nil]. }
      unfold window. destruct (60 <? _)%nat eqn:E.
      - apply Nat.ltb_lt in E. rewrite length_app, Hlen in E. cbn [length] in E.
        destruct (Performance.FPSMonitor.frames m) as [| f [| f' fs]];
          cbn [length] in Hlen; [lia | lia |].
        cbn [app tl]. split; [| discriminate].
        cbn [app] in H. now inversion H.
      - split; [exact H |]. now destruct (Performance.FPSMonitor.frames m). }
    destruct Hwindow as [Hall' Hne].
    split; [exact Hall' | split; [apply Qeq_refl |]].
    rewrite Hcount.
    destruct (_ =? 0)%Z eqn:E.
    + apply Z.eqb_eq in E.
      assert (Hn : (10 <= S n)%nat).
      { destruct (Nat.lt_ge_cases (S n) 10) as [Hlt | Hge]; [| exact Hge].
        rewrite Z.mod_small in E by lia. lia. }
      apply Nat.ltb_ge in Hn. rewrite Hn.
      assert (Havg : Performance.sum window / Performance.size window == d).
      { rewrite sum_constant by exact Hall'.
        pose proof (size_pos window Hne). field. lra. }
      destruct (Qeq_bool _ 0) eqn:Ez.
      * apply Qeq_bool_iff in Ez. rewrite Havg in Ez. lra.
      * do 2 f_equal. unfold Performance.Math_round.
        apply Qfloor_comp. rewrite Havg. reflexivity.
    + rewrite Hfps. apply Z.eqb_neq in E.
      destruct (n <? 10)%nat eqn:E1, (S n <? 10)%nat eqn:E2; try reflexivity.
      * apply Nat.ltb_lt in E1. apply Nat.ltb_ge in E2.
        assert (n = 9%nat) by lia. subst n. exfalso. apply E. reflexivity.
      * apply Nat.ltb_ge in E1. apply Nat.ltb_lt in E2. lia.
Qed.

Lemma quality_after_snoc (nows : list Q) (now : Q)
    (m : Performance.AdaptiveQualityManager.t) :
  quality_after (nows ++ [now]) m
  = snd (Performance.AdaptiveQualityManager.update now (quality_after nows m)).
Proof. unfold quality_after. now rewrite fold_left_app. Qed.

Lemma quality_monitor (nows : list Q) (m : Performance.AdaptiveQualityManager.t) :
  Performance.AdaptiveQualityManager.fpsMonitor (quality_after nows m)
  = monitor_after nows (Performance.AdaptiveQualityManager.fpsMonitor m)
  /\ Performance.AdaptiveQualityManager.minFPS (quality_after nows m)
     = Performance.AdaptiveQualityManager.minFPS m
  /\ Performance.AdaptiveQualityManager.targetFPS (quality_after nows m)
     = Performance.AdaptiveQualityManager.targetFPS m.
Proof.
  induction nows as [| now nows IH] using rev_ind.
  - repeat split.
  - rewrite quality_after_snoc, monitor_after_snoc.
    destruct IH as (IH1 & IH2 & IH3).
    unfold Performance.AdaptiveQualityManager.update.
    rewrite IH1, IH2, IH3.
    destruct (Performance.FPSMonitor.update _ _) as [fps mon].
    repeat split.
Qed.

(** The frame rate measured on a steady clock.  When the monitor is updated
    every [d] milliseconds it reports [Math.round(1000 / d)] from the tenth
    update on.  A default quality manager (30 and 60 frames per second) then
    keeps the quality level at 1.0 if that rate is at least 30, and
    otherwise lowers it by 0.1 per update, from the tenth update on, down to
    0.5. *)
Theorem steady_frame_rate (now0 d : Q) (n : nat) :
  0 < d ->
  let fps := Performance.Math_round (1000 / d) in
  let m := quality_after (steady_clock now0 d n)
             (Performance.AdaptiveQualityManager.new_default now0) in
  Performance.AdaptiveQualityManager.getCurrentFPS m
  = (if (n <? 10)%nat then Performance.Finite 60
     else Performance.Finite (inject_Z fps))
  /\ ((30 <= fps)%Z -> Performance.AdaptiveQualityManager.getQualityLevel m = 1.0)
  /\ ((fps < 30)%Z ->
      Performance.AdaptiveQualityManager.getQualityLevel m
      == Qmax 0.5 (1 - 0.1 * inject_Z (Z.of_nat (n - 9)))).
Proof.
  intros Hd fps.
  assert (Hfps : forall k,
             Performance.AdaptiveQualityManager.getCurrentFPS
               (quality_after (steady_clock now0 d k)
                  (Performance.AdaptiveQualityManager.new_default now0))
             = (if (k <? 10)%nat then Performance.Finite 60
                else Performance.Finite (inject_Z fps))).
  { intros k. unfold Performance.AdaptiveQualityManager.getCurrentFPS,
      Performance.FPSMonitor.getFPS.
    rewrite (proj1 (quality_monitor _ _)).
    exact (proj2 (proj2 (steady_monitor now0 d k Hd))). }
  cbv zeta. split; [apply Hfps |].
  unfold Performance.AdaptiveQualityManager.getQualityLevel.
  induction n as [| n IH].
  - split; [reflexivity |]. intros _. vm_compute. reflexivity.
  - specialize (Hfps (S n)). revert Hfps.
    rewrite steady_clock_snoc, quality_after_snoc.
    set (m := quality_after (steady_clock now0 d n)
                (Performance.AdaptiveQualityManager.new_default now0)) in *.
    pose proof (quality_monitor (steady_clock now0 d n)
                  (Performance.AdaptiveQualityManager.new_default now0))
      as (_ & Hmin & Htarget).
    fold m in Hmin, Htarget. cbn in Hmin, Htarget.
    unfold Performance.AdaptiveQualityManager.update,
      Performance.AdaptiveQualityManager.getCurrentFPS,
      Performance.FPSMonitor.getFPS.
    rewrite Hmin, Htarget.
    destruct (Performance.FPSMonitor.update _ _) as [current mon] eqn:Eup.
    assert (Hcur : Performance.FPSMonitor.currentFPS mon = current).
    { unfold Performance.FPSMonitor.update in Eup. now injection Eup as <- <-. }
    cbn [snd Performance.AdaptiveQualityManager.fpsMonitor
         Performance.AdaptiveQualityManager.qualityLevel].
    rewrite Hcur. intros ->.
    destruct IH as [IHfast IHslow].
    destruct (S n <? 10)%nat eqn:En.
    + apply Nat.ltb_lt in En.
      cbn [Performance.Number_lt Performance.Number_gt].
      replace (Qltb 60 30) with false by reflexivity.
      replace (Qgtb 60 60) with false by reflexivity.
      cbn [andb]. split; [exact IHfast |].
      intros Hslow. rewrite (IHslow Hslow).
      replace (S n - 9)%nat with 0%nat by lia.
      replace (n - 9)%nat with 0%nat by lia. reflexivity.
    + apply Nat.ltb_ge in En. cbn [Performance.Number_lt Performance.Number_gt].
      split.
      * intros Hfast. rewrite (IHfast Hfast).
        assert (H30 : Qltb (inject_Z fps) 30 = false).
        { apply Qltb_ge. change 30 with (inject_Z 30). now rewrite <- Zle_Qle. }
        rewrite H30. replace (Qltb 1.0 1.0) with false by reflexivity.
        now rewrite andb_false_r.
      * intros Hslow.
        assert (H30 : Qltb (inject_Z fps) 30 = true).
        { apply Qltb_lt. change 30 with (inject_Z 30). now rewrite <- Zlt_Qlt. }
        rewrite H30.
        specialize (IHslow Hslow).
        replace (S n - 9)%nat with (S (n - 9)) by lia.
        rewrite Nat2Z.inj_succ, <- Z.add_1_l, inject_Z_plus.
        change (inject_Z 1) with 1.
        set (k := inject_Z (Z.of_nat (n - 9))) in *.
        q_minmax. lra.
Qed.

Lemma steady_frame_rate_witness :
  Performance.AdaptiveQualityManager.getCurrentFPS
    (quality_after (steady_clock 0 50 20)
       (Performance.AdaptiveQualityManager.new_default 0))
  = Performance.Finite (inject_Z 20)
  /\ Performance.AdaptiveQualityManager.getQualityLevel
       (quality_after (steady_clock 0 50 20)
          (Performance.AdaptiveQualityManager.new_default 0))
     == 0.5.
Proof.
  destruct (steady_frame_rate 0 50 20) as (Hfps & _ & Hslow); [reflexivity |].
  split; [exact Hfps |].
  rewrite Hslow by (vm_compute; reflexivity). vm_compute. reflexivity.
Defined.

(** ** The profiler *)

Lemma trimmed_last (recorded : list Q) (duration : Q) (n : nat) :
  let all := recorded ++ [duration] in
  last (if (S n <? length all)%nat then tl all else all) = Some duration.
Proof.
  cbv zeta. destruct (_ <? _)%nat eqn:E; [| apply last_snoc].
  apply Nat.ltb_lt in E. rewrite length_app in E. cbn [length] in E.
  destruct recorded as [| r recorded]; [cbn [length] in E; lia |].
  cbn [app tl]. apply last_snoc.
Qed.

(** A measurement round trip.  [start] at a time other than 0 followed by
    [end] returns the elapsed time, records it as the latest measurement of
    that name, removes the mark and touches no other name; a second [end]
    returns 0 and changes nothing.  A mark made at time 0 counts as missing:
    [end] returns 0 and records nothing. *)
Theorem profiler_round_trip (name : string) (t0 t1 t2 : Q)
    (p : Performance.PerformanceProfiler.t) :
  ~ t0 == 0 ->
  let started := Performance.PerformanceProfiler.start name t0 p in
  let ended := Performance.PerformanceProfiler.end_ name t1 started in
  fst ended = t1 - t0
  /\ Performance.PerformanceProfiler.marks (snd ended) !! name = None
  /\ (exists recorded,
        Performance.PerformanceProfiler.measurements (snd ended) !! name
        = Some recorded
        /\ last recorded = Some (t1 - t0))
  /\ (forall other, other <> name ->
        Performance.PerformanceProfiler.marks (snd ended) !! other
        = Performance.PerformanceProfiler.marks p !! other
        /\ Performance.PerformanceProfiler.measurements (snd ended) !! other
           = Performance.PerformanceProfiler.measurements p !! other)
  /\ Performance.PerformanceProfiler.end_ name t2 (snd ended) = (0, snd ended)
  /\ Performance.PerformanceProfiler.end_ name t1
       (Performance.PerformanceProfiler.start name 0 p)
     = (0, Performance.PerformanceProfiler.start name 0 p).
Proof.
  intros Ht0. cbv zeta.
  set (started := Performance.PerformanceProfiler.start name t0 p).
  assert (Hend : exists recorded,
             Performance.PerformanceProfiler.end_ name t1 started
             = (t1 - t0,
                Performance.PerformanceProfiler.mk
                  (delete name (<[name := t0]> (Performance.PerformanceProfiler.marks p)))
                  (<[name := recorded]> (Performance.PerformanceProfiler.measurements p)))
             /\ last recorded = Some (t1 - t0)).
  { unfold Performance.PerformanceProfiler.end_, started,
      Performance.PerformanceProfiler.start.
    cbn [Performance.PerformanceProfiler.marks
         Performance.PerformanceProfiler.measurements].
    rewrite lookup_insert_eq.
    destruct (Qeq_bool t0 0) eqn:E; [apply Qeq_bool_iff in E; contradiction |].
    eexists. split; [reflexivity |]. apply (trimmed_last _ _ 99). }
  destruct Hend as (recorded & -> & Hlast).
  cbn [fst snd Performance.PerformanceProfiler.marks
       Performance.PerformanceProfiler.measurements].
  split; [reflexivity |].
  split; [apply lookup_delete_eq |].
  split.
  { exists recorded. split; [apply lookup_insert_eq | exact Hlast]. }
  split.
  { intros other Hne. split.
    - rewrite lookup_delete_ne, lookup_insert_ne by congruence. reflexivity.
    - rewrite lookup_insert_ne by congruence. reflexivity. }
  split.
  - unfold Performance.PerformanceProfiler.end_.
    cbn [Performance.PerformanceProfiler.marks]. now rewrite lookup_delete_eq.
  - unfold Performance.PerformanceProfiler.end_, Performance.PerformanceProfiler.start.
    cbn [Performance.PerformanceProfiler.marks]. rewrite lookup_insert_eq.
    reflexivity.
Qed.

Lemma profiler_round_trip_witness :
  fst (Performance.PerformanceProfiler.end_ "canvas-render" 1016
         (Performance.PerformanceProfiler.start "canvas-render" 1000
            Performance.PerformanceProfiler.new))
  = 1016 - 1000.
Proof.
  apply (profiler_round_trip "canvas-render" 1000 1016 1016
           Performance.PerformanceProfiler.new).
  intros H. discriminate H.
Defined.

(** After any sequence of calls, the profiler holds between 1 and 100
    measurements for every name it has measured, so an average is never taken
    over an empty history. *)
Theorem profiler_history_bounded (calls : list Performance.PerformanceProfiler.Call)
    (name : string) (recorded : list Q) :
  Performance.PerformanceProfiler.measurements (profiler_after calls) !! name
  = Some recorded ->
  (1 <= length recorded <= 100)%nat.
Proof.
  unfold profiler_after. revert name recorded.
  induction calls as [| c calls IH] using rev_ind; intros name recorded.
  - cbn. rewrite lookup_empty. discriminate.
  - rewrite fold_left_app. cbn [fold_left].
    set (p := fold_left _ calls _) in *.
    destruct c as [n now | n now]; cbn [Performance.PerformanceProfiler.call].
    + apply IH.
    + unfold Performance.PerformanceProfiler.end_.
      destruct (Performance.PerformanceProfiler.marks p !! n) as [t |];
        [| apply IH].
      destruct (Qeq_bool t 0); [apply IH |].
      cbn [snd Performance.PerformanceProfiler.measurements].
      intros H. apply lookup_insert_Some in H as [[<- <-] | [_ H]]; [| now apply IH in H].
      assert (Hprev : (length (default [] (Performance.PerformanceProfiler.measurements p !! n))
                       <= 100)%nat).
      { destruct (_ !! n) as [prev |] eqn:Ep; cbn; [| lia].
        apply IH in Ep. lia. }
      set (prev := default [] _) in *.
      destruct (100 <? _)%nat eqn:E.
      * apply Nat.ltb_lt in E. rewrite length_app in E. cbn [length] in E.
        destruct prev as [| x prev]; [cbn [length] in E; lia |].
        cbn [app tl]. rewrite length_app. cbn [length] in *. lia.
      * apply Nat.ltb_ge in E. rewrite length_app in *. cbn [length] in *. lia.
Qed.

Lemma profiler_history_bounded_witness :
  (1 <= length [16] <= 100)%nat.
Proof.
  apply (profiler_history_bounded
           [Performance.PerformanceProfiler.Start "animation-frame" 1000;
            Performance.PerformanceProfiler.End "animation-frame" 1016]
           "animation-frame" [16]).
  vm_compute. reflexivity.
Defined.

(** ** The animation frame manager *)

Lemma filter_self (id : nat) :
  List.filter (fun i => negb (Nat.eqb i id)) [id] = [].
Proof. cbn. now rewrite Nat.eqb_refl. Qed.

Lemma stop_ok (m : Performance.AnimationFrameManager.t) :
  Performance.AnimationFrameManager.pendingFrames m
  = (if Performance.AnimationFrameManager.isRunning m
     then [Performance.AnimationFrameManager.rafId m] else []) ->
  (Performance.AnimationFrameManager.isRunning m = true ->
   Performance.AnimationFrameManager.rafId m <> 0%nat) ->
  (0 < Performance.AnimationFrameManager.nextFrameId m)%nat ->
  Performance.AnimationFrameManager.callbacks m = [] ->
  frame_loop_ok (Performance.AnimationFrameManager.stop m).
Proof.
  intros Hpending Hraf Hnext Hnil.
  unfold Performance.AnimationFrameManager.stop, frame_loop_ok.
  destruct (Nat.eqb _ 0) eqn:E; cbn.
  - apply Nat.eqb_eq in E.
    destruct (Performance.AnimationFrameManager.isRunning m) eqn:Er;
      [now specialize (Hraf eq_refl) |].
    rewrite Hnil. repeat split; try assumption; try discriminate; try tauto.
    apply List.NoDup_nil.
  - rewrite Hnil, Hpending.
    destruct (Performance.AnimationFrameManager.isRunning m);
      [rewrite filter_self |]; repeat split; try assumption; try discriminate;
      try tauto; apply List.NoDup_nil.
Qed.

Lemma handle_ok (e : Performance.AnimationFrameManager.Event)
    (m m' : Performance.AnimationFrameManager.t) :
  frame_loop_ok m ->
  Performance.AnimationFrameManager.handle e m = Some m' -> frame_loop_ok m'.
Proof.
  intros Hok. pose proof Hok as (Hrun & Hpending & Hraf & Hnext & Hdup).
  destruct e as [cb now nowTick | cb | | id now];
    cbn [Performance.AnimationFrameManager.handle].
  - (* addCallback *)
    intros [= <-]. unfold Performance.AnimationFrameManager.addCallback.
    cbn [Performance.AnimationFrameManager.isRunning].
    set (added := if existsb _ _ then _ else _).
    assert (Hadded : added <> [] /\ List.NoDup added).
    { unfold added. destruct (existsb _ _) eqn:E.
      - split; [| exact Hdup]. apply existsb_exists in E as (x & Hx & _).
        intros Hnil. rewrite Hnil in Hx. destruct Hx.
      - split; [now destruct (Performance.AnimationFrameManager.callbacks m) |].
        apply List.NoDup_app; [exact Hdup | |].
        + apply List.NoDup_cons; [intros [] | apply List.NoDup_nil].
        + intros x Hx [<- | []].
          assert (existsb (Nat.eqb cb) (Performance.AnimationFrameManager.callbacks m)
                  = true); [| congruence].
          apply existsb_exists. exists cb. split; [exact Hx | apply Nat.eqb_refl]. }
    destruct Hadded as [Hne Hnd].
    destruct (Performance.AnimationFrameManager.isRunning m) eqn:Er; cbn [negb].
    + unfold frame_loop_ok. cbn. rewrite ?Er.
      repeat split; try assumption; try tauto.
    + unfold Performance.AnimationFrameManager.start,
        Performance.AnimationFrameManager.tick, frame_loop_ok. cbn.
      rewrite ?Hpending. repeat split; try assumption; try tauto; try lia.
  - (* removeCallback *)
    intros [= <-]. unfold Performance.AnimationFrameManager.removeCallback.
    cbn [Performance.AnimationFrameManager.callbacks].
    set (left := List.filter _ _).
    assert (Hleft : List.NoDup left /\ (left <> [] ->
                      Performance.AnimationFrameManager.callbacks m <> [])).
    { split; [now apply List.NoDup_filter |].
      intros Hne Hnil. apply Hne. unfold left. now rewrite Hnil. }
    destruct Hleft as [Hnd Horig].
    destruct left as [| c rest] eqn:El.
    + apply stop_ok; cbn; assumption || reflexivity.
    + unfold frame_loop_ok. cbn.
      assert (Hr : Performance.AnimationFrameManager.isRunning m = true)
        by (apply Hrun, Horig; discriminate).
      rewrite Hr in *. repeat split; try assumption; try discriminate; tauto.
  - (* destroy *)
    intros [= <-]. unfold Performance.AnimationFrameManager.destroy.
    apply stop_ok; cbn; assumption || reflexivity.
  - (* a frame *)
    destruct (existsb _ _) eqn:E; [| discriminate]. intros [= <-].
    apply existsb_exists in E as (x & Hx & Ex). apply Nat.eqb_eq in Ex. subst x.
    rewrite Hpending in Hx |- *.
    destruct (Performance.AnimationFrameManager.isRunning m) eqn:Er; [| destruct Hx].
    destruct Hx as [<- | []].
    unfold Performance.AnimationFrameManager.tick, frame_loop_ok. cbn.
    rewrite ?Er, ?Nat.eqb_refl. cbn.
    repeat split; try assumption; try tauto; try lia.
Qed.

(** The animation loop never double-schedules and never idles: after any
    sequence of calls and frames on a new manager, the loop runs exactly
    while a callback is registered, and the window holds exactly one pending
    frame request while it runs and none once it has stopped. *)
Theorem animation_loop_consistent (lastFrameId : nat)
    (es : list Performance.AnimationFrameManager.Event)
    (m : Performance.AnimationFrameManager.t) :
  Performance.AnimationFrameManager.run es
    (Performance.AnimationFrameManager.new lastFrameId) = Some m ->
  frame_loop_ok m.
Proof.
  assert (Hnew : frame_loop_ok (Performance.AnimationFrameManager.new lastFrameId)).
  { unfold frame_loop_ok. cbn. repeat split; try discriminate; try tauto; try lia.
    apply List.NoDup_nil. }
  revert Hnew. generalize (Performance.AnimationFrameManager.new lastFrameId).
  induction es as [| e es IH]; intros m0 Hok; cbn [Performance.AnimationFrameManager.run].
  - now intros [= <-].
  - destruct (Performance.AnimationFrameManager.handle e m0) as [m1 |] eqn:E;
      [| discriminate].
    apply IH. eapply handle_ok; eassumption.
Qed.

(** Two rounds register their callbacks, three frames run, the callbacks
    are removed: the loop has stopped with no frame request pending. *)
Lemma animation_loop_consistent_witness :
  exists m,
    Performance.AnimationFrameManager.run
      [Performance.AnimationFrameManager.AddCallback 1 0 0;
       Performance.AnimationFrameManager.AddCallback 2 5 5;
       Performance.AnimationFrameManager.Frame 1 16;
       Performance.AnimationFrameManager.Frame 2 32;
       Performance.AnimationFrameManager.RemoveCallback 1;
       Performance.AnimationFrameManager.Frame 3 48;
       Performance.AnimationFrameManager.RemoveCallback 2]
      (Performance.AnimationFrameManager.new 0) = Some m
    /\ frame_loop_ok m
    /\ Performance.AnimationFrameManager.pendingFrames m = []
    /\ length (Performance.AnimationFrameManager.invoked m) = 6%nat.
Proof.
  eexists. split; [vm_compute; reflexivity |].
  split; [| split; reflexivity].
  apply (animation_loop_consistent 0
           [Performance.AnimationFrameManager.AddCallback 1 0 0;
            Performance.AnimationFrameManager.AddCallback 2 5 5;
            Performance.AnimationFrameManager.Frame 1 16;
            Performance.AnimationFrameManager.Frame 2 32;
            Performance.AnimationFrameManager.RemoveCallback 1;
            Performance.AnimationFrameManager.Frame 3 48;
            Performance.AnimationFrameManager.RemoveCallback 2]).
  vm_compute. reflexivity.
Defined.

(** ** Easing *)

Lemma cube_mono (s t : Q) : 0 <= s -> s <= t -> s * s * s <= t * t * t.
Proof.
  intros Hs Hst.
  apply Qmult_le_compat_nonneg; [| split; assumption].
  split; [now apply Qmult_le_0_compat |].
  apply Qmult_le_compat_nonneg; split; assumption.
Qed.

Lemma quart_mono (s t : Q) : 0 <= s -> s <= t -> s * s * s * s <= t * t * t * t.
Proof.
  intros Hs Hst.
  apply Qmult_le_compat_nonneg; [| split; assumption].
  split; [| now apply cube_mono].
  apply Qmult_le_0_compat; [now apply Qmult_le_0_compat | assumption].
Qed.

Lemma Math_pow_3 (x : Q) : Easing.Math_pow x 3 == x * x * x.
Proof. unfold Easing.Math_pow. simpl. ring. Qed.

Lemma Math_pow_4 (x : Q) : Easing.Math_pow x 4 == x * x * x * x.
Proof. unfold Easing.Math_pow. simpl. ring. Qed.

Lemma easeInCubic_curve : easing_curve Easing.easeInCubic.
Proof.
  unfold easing_curve, Easing.easeInCubic.
  split; [ring |]. split; [ring |]. intros s t Hs Hst _. now apply cube_mono.
Qed.

Lemma easeOutCubic_curve : easing_curve Easing.easeOutCubic.
Proof.
  unfold easing_curve, Easing.easeOutCubic.
  split; [rewrite Math_pow_3; ring |]. split; [rewrite Math_pow_3; ring |].
  intros s t Hs Hst Ht. rewrite !Math_pow_3.
  pose proof (cube_mono (1 - t) (1 - s)). lra.
Qed.

Lemma easeInQuart_curve : easing_curve Easing.easeInQuart.
Proof.
  unfold easing_curve, Easing.easeInQuart.
  split; [ring |]. split; [ring |]. intros s t Hs Hst _. now apply quart_mono.
Qed.

Lemma easeOutQuart_curve : easing_curve Easing.easeOutQuart.
Proof.
  unfold easing_curve, Easing.easeOutQuart.
  split; [rewrite Math_pow_4; ring |]. split; [rewrite Math_pow_4; ring |].
  intros s t Hs Hst Ht. rewrite !Math_pow_4.
  pose proof (quart_mono (1 - t) (1 - s)). lra.
Qed.

Lemma easeInOutCubic_curve : easing_curve Easing.easeInOutCubic.
Proof.
  unfold easing_curve, Easing.easeInOutCubic.
  split; [reflexivity |]. split; [reflexivity |].
  intros s t Hs Hst Ht.
  pose proof (cube_mono s t Hs Hst) as H1.
  pose proof (cube_mono (-2 * t + 2) (-2 * s + 2)) as H2.
  pose proof (cube_mono s 0.5 Hs) as H3.
  pose proof (cube_mono (-2 * t + 2) 1) as H4.
  q_compare; rewrite ?Math_pow_3; unfold Qdiv; change (/ 2) with (1 # 2); lra.
Qed.

Lemma easeInOutQuart_curve : easing_curve Easing.easeInOutQuart.
Proof.
  unfold easing_curve, Easing.easeInOutQuart.
  split; [reflexivity |]. split; [reflexivity |].
  intros s t Hs Hst Ht.
  pose proof (quart_mono s t Hs Hst) as H1.
  pose proof (quart_mono (-2 * t + 2) (-2 * s + 2)) as H2.
  pose proof (quart_mono s 0.5 Hs) as H3.
  pose proof (quart_mono (-2 * t + 2) 1) as H4.
  q_compare; rewrite ?Math_pow_4; unfold Qdiv; change (/ 2) with (1 # 2); lra.
Qed.

(** The cubic and quartic curves (and the linear one) start at 0, end at 1
    and never decrease on the unit interval.  Each ease-out curve is its
    ease-in curve turned around, and the in-out curves are symmetric about
    the point (0.5, 0.5). *)
Theorem polynomial_easings (t : Q) :
  Forall easing_curve
    [Easing.linear; Easing.easeInCubic; Easing.easeOutCubic; Easing.easeInOutCubic;
     Easing.easeInQuart; Easing.easeOutQuart; Easing.easeInOutQuart]
  /\ Easing.easeOutCubic t == 1 - Easing.easeInCubic (1 - t)
  /\ Easing.easeOutQuart t == 1 - Easing.easeInQuart (1 - t)
  /\ Easing.easeInOutCubic t + Easing.easeInOutCubic (1 - t) == 1
  /\ Easing.easeInOutQuart t + Easing.easeInOutQuart (1 - t) == 1.
Proof.
  split.
  { repeat (apply List.Forall_cons); try apply List.Forall_nil.
    - unfold easing_curve, Easing.linear. repeat split; try reflexivity.
      intros; assumption.
    - apply easeInCubic_curve.
    - apply easeOutCubic_curve.
    - apply easeInOutCubic_curve.
    - apply easeInQuart_curve.
    - apply easeOutQuart_curve.
    - apply easeInOutQuart_curve. }
  unfold Easing.easeOutCubic, Easing.easeInCubic, Easing.easeOutQuart,
    Easing.easeInQuart, Easing.easeInOutCubic, Easing.easeInOutQuart.
  repeat split.
  - rewrite Math_pow_3. ring.
  - rewrite Math_pow_4. ring.
  - q_compare; rewrite ?Math_pow_3; unfold Qdiv; change (/ 2) with (1 # 2);
      try lra; try ring.
    assert (Et : t == 0.5) by lra. rewrite Et. reflexivity.
  - q_compare; rewrite ?Math_pow_4; unfold Qdiv; change (/ 2) with (1 # 2);
      try lra; try ring.
    assert (Et : t == 0.5) by lra. rewrite Et. reflexivity.
Qed.

Lemma easing_curve_unit (f : Easing.EasingFunction) (t : Q) :
  easing_curve f -> 0 <= t <= 1 -> 0 <= f t <= 1.
Proof.
  intros (H0 & H1 & Hmono) [Ht0 Ht1].
  pose proof (Hmono 0 t (Qle_refl 0) Ht0 Ht1).
  pose proof (Hmono t 1 Ht0 Ht1 (Qle_refl 1)). lra.
Qed.

Lemma scaled_between (from to e : Q) :
  0 <= e <= 1 ->
  Qmin from to <= from + (to - from) * e <= Qmax from to.
Proof.
  intros [He0 He1].
  destruct (Qlt_le_dec to from) as [Hlt | Hle].
  - assert (H1 : 0 <= (from - to) * e) by (apply Qmult_le_0_compat; lra).
    assert (H2 : 0 <= (from - to) * (1 - e)) by (apply Qmult_le_0_compat; lra).
    q_minmax. lra.
  - assert (H1 : 0 <= (to - from) * e) by (apply Qmult_le_0_compat; lra).
    assert (H2 : 0 <= (to - from) * (1 - e)) by (apply Qmult_le_0_compat; lra).
    q_minmax. lra.
Qed.

(** [interpolate] clamps its progress: with an easing curve the result lies
    between [from] and [to], is [from] for a progress of at most 0 and [to]
    for a progress of at least 1, and moves towards [to] as the progress
    grows.  [subpixelInterpolate] computes the same value. *)
Theorem interpolate_clamped (from to progress : Q) (f : Easing.EasingFunction) :
  easing_curve f ->
  Qmin from to <= Easing.interpolate from to progress f <= Qmax from to
  /\ (progress <= 0 -> Easing.interpolate from to progress f == from)
  /\ (1 <= progress -> Easing.interpolate from to progress f == to)
  /\ (forall later, progress <= later -> from <= to ->
        Easing.interpolate from to progress f
        <= Easing.interpolate from to later f)
  /\ Easing.subpixelInterpolate from to progress f
     = Easing.interpolate from to progress f.
Proof.
  intros Hf. pose proof Hf as (H0 & H1 & Hmono).
  unfold Easing.interpolate, Easing.subpixelInterpolate. cbv zeta.
  assert (Hclamp : forall p, 0 <= Qmax 0 (Qmin 1 p) <= 1) by (intros p; q_minmax; lra).
  split; [apply scaled_between, easing_curve_unit; [exact Hf | apply Hclamp] |].
  split.
  { intros Hp.
    assert (Hz : Qmax 0 (Qmin 1 progress) <= 0) by (q_minmax; lra).
    pose proof (Hmono _ 0 (proj1 (Hclamp progress)) Hz ltac:(lra)) as Hle.
    pose proof (easing_curve_unit f _ Hf (Hclamp progress)) as Hu.
    assert (E : f (Qmax 0 (Qmin 1 progress)) == 0) by lra.
    rewrite E. ring. }
  split.
  { intros Hp.
    assert (Hz : 1 <= Qmax 0 (Qmin 1 progress)) by (q_minmax; lra).
    pose proof (Hmono 1 _ ltac:(lra) Hz (proj2 (Hclamp progress))) as Hle.
    pose proof (easing_curve_unit f _ Hf (Hclamp progress)) as Hu.
    assert (E : f (Qmax 0 (Qmin 1 progress)) == 1) by lra.
    rewrite E. ring. }
  split; [| reflexivity].
  intros later Hlater Hft.
  assert (Hc : Qmax 0 (Qmin 1 progress) <= Qmax 0 (Qmin 1 later)) by (q_minmax; lra).
  pose proof (Hmono _ _ (proj1 (Hclamp progress)) Hc (proj2 (Hclamp later))) as Hle.
  assert (H : 0 <= (to - from) * (f (Qmax 0 (Qmin 1 later)) - f (Qmax 0 (Qmin 1 progress))))
    by (apply Qmult_le_0_compat; lra).
  lra.
Qed.

Lemma interpolate_clamped_witness :
  Qmin 1 2 <= Easing.interpolate 1 2 0.5 Easing.easeOutCubic <= Qmax 1 2
  /\ Easing.interpolate 1 2 0.5 Easing.easeOutCubic == 1.875.
Proof.
  split.
  - apply (interpolate_clamped 1 2 0.5 Easing.easeOutCubic). exact easeOutCubic_curve.
  - vm_compute. reflexivity.
Defined.

(** ** The smooth interpolation of CandlestickChart *)

(** One frame of the smooth interpolation, whatever its closure holds: the
    result lies between the previous and the target price, and is the target
    itself once the two are closer than the threshold (0.0001 above 30
    frames per second, 0.001 otherwise).  For a quality level of at most 1
    the quality test changes nothing. *)
Theorem animatePrice_contract (targetPrice : Q)
    (smoothState : CandlestickChartView.SmoothState)
    (currentFPS : Q) (qualityLevel : option Q) (now prev : Q) :
  easing_curve (CandlestickChartView.easingFunction smoothState) ->
  let next := CandlestickChartView.animatePrice targetPrice smoothState currentFPS
                qualityLevel now prev in
  let threshold := if Qgtb currentFPS 30 then 0.0001 else 0.001 in
  Qmin prev targetPrice <= next <= Qmax prev targetPrice
  /\ (Qabs (targetPrice - prev) < threshold -> next = targetPrice)
  /\ (forall quality, qualityLevel = Some quality -> quality <= 1 ->
        next = CandlestickChartView.animatePrice targetPrice smoothState
                 currentFPS None now prev).
Proof.
  intros Hf. cbv zeta. unfold CandlestickChartView.animatePrice. cbv zeta.
  set (eased := Easing.subpixelInterpolate _ _ _ _).
  assert (He : Qmin prev targetPrice <= eased <= Qmax prev targetPrice).
  { unfold eased.
    rewrite (proj2 (proj2 (proj2 (proj2 (interpolate_clamped prev targetPrice _ _ Hf))))).
    apply interpolate_clamped. exact Hf. }
  assert (Ht : Qmin prev targetPrice <= targetPrice <= Qmax prev targetPrice)
    by (q_minmax; lra).
  set (threshold := if Qgtb currentFPS 30 then 0.0001 else 0.001).
  assert (Hthr : 0.0001 <= threshold).
  { unfold threshold. destruct (Qgtb currentFPS 30); lra. }
  split; [| split].
  - destruct qualityLevel as [q |]; repeat (destruct (Qltb _ _)); assumption.
  - intros Hnear. apply Qltb_lt in Hnear. rewrite Hnear.
    destruct qualityLevel as [q |]; [destruct (Qltb (Qabs _) (q * _)) |];
      reflexivity.
  - intros q -> Hq.
    destruct (Qltb (Qabs _) (q * 0.0001)) eqn:E; [| reflexivity].
    apply Qltb_lt in E.
    assert (Hnear : Qabs (targetPrice - prev) < threshold) by lra.
    apply Qltb_lt in Hnear. now rewrite Hnear.
Qed.

Lemma animatePrice_contract_witness :
  CandlestickChartView.animatePrice 2 CandlestickChartView.initialSmoothState 60
    (Some 1) 1075 1 == 1
  /\ Qmin 1 2
     <= CandlestickChartView.animatePrice 2
          (CandlestickChartView.mkSmoothState true Easing.easeOutCubic 1000 150 0 0)
          60 (Some 1) 1075 1
     <= Qmax 1 2.
Proof.
  split; [vm_compute; reflexivity |].
  apply (animatePrice_contract 2
           (CandlestickChartView.mkSmoothState true Easing.easeOutCubic 1000 150 0 0)
           60 (Some 1) 1075 1).
  exact easeOutCubic_curve.
Defined.

Lemma closure_animatePrice_initial (qualityLevel : option Q) (now : Q) :
  CandlestickChartView.closure_animatePrice qualityLevel now 1.0 = 1.0.
Proof.
  unfold CandlestickChartView.closure_animatePrice,
    CandlestickChartView.animatePrice. cbv zeta.
  replace (Qltb (Qabs (1.0 - 1.0)) (if Qgtb 60 30 then 0.0001 else 0.001))
    with true by reflexivity.
  now destruct (match qualityLevel with Some _ => _ | None => _ end).
Qed.

Lemma currentPrice_after_initial (frames : list (option Q * Q)) :
  CandlestickChartView.currentPrice_after frames = 1.0.
Proof.
  unfold CandlestickChartView.currentPrice_after, initialPrice.
  induction frames as [| [q t] frames IH]; cbn [fold_left fst snd]; [reflexivity |].
  rewrite closure_animatePrice_initial. exact IH.
Qed.

(** With the state its closure holds (that of the first render: target 1.0,
    animation start 0), a frame of the smooth interpolation makes no progress:
    it returns the previous price, or 1.0 when that is within the threshold.
    The price shown therefore stays at the initial 1.0 through every frame. *)
Theorem smooth_interpolation_inert (qualityLevel : option Q) (now prev : Q)
    (frames : list (option Q * Q)) :
  (CandlestickChartView.closure_animatePrice qualityLevel now prev == prev
   \/ CandlestickChartView.closure_animatePrice qualityLevel now prev = 1.0)
  /\ CandlestickChartView.currentPrice_after frames = 1.0.
Proof.
  split; [| apply currentPrice_after_initial].
  unfold CandlestickChartView.closure_animatePrice,
    CandlestickChartView.animatePrice. cbv zeta.
  cbn [CandlestickChartView.animationStartTime
       CandlestickChartView.animationDuration
       CandlestickChartView.easingFunction
       CandlestickChartView.initialSmoothState].
  replace (Qeq_bool 0 0) with true by reflexivity.
  destruct (match qualityLevel with Some _ => _ | None => _ end); [now right |].
  destruct (Qltb _ _); [now right |]. left.
  unfold Easing.subpixelInterpolate, Easing.easeOutCubic. cbv zeta.
  rewrite Math_pow_3.
  assert (Hz : (now - now) / 150 == 0) by (field; discriminate).
  set (x := (now - now) / 150) in *.
  assert (Hc : Qmax 0 (Qmin 1 (Qmin x 1)) == 0) by (q_minmax; lra).
  rewrite Hc. ring.
Qed.

(** ** The layout of the candles *)

Lemma candleLayout_fits (n : nat) (availableWidth : Q) :
  0 < availableWidth ->
  let totalCandles := inject_Z (Z.of_nat (S n)) in
  let layout := CandlestickChartView.candleLayout (S n) availableWidth in
  0 < fst layout /\ 0 < snd layout
  /\ totalCandles * (fst layout + snd layout) - snd layout <= availableWidth.
Proof.
  intros HW. cbv zeta. unfold CandlestickChartView.candleLayout.
  set (N := inject_Z (Z.of_nat (S n))).
  assert (HN : 1 <= N).
  { unfold N. change 1 with (inject_Z 1). rewrite <- Zle_Qle. lia. }
  cbv zeta. unfold Qleb.
  destruct (Qle_bool _ availableWidth) eqn:E1.
  - apply Qle_bool_iff in E1. cbn [fst snd]. repeat split; [reflexivity .. | exact E1].
  - set (unitWidth := availableWidth / (N * 1.2 - 0.2)).
    set (cw := Qmax 2 unitWidth). set (cs := Qmax 1 (cw * 0.2)).
    assert (Hcw : 2 <= cw) by (unfold cw; q_minmax; lra).
    assert (Hcs : 1 <= cs) by (unfold cs; q_minmax; lra).
    set (actual := N * (cw + cs) - cs).
    unfold Qgtb. destruct (Qltb availableWidth actual) eqn:E2; cbn [fst snd].
    + apply Qltb_lt in E2.
      set (scale := availableWidth / actual).
      assert (Hscale : 0 < scale).
      { unfold scale. apply Qlt_shift_div_l; lra. }
      assert (Hfit : scale * actual == availableWidth).
      { unfold scale. field. lra. }
      repeat split.
      * apply Qmult_lt_0_compat; lra.
      * apply Qmult_lt_0_compat; lra.
      * assert (H : N * (cw * scale + cs * scale) - cs * scale == scale * actual)
          by (unfold actual; ring).
        rewrite H, Hfit. apply Qle_refl.
    + apply Qltb_ge in E2. repeat split; [lra .. | exact E2].
Qed.

(** When the preferred size does not fit, the layout uses up the whole
    width: on rationals the candles and their spacings add up to exactly the
    available width. *)
Lemma candleLayout_exact (n : nat) (availableWidth : Q) :
  0 < availableWidth ->
  let totalCandles := inject_Z (Z.of_nat (S n)) in
  let layout := CandlestickChartView.candleLayout (S n) availableWidth in
  ~ totalCandles * (20 + 4) - 4 <= availableWidth ->
  totalCandles * (fst layout + snd layout) - snd layout == availableWidth.
Proof.
  intros HW. cbv zeta. unfold CandlestickChartView.candleLayout.
  set (N := inject_Z (Z.of_nat (S n))).
  assert (HN : 1 <= N).
  { unfold N. change 1 with (inject_Z 1). rewrite <- Zle_Qle. lia. }
  cbv zeta. unfold Qleb. intros Hpref.
  destruct (Qle_bool _ availableWidth) eqn:E1.
  { apply Qle_bool_iff in E1. contradiction. }
  set (unitWidth := availableWidth / (N * 1.2 - 0.2)).
  assert (Hunit : unitWidth * (N * 1.2 - 0.2) == availableWidth).
  { unfold unitWidth. field. lra. }
  set (cw := Qmax 2 unitWidth) in *. set (cs := Qmax 1 (cw * 0.2)) in *.
  assert (Hcw : unitWidth <= cw) by (unfold cw; q_minmax; lra).
  assert (Hcs : cw * 0.2 <= cs) by (unfold cs; q_minmax; lra).
  set (actual := N * (cw + cs) - cs).
  unfold Qgtb. destruct (Qltb availableWidth actual) eqn:E2; cbn [fst snd].
  - apply Qltb_lt in E2.
    set (scale := availableWidth / actual).
    assert (Hfit : scale * actual == availableWidth).
    { unfold scale. field. lra. }
    assert (H : N * (cw * scale + cs * scale) - cs * scale == scale * actual)
      by (unfold actual; ring).
    rewrite H. exact Hfit.
  - apply Qltb_ge in E2. apply Qle_antisym; [exact E2 |].
    assert (H1 : (1.2 * unitWidth) * (N - 1) <= (cw + cs) * (N - 1)).
    { apply Qmult_le_compat_r; lra. }
    assert (H2 : (1.2 * unitWidth) * (N - 1) + unitWidth
                 == unitWidth * (N * 1.2 - 0.2)) by ring.
    assert (H3 : actual == (cw + cs) * (N - 1) + cw) by (unfold actual; ring).
    lra.
Qed.

(** Which candles the drawing effect shows.  On a canvas wide enough to
    leave room between the boundaries (more than 220), the layout gives a
    positive candle width and spacing and no candle starts left of the left
    boundary.  Every candle but the newest ends at least one candle step
    (width plus spacing) before the right boundary, so the test that skips
    candles outside the boundaries keeps it.  When the preferred size fits
    (24 per candle, less the last spacing) the sizes are 20 and 4 and the test
    keeps every candle, the newest too.

    When the preferred size does not fit, the layout uses up the whole width
    and the newest candle ends on the right boundary itself; whether the
    test keeps it then hinges on the rounding of the doubles the code
    computes with, which the rationals of this model do not have, and
    nothing is stated about it. *)
Theorem candles_within_boundaries (width : Q) (totalCandles index : nat) :
  CandlestickChartView.leftBoundary < CandlestickChartView.rightBoundary width ->
  (index < totalCandles)%nat ->
  let availableWidth :=
    CandlestickChartView.rightBoundary width - CandlestickChartView.leftBoundary in
  let layout := CandlestickChartView.candleLayout totalCandles availableWidth in
  let candleWidth := fst layout in
  let candleSpacing := snd layout in
  let x := CandlestickChartView.candleX candleWidth candleSpacing index in
  0 < candleWidth /\ 0 < candleSpacing
  /\ CandlestickChartView.leftBoundary <= x
  /\ ((S index < totalCandles)%nat ->
      x + candleWidth + (candleWidth + candleSpacing)
      <= CandlestickChartView.rightBoundary width
      /\ CandlestickChartView.outsideBoundaries width candleWidth x = false)
  /\ (inject_Z (Z.of_nat totalCandles) * (20 + 4) - 4 <= availableWidth ->
      layout = (20, 4)
      /\ CandlestickChartView.outsideBoundaries width candleWidth x = false).
Proof.
  intros Hwide Hindex. cbv zeta.
  destruct totalCandles as [| n]; [lia |].
  set (W := CandlestickChartView.rightBoundary width - CandlestickChartView.leftBoundary).
  assert (HW : 0 < W) by (unfold W; lra).
  destruct (candleLayout_fits n W HW) as (Hcw & Hcs & Hfit).
  assert (Hpref : inject_Z (Z.of_nat (S n)) * (20 + 4) - 4 <= W ->
                  CandlestickChartView.candleLayout (S n) W = (20, 4)).
  { intros H. unfold CandlestickChartView.candleLayout. cbv zeta. unfold Qleb.
    apply Qle_bool_iff in H. now rewrite H. }
  set (layout := CandlestickChartView.candleLayout (S n) W) in *.
  set (cw := fst layout) in *. set (cs := snd layout) in *.
  set (N := inject_Z (Z.of_nat (S n))) in *.
  unfold CandlestickChartView.outsideBoundaries, CandlestickChartView.candleX, Qgtb.
  set (I := inject_Z (Z.of_nat index)).
  assert (HI : 0 <= I /\ I <= N - 1).
  { unfold I, N. split.
    - change 0 with (inject_Z 0). rewrite <- Zle_Qle. lia.
    - change 1 with (inject_Z 1). unfold Qminus. rewrite <- inject_Z_opp, <- inject_Z_plus.
      rewrite <- Zle_Qle. lia. }
  assert (H1 : 0 <= I * (cw + cs)) by (apply Qmult_le_0_compat; lra).
  assert (H2 : I * (cw + cs) <= (N - 1) * (cw + cs))
    by (apply Qmult_le_compat_r; lra).
  assert (Hkeep : Qltb (CandlestickChartView.leftBoundary + I * (cw + cs))
                    CandlestickChartView.leftBoundary
                  || Qltb (CandlestickChartView.rightBoundary width)
                       (CandlestickChartView.leftBoundary + I * (cw + cs) + cw)
                  = false).
  { apply orb_false_iff. split; apply Qltb_ge; unfold W in Hfit; lra. }
  split; [exact Hcw |]. split; [exact Hcs |]. split; [lra |]. split.
  - intros Hearlier. split; [| exact Hkeep].
    assert (HI' : I <= N - 2).
    { unfold I, N. change 2 with (inject_Z 2). unfold Qminus.
      rewrite <- inject_Z_opp, <- inject_Z_plus, <- Zle_Qle. lia. }
    assert (H3 : I * (cw + cs) <= (N - 2) * (cw + cs))
      by (apply Qmult_le_compat_r; lra).
    unfold W in Hfit. lra.
  - intros H. split; [exact (Hpref H) | exact Hkeep].
Qed.

(** 29 candles on a canvas 800 wide: the preferred size does not fit, and the
    candle before the newest is kept. *)
Lemma candles_within_boundaries_witness :
  CandlestickChartView.outsideBoundaries 800
    (fst (CandlestickChartView.candleLayout 29
            (CandlestickChartView.rightBoundary 800
             - CandlestickChartView.leftBoundary)))
    (CandlestickChartView.candleX
       (fst (CandlestickChartView.candleLayout 29
               (CandlestickChartView.rightBoundary 800
                - CandlestickChartView.leftBoundary)))
       (snd (CandlestickChartView.candleLayout 29
               (CandlestickChartView.rightBoundary 800
                - CandlestickChartView.leftBoundary)))
       27) = false.
Proof.
  destruct (candles_within_boundaries 800 29 27) as (_ & _ & _ & H & _);
    [reflexivity | lia |].
  apply H. lia.
Defined.

(** ** The price scale *)

Lemma allPrices_candle (l : list CandleData) (currentPrice : Q) (c : CandleData) :
  In c l ->
  In (high c) (CandlestickChartView.allPrices l currentPrice)
  /\ In (low c) (CandlestickChartView.allPrices l currentPrice).
Proof.
  intros Hc. unfold CandlestickChartView.allPrices.
  split; apply in_or_app; left; apply in_flat_map; exists c; cbn; tauto.
Qed.

Lemma allPrices_nonneg (l : list CandleData) (currentPrice x : Q) :
  Forall sound l -> 0 <= currentPrice ->
  In x (CandlestickChartView.allPrices l currentPrice) -> 0 <= x.
Proof.
  intros Hall Hcur. rewrite List.Forall_forall in Hall.
  assert (Hc : forall c, In c l -> 0 <= low c /\ 0 <= high c).
  { intros c Hin. destruct (Hall c Hin) as [[H1 H2] H3].
    revert H1 H2. q_minmax. lra. }
  unfold CandlestickChartView.allPrices. intros Hx.
  apply in_app_or in Hx as [Hx | Hx].
  - apply in_flat_map in Hx as (c & Hin & [<- | [<- | []]]); now apply Hc.
  - apply in_app_or in Hx as [Hx | Hx].
    + destruct (Qeq_bool currentPrice 0); [destruct Hx |].
      destruct Hx as [<- | []]. exact Hcur.
    + destruct l as [| c l']; [destruct Hx |].
      destruct Hx as [<- | [<- | []]]; apply Hc; now left.
Qed.

Lemma paddingPercent_range (rawRange : Q) :
  0.05 <= CandlestickChartView.paddingPercent rawRange <= 0.15.
Proof.
  unfold CandlestickChartView.paddingPercent.
  destruct (Qeq_bool rawRange 0); q_minmax; lra.
Qed.

Lemma priceScale_encloses (l : list CandleData) (currentPrice : Q) :
  Forall sound l -> l <> [] -> 0 < currentPrice ->
  exists minPrice maxPrice,
    CandlestickChartView.priceScale l currentPrice = Some (minPrice, maxPrice)
    /\ minPrice < maxPrice
    /\ (minPrice <= currentPrice <= maxPrice)
    /\ forall c, In c l ->
         minPrice <= low c /\ low c <= open c <= high c
         /\ low c <= close c <= high c /\ high c <= maxPrice.
Proof.
  intros Hall Hne Hcur. unfold CandlestickChartView.priceScale.
  destruct l as [| c0 l'] eqn:El; [congruence |]. rewrite <- El in *. clear Hne.
  set (prices := CandlestickChartView.allPrices l currentPrice).
  assert (Hcin : In currentPrice prices).
  { unfold prices, CandlestickChartView.allPrices.
    apply in_or_app; right; apply in_or_app; left.
    destruct (Qeq_bool currentPrice 0) eqn:E; [| now left].
    apply Qeq_bool_iff in E. lra. }
  assert (Hpne : prices <> []) by (intros E; rewrite E in Hcin; destruct Hcin).
  destruct (Math_min_list_spec 0 prices Hpne) as [Hmin (xmin & Hxmin & Emin)].
  destruct (Math_max_list_spec 0 prices Hpne) as [Hmax _].
  set (rawMin := Math_min_list 0 prices) in *.
  set (rawMax := Math_max_list 0 prices) in *.
  pose proof (paddingPercent_range (rawMax - rawMin)) as Hp.
  set (p := CandlestickChartView.paddingPercent (rawMax - rawMin)) in *.
  assert (Hmin0 : 0 <= rawMin).
  { rewrite <- Emin. eapply allPrices_nonneg; [exact Hall | | exact Hxmin]. lra. }
  pose proof (Hmin _ Hcin) as Hc1. pose proof (Hmax _ Hcin) as Hc2.
  assert (H1 : 0 <= rawMin * p) by (apply Qmult_le_0_compat; lra).
  assert (H2 : 0 < rawMax * p) by (apply Qmult_lt_0_compat; lra).
  eexists _, _. split; [reflexivity |].
  split; [lra |]. split; [lra |].
  intros c Hc. destruct (allPrices_candle l currentPrice c Hc) as [Hh Hl].
  fold prices in Hh, Hl.
  pose proof (Hmin _ Hl). pose proof (Hmax _ Hh).
  rewrite List.Forall_forall in Hall. destruct (Hall c Hc) as [[Hv1 Hv2] _].
  revert Hv1 Hv2. q_minmax. lra.
Qed.

Lemma normalizeY_inside (height minPrice maxPrice price : Q) :
  2 * CandlestickChartView.padding < height ->
  minPrice < maxPrice -> minPrice <= price <= maxPrice ->
  CandlestickChartView.padding
  <= CandlestickChartView.normalizeY height minPrice maxPrice price
  <= height - CandlestickChartView.padding.
Proof.
  intros Hh Hrange [Hlo Hhi]. unfold CandlestickChartView.normalizeY. cbv zeta.
  set (frac := (price - minPrice) / (maxPrice - minPrice)).
  assert (Hf0 : 0 <= frac).
  { unfold frac. apply Qle_shift_div_l; lra. }
  assert (Hf1 : frac <= 1).
  { unfold frac. apply Qle_shift_div_r; lra. }
  unfold CandlestickChartView.padding in *.
  assert (H1 : 0 <= frac * (height - 2 * 40)) by (apply Qmult_le_0_compat; lra).
  assert (H2 : 0 <= (1 - frac) * (height - 2 * 40)) by (apply Qmult_le_0_compat; lra).
  lra.
Qed.

(** Every candle is drawn inside the plot area.  For a chart the component
    reaches (not empty) and the price the smooth interpolation shows, on a
    canvas higher than twice the padding, the price scale is not degenerate
    and maps the four prices of every candle, and the current price, to y
    positions between the top and the bottom padding; a higher price is drawn
    higher. *)
Theorem candles_on_canvas (c : Component) (frames : list (option Q * Q))
    (height : Q) :
  reachable c -> chartData c <> [] ->
  2 * CandlestickChartView.padding < height ->
  exists minPrice maxPrice,
    CandlestickChartView.priceScale (chartData c)
      (CandlestickChartView.currentPrice_after frames) = Some (minPrice, maxPrice)
    /\ minPrice < maxPrice
    /\ (forall candle price,
          In candle (chartData c) ->
          In price [open candle; high candle; low candle; close candle; 1.0] ->
          CandlestickChartView.padding
          <= CandlestickChartView.normalizeY height minPrice maxPrice price
          <= height - CandlestickChartView.padding)
    /\ (forall p q, p <= q ->
          CandlestickChartView.normalizeY height minPrice maxPrice q
          <= CandlestickChartView.normalizeY height minPrice maxPrice p).
Proof.
  intros Hr Hne Hh. rewrite currentPrice_after_initial.
  destruct (reachable_chart_ok c Hr) as [Hall _].
  destruct (priceScale_encloses (chartData c) 1.0 Hall Hne ltac:(lra))
    as (minPrice & maxPrice & E & Hlt & Hcur & Hin).
  exists minPrice, maxPrice. split; [exact E |]. split; [exact Hlt |]. split.
  - intros candle price Hc Hp. apply normalizeY_inside; [exact Hh | exact Hlt |].
    specialize (Hin candle Hc).
    destruct Hp as [<- | [<- | [<- | [<- | [<- | []]]]]]; lra.
  - intros p q Hpq. unfold CandlestickChartView.normalizeY. cbv zeta.
    unfold CandlestickChartView.padding in *.
    assert (H : 0 <= ((q - minPrice) / (maxPrice - minPrice)
                      - (p - minPrice) / (maxPrice - minPrice)) * (height - 2 * 40)).
    { apply Qmult_le_0_compat; [| lra].
      assert (Ed : (q - minPrice) / (maxPrice - minPrice)
                   - (p - minPrice) / (maxPrice - minPrice)
                   == (q - p) / (maxPrice - minPrice)) by (field; lra).
      rewrite Ed. apply Qle_shift_div_l; lra. }
    lra.
Qed.

Lemma candles_on_canvas_witness :
  exists minPrice maxPrice,
    CandlestickChartView.priceScale (chartData crashed_round)
      (CandlestickChartView.currentPrice_after [(Some 1, 16)])
    = Some (minPrice, maxPrice)
    /\ minPrice < maxPrice.
Proof.
  destruct (candles_on_canvas crashed_round [(Some 1, 16)] 400)
    as (minPrice & maxPrice & E & Hlt & _).
  - apply (after_reachable crashed_script). exact crashed_round_run.
  - vm_compute. discriminate.
  - reflexivity.
  - exists minPrice, maxPrice. split; assumption.
Defined.

(** ** Volume *)

Lemma volume_from (l : list CandleData) (a : Z) :
  fold_left (fun sum candle => (sum + volume_or_0 candle)%Z) l a
  = (a + totalVolume l)%Z.
Proof.
  unfold totalVolume. revert a.
  induction l as [| c l IH]; intros a; cbn [fold_left]; [lia |].
  rewrite (IH (a + volume_or_0 c)%Z), (IH (0 + volume_or_0 c)%Z). lia.
Qed.

Lemma totalVolume_cons (c : CandleData) (l : list CandleData) :
  totalVolume (c :: l) = (volume_or_0 c + totalVolume l)%Z.
Proof. unfold totalVolume at 1. cbn [fold_left]. rewrite volume_from. lia. Qed.

Lemma totalVolume_app (l l' : list CandleData) :
  totalVolume (l ++ l') = (totalVolume l + totalVolume l')%Z.
Proof.
  induction l as [| c l IH]; [reflexivity |].
  cbn [app]. rewrite !totalVolume_cons, IH. lia.
Qed.

Lemma totalVolume_perm (l l' : list CandleData) :
  Permutation l l' -> totalVolume l = totalVolume l'.
Proof.
  induction 1 as [| c l l' _ IH | c d l | l l' l'' _ IH1 _ IH2].
  - reflexivity.
  - rewrite !totalVolume_cons, IH. reflexivity.
  - rewrite !totalVolume_cons. lia.
  - congruence.
Qed.

Lemma aggregateCandles_volume (candles : list CandleData) (merged : CandleData) :
  aggregateCandles candles = Ok merged -> volume_or_0 merged = totalVolume candles.
Proof.
  destruct candles as [| c [| d rest]]; cbn [aggregateCandles].
  - discriminate.
  - intros [= <-]. rewrite totalVolume_cons. unfold totalVolume. cbn. lia.
  - intros [= <-]. cbn [volume_or_0 volume].
    fold (totalVolume (sortByTime (c :: d :: rest))).
    apply totalVolume_perm. exact (sortByTime_perm (c :: d :: rest)).
Qed.

(** Compaction conserves the traded volume: the candles of the compacted
    chart carry together the volume of the original ones.  It leaves every
    candle after the first three in place, and on a chart of at most 102
    candles the cut to the last 100 candles that follows it removes nothing. *)
Theorem compaction_conserves_volume (chartData updated : list CandleData) :
  performCandleAggregation chartData = Ok updated ->
  totalVolume updated = totalVolume chartData
  /\ ((30 <= length chartData)%nat -> tl updated = skipn 3 chartData)
  /\ ((length chartData <= 102)%nat -> slice_last 100 updated = updated).
Proof.
  intros Hagg.
  pose proof (performCandleAggregation_length _ _ Hagg) as Hlen.
  revert Hagg. unfold performCandleAggregation.
  destruct (Nat.ltb_spec (length chartData) 30) as [H | H].
  - intros [= <-]. split; [reflexivity |]. split; [lia |].
    intros _. unfold slice_last.
    replace (length chartData - 100)%nat with 0%nat by lia. reflexivity.
  - destruct (aggregateCandles (firstn 3 chartData)) as [merged |] eqn:E;
      cbn [result_bind]; [| discriminate].
    intros [= <-]. apply aggregateCandles_volume in E.
    split; [| split].
    + rewrite totalVolume_cons, E, <- totalVolume_app, firstn_skipn. reflexivity.
    + reflexivity.
    + intros H102. unfold slice_last.
      destruct Hlen as [[Hlt _] | [_ Hl]]; [lia |].
      replace (length (merged :: skipn 3 chartData) - 100)%nat with 0%nat by lia.
      reflexivity.
Qed.

Lemma compaction_conserves_volume_witness :
  exists updated,
    performCandleAggregation
      (map (fun c => mkCandleData (open c) (high c) (low c) (close c) (time c)
                       (Some 1000000%Z)) full_buffer) = Ok updated
    /\ totalVolume updated = 30000000%Z /\ length updated = 28%nat.
Proof.
  eexists. split; [vm_compute; reflexivity |].
  split; [| reflexivity].
  rewrite (proj1 (compaction_conserves_volume
                    (map (fun c => mkCandleData (open c) (high c) (low c) (close c)
                                     (time c) (Some 1000000%Z)) full_buffer)
                    _ ltac:(vm_compute; reflexivity))).
  vm_compute. reflexivity.
Defined.

Lemma generateVolume_product (baseVolume volatility : Q) (g : RandomSource) :
  uniform_source g -> 0 <= baseVolume -> 0 <= volatility <= 2 ->
  exists x,
    fst (generateVolume baseVolume volatility g) = Qfloor x
    /\ baseVolume * 0.5 * (1 - volatility * 0.5) <= x
    /\ x <= baseVolume * 1.5 * (1 + volatility * 0.5)
    /\ (0 < baseVolume -> x < baseVolume * 1.5 * (1 + volatility * 0.5)).
Proof.
  intros Hg Hb Hv. unfold generateVolume. rand_unfold.
  eexists. split; [reflexivity |].
  destruct (Hg (cursor g)) as [Ha1 Ha2]. destruct (Hg (S (cursor g))) as [Hb1 Hb2].
  set (r1 := draws g (cursor g)) in *. set (r2 := draws g (S (cursor g))) in *.
  set (A := baseVolume * (0.5 + r1)).
  set (B := 1 + (r2 - 0.5) * volatility).
  assert (HA : baseVolume * 0.5 <= A /\ A <= baseVolume * 1.5).
  { unfold A.
    assert (0 <= baseVolume * r1) by (apply Qmult_le_0_compat; lra).
    assert (0 <= baseVolume * (1 - r1)) by (apply Qmult_le_0_compat; lra). lra. }
  assert (HB : 1 - volatility * 0.5 <= B /\ B <= 1 + volatility * 0.5).
  { unfold B.
    assert (0 <= r2 * volatility) by (apply Qmult_le_0_compat; lra).
    assert (0 <= (1 - r2) * volatility) by (apply Qmult_le_0_compat; lra). lra. }
  split; [| split].
  - apply Qmult_le_compat_nonneg; split; try tauto.
    + apply Qmult_le_0_compat; lra.
    + lra.
  - apply Qmult_le_compat_nonneg; split; try tauto; lra.
  - intros Hpos.
    assert (HA' : A < baseVolume * 1.5).
    { unfold A.
      assert (0 < baseVolume * (1 - r1)) by (apply Qmult_lt_0_compat; lra). lra. }
    assert (H1 : A * B <= A * (1 + volatility * 0.5)).
    { rewrite !(Qmult_comm A). apply Qmult_le_compat_r; lra. }
    assert (H2 : 0 < (baseVolume * 1.5 - A) * (1 + volatility * 0.5))
      by (apply Qmult_lt_0_compat; lra).
    lra.
Qed.

(** The volumes the simulation gives its candles.  For uniform draws
    [generateVolume] stays within the bounds its two factors allow; with its
    default arguments a volume lies between 425000 and 1725000 (the upper
    bound excluded), and the volume of a crash candle between 750000 and
    3750000. *)
Theorem generateVolume_range (baseVolume volatility : Q) (g : RandomSource) :
  uniform_source g -> 0 <= baseVolume -> 0 <= volatility <= 2 ->
  (0 <= fst (generateVolume baseVolume volatility g))%Z
  /\ baseVolume * 0.5 * (1 - volatility * 0.5) - 1
     < inject_Z (fst (generateVolume baseVolume volatility g))
  /\ inject_Z (fst (generateVolume baseVolume volatility g))
     <= baseVolume * 1.5 * (1 + volatility * 0.5)
  /\ (425000 <= fst (generateVolume_default g) < 1725000)%Z
  /\ (750000 <= fst (generateVolume 2000000 0.5 g) < 3750000)%Z.
Proof.
  intros Hg Hb Hv.
  destruct (generateVolume_product baseVolume volatility g Hg Hb Hv)
    as (x & -> & Hlo & Hhi & _).
  assert (Hlo0 : 0 <= baseVolume * 0.5 * (1 - volatility * 0.5)).
  { apply Qmult_le_0_compat; [apply Qmult_le_0_compat |]; lra. }
  pose proof (Qfloor_le x) as Hf1. pose proof (Qlt_floor x) as Hf2.
  rewrite inject_Z_plus in Hf2. change (inject_Z 1) with 1 in Hf2.
  split; [| split; [lra | split; [lra |]]].
  { change 0%Z with (Qfloor 0). apply Qfloor_resp_le. lra. }
  assert (Hbounds : forall b v (lo hi : Z),
             0 < b -> 0 <= v <= 2 ->
             inject_Z lo <= b * 0.5 * (1 - v * 0.5) ->
             b * 1.5 * (1 + v * 0.5) <= inject_Z hi ->
             (lo <= fst (generateVolume b v g) < hi)%Z).
  { intros b v lo hi Hb0 Hv0 Hl Hh.
    destruct (generateVolume_product b v g Hg ltac:(lra) Hv0)
      as (y & -> & Hylo & _ & Hyhi).
    specialize (Hyhi Hb0). split.
    - rewrite <- (Qfloor_Z lo). apply Qfloor_resp_le. lra.
    - pose proof (Qfloor_le y). rewrite Zlt_Qlt. lra. }
  split.
  - apply Hbounds; [reflexivity | lra | vm_compute; discriminate ..].
  - apply Hbounds; [reflexivity | lra | vm_compute; discriminate ..].
Qed.

Lemma generateVolume_range_witness :
  (425000 <= fst (generateVolume_default half_draws) < 1725000)%Z
  /\ fst (generateVolume_default half_draws) = 1000000%Z.
Proof.
  split; [| vm_compute; reflexivity].
  apply (generateVolume_range 1000000 0.3 half_draws half_draws_uniform);
    [discriminate | split; discriminate].
Defined.

(** ** The buffer and the snapshots of the CrashChart component *)

Lemma updateCandles_length (newPrice : Q) (prev : list CrashChart.Candle) :
  (length prev <= 50)%nat ->
  (1 <= length (CrashChart.updateCandles newPrice prev) <= 50)%nat.
Proof.
  intros Hlen. unfold CrashChart.updateCandles.
  destruct (last prev) as [lastCandle |] eqn:El; [| cbn; lia].
  apply last_Some in El as [l' ->]. rewrite removelast_last.
  rewrite length_app in Hlen. cbn [length] in Hlen.
  cbv zeta. destruct (_ >=? _)%Z.
  - unfold CrashChart.slice_last. rewrite length_skipn, length_app. cbn [length]. lia.
  - rewrite length_app. cbn [length]. lia.
Qed.

Lemma startGame_ok (st : CrashChart.State) : crashchart_ok (CrashChart.startGame st).
Proof.
  unfold crashchart_ok, CrashChart.startGame.
  destruct (CrashChart.generateCrashPoint _) as [cp g]. cbn.
  repeat split; lia.
Qed.

(** In every state the CrashChart component reaches, the chart holds between
    1 and 50 candles while a round runs and at most 51 after a crash, and the
    latest snapshot sent to the betting context is the one of the current
    state: active exactly in the running phase, with the target price and
    the crash point of the round. *)
Theorem crashchart_consistent (st : CrashChart.State) :
  CrashChart.reachable st -> crashchart_ok st.
Proof.
  induction 1 as [g | st st' _ IH Hstep].
  - unfold crashchart_ok. cbn. repeat split; try discriminate; lia.
  - destruct Hstep as [e st Hen]. destruct IH as (Hrun & Hlen & Hsync).
    destruct e; cbn [CrashChart.handle CrashChart.enabled] in *.
    + apply startGame_ok.
    + destruct (CrashChart.phase st) eqn:Ep; try discriminate.
      specialize (Hrun eq_refl).
      unfold CrashChart.gameTick.
      destruct (CrashChart.nextPrice _ _) as [newPrice g].
      destruct (CrashChart.crashTriggered _ _); unfold crashchart_ok; cbn.
      * rewrite length_app. cbn [length]. repeat split; try discriminate; lia.
      * rewrite Ep. pose proof (updateCandles_length newPrice _ (proj2 Hrun)).
        repeat split; try reflexivity; lia.
    + unfold CrashChart.crashDelayTimeout, crashchart_ok. cbn.
      exact (conj Hrun (conj Hlen Hsync)).
    + unfold CrashChart.countdownTick.
      destruct (_ <=? _)%Z.
      * pose proof (startGame_ok st) as (H1 & H2 & H3).
        unfold crashchart_ok. cbn. exact (conj H1 (conj H2 H3)).
      * unfold crashchart_ok. cbn. exact (conj Hrun (conj Hlen Hsync)).
    + unfold CrashChart.renderFrame, crashchart_ok. cbn.
      exact (conj Hrun (conj Hlen Hsync)).
Qed.

Lemma crashchart_consistent_witness :
  crashchart_ok last_second
  /\ isGameActive (List.hd (mkSyncState true 0 0) (CrashChart.synced last_second))
     = false.
Proof.
  split.
  - apply (crashchart_consistent last_second). exact last_second_reachable.
  - vm_compute. reflexivity.
Defined.

(** ** Trade arrows *)

Lemma closestFrom_nearest (rest seen : list CandleData) (timestamp : Z)
    (closest : option (nat * Z)) :
  nearest seen timestamp closest ->
  nearest (seen ++ rest) timestamp
    (CandlestickChartView.closestFrom (length seen) rest timestamp closest).
Proof.
  revert seen closest.
  induction rest as [| candle rest IH]; intros seen closest Hinv;
    cbn [CandlestickChartView.closestFrom].
  - now rewrite app_nil_r.
  - replace (seen ++ candle :: rest) with ((seen ++ [candle]) ++ rest)
      by (rewrite <- app_assoc; reflexivity).
    replace (S (length seen)) with (length (seen ++ [candle]))
      by (rewrite length_app; cbn; lia).
    apply IH. clear IH.
    assert (Hnew : nth_error (seen ++ [candle]) (length seen) = Some candle).
    { rewrite nth_error_app2 by lia. now rewrite Nat.sub_diag. }
    assert (Hcases : forall j other,
               nth_error (seen ++ [candle]) j = Some other ->
               (j < length seen)%nat /\ nth_error seen j = Some other
               \/ j = length seen /\ other = candle).
    { intros j other Hj.
      destruct (Nat.lt_ge_cases j (length seen)) as [Hlt | Hge].
      - left. split; [exact Hlt |]. now rewrite nth_error_app1 in Hj.
      - right. rewrite nth_error_app2 in Hj by exact Hge.
        destruct (j - length seen)%nat as [| k] eqn:Ek; cbn in Hj.
        + injection Hj as <-. split; [lia | reflexivity].
        + now destruct k. }
    destruct closest as [[index timeDiff] |]; cbn [nearest] in *.
    + destruct Hinv as (best & Hbest & -> & Hmin & Hfirst).
      assert (Hindex : (index < length seen)%nat).
      { apply nth_error_Some. congruence. }
      destruct (_ <? _)%Z eqn:E.
      * apply Z.ltb_lt in E. exists candle. split; [exact Hnew |].
        split; [reflexivity |]. split.
        -- intros j other Hj.
           destruct (Hcases j other Hj) as [[_ Hj'] | [_ ->]]; [| lia].
           specialize (Hmin j other Hj'). lia.
        -- intros j other Hlt Hj.
           destruct (Hcases j other Hj) as [[_ Hj'] | [-> _]]; [| lia].
           specialize (Hmin j other Hj'). lia.
      * apply Z.ltb_ge in E. exists best. split.
        { now rewrite nth_error_app1. }
        split; [reflexivity |]. split.
        -- intros j other Hj.
           destruct (Hcases j other Hj) as [[_ Hj'] | [_ ->]]; [| lia].
           exact (Hmin j other Hj').
        -- intros j other Hlt Hj.
           destruct (Hcases j other Hj) as [[_ Hj'] | [-> _]]; [| lia].
           exact (Hfirst j other Hlt Hj').
    + subst seen. cbn in *. exists candle. split; [reflexivity |].
      split; [reflexivity |]. split.
      * intros j other Hj. destruct (Hcases j other Hj) as [[Hlt _] | [_ ->]]; lia.
      * intros j other Hlt. lia.
Qed.

(** A trade arrow is drawn at the candle nearest in time to the trade, the
    earliest one on a tie, and only when that candle is less than 10 seconds
    away; no arrow is drawn exactly when every candle is at least 10 seconds
    away (in particular on an empty chart). *)
Theorem arrow_at_nearest_candle (visibleCandles : list CandleData) (timestamp : Z) :
  match CandlestickChartView.arrowCandle visibleCandles timestamp with
  | Some index =>
      exists candle,
        nth_error visibleCandles index = Some candle
        /\ (Z.abs (time candle - timestamp) < 10000)%Z
        /\ (forall j other, nth_error visibleCandles j = Some other ->
              (Z.abs (time candle - timestamp) <= Z.abs (time other - timestamp))%Z)
        /\ (forall j other, (j < index)%nat -> nth_error visibleCandles j = Some other ->
              (Z.abs (time candle - timestamp) < Z.abs (time other - timestamp))%Z)
  | None =>
      forall candle, In candle visibleCandles ->
                     (10000 <= Z.abs (time candle - timestamp))%Z
  end.
Proof.
  pose proof (closestFrom_nearest visibleCandles [] timestamp None eq_refl) as H.
  cbn [app length] in H. unfold CandlestickChartView.arrowCandle.
  destruct (CandlestickChartView.closestFrom 0 visibleCandles timestamp None)
    as [[index timeDiff] |]; cbn [nearest] in H.
  - destruct H as (candle & Hc & -> & Hmin & Hfirst).
    destruct (_ <? 10000)%Z eqn:E.
    + apply Z.ltb_lt in E. exists candle. repeat split; assumption.
    + apply Z.ltb_ge in E. intros other Hin.
      apply In_nth_error in Hin as [j Hj]. specialize (Hmin j other Hj). lia.
  - rewrite H. intros candle [].
Qed.

(** ** When a callback throws *)

(** The only callback that can throw is the tick of a candle interval on an
    empty chart, and in the states the component reaches that happens exactly
    while the timeout that installs the first candle of the round is still
    pending: once the first candle is there, every timer callback returns. *)
Theorem tick_throws_only_before_first_candle (c : Component) (id : nat)
    (t : Timer) (k : Clock) :
  reachable c -> timers c !! id = Some t ->
  ((exists message, callback id t k c = Throw message)
   <-> (exists cp v, t = CandleInterval cp v)
       /\ exists f, timers c !! f = Some FirstCandleTimeout).
Proof.
  intros Hr Hid. apply reachable_stage in Hr.
  assert (Hthrow : (exists message, callback id t k c = Throw message) ->
                   (exists cp v, t = CandleInterval cp v) /\ chartData c = []).
  { intros [message Hm]. destruct t; cbn [callback] in Hm; try discriminate.
    split; [eauto |].
    destruct (chartData c) as [| a l] eqn:E; [reflexivity |].
    destruct (candleTick_total id newCrashPoint targetPriceValue (now k)
                (nowFinal k) (nowCrash k) c) as [c' Hc']; [rewrite E; discriminate |].
    congruence. }
  split.
  - intros H. destruct (Hthrow H) as [[cp [v ->]] Hempty].
    split; [eauto |].
    destruct Hr as [s _ Honly _ _ _
                   | f ki cp' Hf _ _ _ _ _
                   | ki cp' v' latest _ _ _ Hlast _ _
                   | d cp' m' _ Honly _ _
                   | j f cp' m' n _ Honly _ _ _].
    + apply Honly in Hid as [| []]; discriminate.
    + now exists f.
    + rewrite Hempty in Hlast. discriminate.
    + apply Honly in Hid as [| []]; discriminate.
    + apply Honly in Hid as [| [[] | []]]; discriminate.
  - intros [[cp [v ->]] [f Hf]].
    assert (Hempty : chartData c = []).
    { destruct Hr as [s _ Honly _ _ _
                     | f' ki cp' _ _ _ _ Hchart _
                     | ki cp' v' latest _ Honly _ _ _ _
                     | d cp' m' _ Honly _ _
                     | j f' cp' m' n _ Honly _ _ _]; [| exact Hchart | ..].
      - apply Honly in Hf as [| []]; discriminate.
      - apply Honly in Hf as [| []]; discriminate.
      - apply Honly in Hf as [| []]; discriminate.
      - apply Honly in Hf as [| [[] | []]]; discriminate. }
    cbn [callback].
    destruct (candleTick id cp v (now k) (nowFinal k) (nowCrash k) c) as [c' | m] eqn:E.
    + exfalso. eapply candleTick_empty; eassumption.
    + now exists m.
Qed.

Lemma opening_round_run :
  run [(1%nat, mkClock 0 0 0)] (mounted 1 candlestick_draws)
  = Some (after [(1%nat, mkClock 0 0 0)]).
Proof.
  unfold after.
  destruct (run [(1%nat, mkClock 0 0 0)] (mounted 1 candlestick_draws)) eqn:E;
    [reflexivity | vm_compute in E; discriminate].
Qed.

(** Right after the start of a round the tick of its candle interval
    throws; after the first tick of [running_round] it does not. *)
Lemma tick_throws_only_before_first_candle_witness :
  (exists message,
     callback 4
       (CandleInterval (crashPoint (gameState (after [(1%nat, mkClock 0 0 0)])))
          initialPrice)
       (mkClock 100 100 100) (after [(1%nat, mkClock 0 0 0)]) = Throw message)
  /\ timers running_round !! 3%nat = None.
Proof.
  split; [| vm_compute; reflexivity].
  apply (tick_throws_only_before_first_candle (after [(1%nat, mkClock 0 0 0)]) 4
           (CandleInterval (crashPoint (gameState (after [(1%nat, mkClock 0 0 0)])))
              initialPrice)
           (mkClock 100 100 100)).
  - exact (after_reachable _ _ opening_round_run).
  - vm_compute. reflexivity.
  - split; [eauto |]. exists 3%nat. vm_compute. reflexivity.
Defined.
